(** * Pokemon AI Showdown: the per-agent decision loop

    A shallow embedding of the heuristic engine ([src/lib/game-knowledge.ts]),
    the memory store ([src/lib/memstash.ts]), the decision step
    ([src/lib/workflows/game-loop/steps.ts]) and the coordinator's button
    statistics ([src/components/agent/agent-card.tsx]), with the properties
    the specification states about them.

    Further parts cover the keys of the store ([src/lib/redis.ts]), the
    route of the notes, the game loop on the server (the iteration and the
    route of the decisions), the in-memory store and the histories of the
    coordinator, with properties read off the code.

    Conventions.
    - A JavaScript string is a [string]: a sequence of code units, and
      [String.length] is the JavaScript [length].
    - A JavaScript number that the code only compares (a confidence score)
      is the rational [Q] that its decimal numeral denotes, and so are the
      literals of the code (0.85, 0.2, 0.5).  The schema admits finite
      values only, and rounding to binary64 is monotone, so [>] and [>=]
      of the code are those of the rationals.
    - A number the code does 32-bit arithmetic on is a [Z] with the
      wrap-around written out.
    - [Record<string, number>] objects keyed by button are [gmap]s.
    - [await]ed calls of the key-value store may throw: the memory store
      runs in a state monad over the store with exceptions, the failures
      to come being part of the state. *)

From Stdlib Require Import ZArith QArith List String Ascii Lia Bool.
From stdpp Require Import gmap strings list.

Local Open Scope string_scope.

(* ===================================================================== *)
(** * JavaScript string primitives used by the sources *)
(* ===================================================================== *)

Module JsString.

Definition newline : ascii := ascii_of_nat 10.
Definition nl : string := String newline EmptyString.

(** [s.charCodeAt(i)]; [None] stands for the [NaN] of an index out of range. *)
Definition charCodeAt (s : string) (i : nat) : option Z :=
  match String.get i s with
  | Some c => Some (Z.of_N (N_of_ascii c))
  | None => None
  end.

(** [s.split(sep)] for a one-character separator: never the empty array. *)
Fixpoint split (sep : ascii) (s : string) : list string :=
  match s with
  | EmptyString => [EmptyString]
  | String c rest =>
      if Ascii.eqb c sep then EmptyString :: split sep rest
      else match split sep rest with
           | [] => [String c EmptyString]
           | h :: t => String c h :: t
           end
  end.

(** [lines.join(sep)]. *)
Definition join (sep : string) (lines : list string) : string :=
  String.concat sep lines.

(** [s.slice(0, n)] for [0 <= n]. *)
Definition slice0 (n : nat) (s : string) : string := substring 0 n s.

(** [s.lastIndexOf(c)], [None] for the JavaScript [-1]. *)
Fixpoint lastIndexOf (c : ascii) (s : string) : option nat :=
  match s with
  | EmptyString => None
  | String d rest =>
      match lastIndexOf c rest with
      | Some i => Some (S i)
      | None => if Ascii.eqb d c then Some 0%nat else None
      end
  end.

(** White space removed by [trim] (code units below 256). *)
Definition is_space (c : ascii) : bool :=
  let n := nat_of_ascii c in
  ((9 <=? n) && (n <=? 13) || (n =? 32) || (n =? 160))%nat.

Fixpoint trimStart (s : string) : string :=
  match s with
  | EmptyString => EmptyString
  | String c rest => if is_space c then trimStart rest else s
  end.

(** Drops trailing white space: a suffix made of white space only
    collapses to the empty string. *)
Fixpoint trimEnd (s : string) : string :=
  match s with
  | EmptyString => EmptyString
  | String c rest =>
      match trimEnd rest with
      | EmptyString => if is_space c then EmptyString else String c EmptyString
      | r => String c r
      end
  end.

Definition trim (s : string) : string := trimEnd (trimStart s).

(** [arr.slice(-n)]: the last [n] elements. *)
Definition lastN {A} (n : nat) (l : list A) : list A :=
  skipn (List.length l - n) l.

(** Truthiness of a string: non-empty. *)
Definition truthy (s : string) : bool :=
  match s with EmptyString => false | _ => true end.

End JsString.

(* ===================================================================== *)
(** * Heuristic engine: frame fingerprint ([src/lib/game-knowledge.ts]) *)
(* ===================================================================== *)

Module FrameHash.
Import JsString.
Local Open Scope Z_scope.

(** [ToInt32]: the signed 32-bit value of an integer. *)
Definition toInt32 (z : Z) : Z := (z + 2 ^ 31) mod 2 ^ 32 - 2 ^ 31.

(** [hash << 5] on an [int32]. *)
Definition shl5 (hash : Z) : Z := toInt32 (Z.shiftl (toInt32 hash) 5).

(** One turn of the loop body:
    [hash = ((hash << 5) - hash) + code; hash = hash & hash]. *)
Definition hash_step (hash : Z) (code : option Z) : Z :=
  match code with
  | Some c => toInt32 ((shl5 hash - hash) + c)
  | None => 0 (* NaN & NaN *)
  end.

Definition stride : nat := 1000.

(** [for (let i = 0; i < base64.length; i += 1000)], with the number of
    turns bounded by [fuel]. *)
Fixpoint hash_loop (fuel : nat) (base64 : string) (i : nat) (hash : Z) : Z :=
  match fuel with
  | O => hash
  | S fuel' =>
      if (i <? String.length base64)%nat
      then hash_loop fuel' base64 (i + stride)
             (hash_step hash (charCodeAt base64 i))
      else hash
  end.

Definition hex_digit (n : N) : ascii :=
  if (n <? 10)%N then ascii_of_N (48 + n) else ascii_of_N (87 + n).

Fixpoint hex_digits (fuel : nat) (n : N) (acc : string) : string :=
  match fuel with
  | O => acc
  | S fuel' =>
      let acc' := String (hex_digit (n mod 16)%N) acc in
      if (n / 16 =? 0)%N then acc' else hex_digits fuel' (n / 16)%N acc'
  end.

(** [hash.toString(16)] of an integer. *)
Definition toString16 (z : Z) : string :=
  if z <? 0 then "-" ++ hex_digits (S (N.to_nat (N.log2 (Z.abs_N z)))) (Z.abs_N z) ""
  else hex_digits (S (N.to_nat (N.log2 (Z.to_N z)))) (Z.to_N z) "".

(** [dataUrl.split(',')[1] || ''] *)
Definition payload (dataUrl : string) : string :=
  match split "," dataUrl with
  | _ :: p :: _ => p
  | _ => ""
  end.

Definition frame_hash_int (dataUrl : string) : Z :=
  let base64 := payload dataUrl in
  hash_loop (S (String.length base64)) base64 0 0.

Definition simpleFrameHash (dataUrl : string) : string :=
  toString16 (frame_hash_int dataUrl).

Inductive VisualChange := no_change | change_detected | first_frame.

(** The classification in [processFrame]:
    [last === null ? 'first_frame' : last === current ? 'no_change' : 'change_detected'] *)
Definition visualChange (lastFrameHash : option string) (currentHash : string)
  : VisualChange :=
  match lastFrameHash with
  | None => first_frame
  | Some h => if String.eqb h currentHash then no_change else change_detected
  end.

(** Two payloads agree at every sampled position: at each multiple of the
    stride both have the same code unit, or both have ended. *)
Definition agree_at_samples (p1 p2 : string) : Prop :=
  forall k : nat, charCodeAt p1 (k * stride) = charCodeAt p2 (k * stride).

End FrameHash.

(* ===================================================================== *)
(** * Button vocabulary ([src/lib/types/emulator.ts]) *)
(* ===================================================================== *)

Module Btn.
Inductive GBAButton :=
| A | B | START | SELECT | UP | DOWN | LEFT | RIGHT | L | R | WAIT.

Definition all : list GBAButton :=
  [A; B; START; SELECT; UP; DOWN; LEFT; RIGHT; L; R; WAIT].

Definition name (b : GBAButton) : string :=
  match b with
  | A => "A" | B => "B" | START => "START" | SELECT => "SELECT"
  | UP => "UP" | DOWN => "DOWN" | LEFT => "LEFT" | RIGHT => "RIGHT"
  | L => "L" | R => "R" | WAIT => "WAIT"
  end.

Definition index (b : GBAButton) : nat :=
  match b with
  | A => 0 | B => 1 | START => 2 | SELECT => 3 | UP => 4 | DOWN => 5
  | LEFT => 6 | RIGHT => 7 | L => 8 | R => 9 | WAIT => 10
  end.

Definition of_index (n : nat) : option GBAButton := nth_error all n.

#[global] Instance eq_dec : EqDecision GBAButton.
Proof. solve_decision. Defined.

#[global] Instance countable : Countable GBAButton.
Proof.
  apply (inj_countable index of_index).
  intros []; reflexivity.
Defined.

Definition eqb (x y : GBAButton) : bool := bool_decide (x = y).
End Btn.

Abbreviation GBAButton := Btn.GBAButton.

(** A per-button confidence table [{ A: 0.2, B: 0.1, ... }], as the ordered
  list of its entries ([Object.entries]). *)
Definition Scores : Type := list (GBAButton * Q).

(** [scores[b]]: [None] for [undefined]. *)
Fixpoint get_score (scores : Scores) (b : GBAButton) : option Q :=
match scores with
| [] => None
| (k, v) :: rest => if Btn.eqb k b then Some v else get_score rest b
end.

(** [scores[b] = v]: an own key keeps its place, a new key goes last. *)
Fixpoint set_score (scores : Scores) (b : GBAButton) (v : Q) : Scores :=
match scores with
| [] => [(b, v)]
| (k, w) :: rest =>
    if Btn.eqb k b then (k, v) :: rest else (k, w) :: set_score rest b v
end.

(* ===================================================================== *)
(** * Persistence layer as seen by the memory store ([src/lib/redis.ts]) *)
(* ===================================================================== *)

Module Redis.

(** An optional, nullable property of a JSON object. *)
Inductive field (A : Type) := Undefined | Null | Val (a : A).
Arguments Undefined {A}.
Arguments Null {A}.
Arguments Val {A} a.

Definition is_undefined {A} (f : field A) : bool :=
  match f with Undefined => true | _ => false end.

Inductive StuckMode := none | perimeter_scan | wall_hug | backtrack.

Record StructuredNotes := {
  currentObjective : field string;
  lastKnownLocation : field string;
  exitFound : field string;
  stuckMode : field StuckMode;
  failedAttempts : field (list string);
  importantDiscovery : field string;
  general : field string;
  _legacyText : option string
}.

(** The value held under [agent:{id}:memstash]: a structured object, or
    the string of the legacy format. *)
Inductive StashContent :=
| StashNotes (n : StructuredNotes)
| StashText (s : string).

Record LogEntry := {
  step : nat;
  button : string;
  reasoning : string;
  timestamp : Z
}.

(** The store, the failures still to come and the wall clock.  The keys
    [agent:{id}:memstash] and [agent:{id}:decisionlog] are two disjoint
    families, each read and written by its own functions only, so each
    family is a map from the agent id.  [faults] is the schedule of the
    backend: the head says whether the next call throws. *)
Record World := {
  memstash : gmap string StashContent;
  decisionlog : gmap string (list LogEntry);
  faults : list bool;
  clock : Z
}.

Definition with_memstash (m : gmap string StashContent) (w : World) : World :=
  {| memstash := m; decisionlog := decisionlog w;
     faults := faults w; clock := clock w |}.
Definition with_decisionlog (d : gmap string (list LogEntry)) (w : World) : World :=
  {| memstash := memstash w; decisionlog := d;
     faults := faults w; clock := clock w |}.
Definition with_faults (f : list bool) (w : World) : World :=
  {| memstash := memstash w; decisionlog := decisionlog w;
     faults := f; clock := clock w |}.

(** What an [await]ed call gives back: a value, or an exception. *)
Inductive outcome (A : Type) := Ok (a : A) | Thrown.
Arguments Ok {A} a.
Arguments Thrown {A}.

Definition M (A : Type) : Type := World -> outcome A * World.

Definition ret {A} (a : A) : M A := fun w => (Ok a, w).
Definition throw {A} : M A := fun w => (Thrown, w).
Definition bind {A B} (m : M A) (k : A -> M B) : M B :=
  fun w => match m w with
           | (Ok a, w') => k a w'
           | (Thrown, w') => (Thrown, w')
           end.
(** [try { body } catch { handler }]: effects of [body] before the
    exception stay. *)
Definition try_catch {A} (body handler : M A) : M A :=
  fun w => match body w with
           | (Ok a, w') => (Ok a, w')
           | (Thrown, w') => handler w'
           end.

(** [Date.now()] *)
Definition now : M Z := fun w => (Ok (clock w), w).

(** One call of the backend: it throws when the schedule says so, and a
    call that throws leaves the store as it was. *)
Definition call {A} (op : World -> A * World) : M A :=
  fun w => match faults w with
           | true :: fs => (Thrown, with_faults fs w)
           | false :: fs => let (a, w') := op (with_faults fs w) in (Ok a, w')
           | [] => let (a, w') := op w in (Ok a, w')
           end.

(** The computation always comes back with a value. *)
Definition never_throws {A} (m : M A) : Prop :=
  forall w, exists a w', m w = (Ok a, w').

(** Two worlds hold the same data. *)
Definition same_store (w w' : World) : Prop :=
  memstash w' = memstash w /\ decisionlog w' = decisionlog w.

(** A world whose backend answers every call. *)
Definition healthy (w : World) : World := with_faults [] w.

Definition get_memstash (agentId : string) : M (option StashContent) :=
  call (fun w => (memstash w !! agentId, w)).
Definition set_memstash (agentId : string) (v : StashContent) : M unit :=
  call (fun w => (tt, with_memstash (<[agentId := v]> (memstash w)) w)).
Definition del_memstash (agentId : string) : M unit :=
  call (fun w => (tt, with_memstash (delete agentId (memstash w)) w)).

Definition get_decisionlog (agentId : string) : M (option (list LogEntry)) :=
  call (fun w => (decisionlog w !! agentId, w)).
Definition set_decisionlog (agentId : string) (v : list LogEntry) : M unit :=
  call (fun w => (tt, with_decisionlog (<[agentId := v]> (decisionlog w)) w)).
Definition del_decisionlog (agentId : string) : M unit :=
  call (fun w => (tt, with_decisionlog (delete agentId (decisionlog w)) w)).

End Redis.

Declare Scope js_scope.
Delimit Scope js_scope with js.
Notation "'let*' x ':=' m 'in' k" := (Redis.bind m (fun x => k))
  (at level 10, x name, m at level 100, k at level 200) : js_scope.
Notation "m ';;;' k" := (Redis.bind m (fun _ => k))
  (at level 100, right associativity) : js_scope.

(* ===================================================================== *)
(** * Memory store ([src/lib/memstash.ts]) *)
(* ===================================================================== *)

Module MemStash.
Import JsString Redis.
Local Open Scope js_scope.

Definition MEMSTASH_PROMPT_LIMIT : nat := 1000.
Definition MEMSTASH_MAX_TOTAL : nat := 5000.

(** The object [{}]. *)
Definition emptyNotes : StructuredNotes :=
  {| currentObjective := Undefined; lastKnownLocation := Undefined;
     exitFound := Undefined; stuckMode := Undefined;
     failedAttempts := Undefined; importantDiscovery := Undefined;
     general := Undefined; _legacyText := None |}.

Definition getStructuredNotes (agentId : string) : M StructuredNotes :=
  try_catch
    (let* content := get_memstash agentId in
     match content with
     | None => ret emptyNotes
     | Some (StashNotes n) => ret n
     | Some (StashText s) =>
         if truthy s
         then ret {| currentObjective := Undefined; lastKnownLocation := Undefined;
                     exitFound := Undefined; stuckMode := Undefined;
                     failedAttempts := Undefined; importantDiscovery := Undefined;
                     general := Undefined; _legacyText := Some s |}
         else ret emptyNotes
     end)
    (ret emptyNotes).

Definition stuckMode_name (m : StuckMode) : string :=
  match m with
  | none => "none" | perimeter_scan => "perimeter_scan"
  | wall_hug => "wall_hug" | backtrack => "backtrack"
  end.

(** [if (notes.f) lines.push(`label${notes.f}`)] *)
Definition push_text (label : string) (f : field string) (lines : list string)
  : list string :=
  match f with
  | Val s => if truthy s then (lines ++ [(label ++ s)%string])%list else lines
  | _ => lines
  end.

Definition formatNotesForPrompt (notes : StructuredNotes) : string :=
  let lines := [] in
  let lines := push_text "Objective: " (currentObjective notes) lines in
  let lines := push_text "Location: " (lastKnownLocation notes) lines in
  let lines := push_text "Exit: " (exitFound notes) lines in
  let lines :=
    match stuckMode notes with
    | Val none => lines
    | Val m => (lines ++ [("Recovery mode: " ++ stuckMode_name m)%string])%list
    | _ => lines
    end in
  let lines :=
    match failedAttempts notes with
    | Val (a :: l) => (lines ++ [("Failed: " ++ join ", " (a :: l))%string])%list
    | _ => lines
    end in
  let lines := push_text "Important: " (importantDiscovery notes) lines in
  let lines := push_text "Notes: " (general notes) lines in
  let lines :=
    match _legacyText notes with
    | Some s => if truthy s then (lines ++ [s])%list else lines
    | None => lines
    end in
  join nl lines.

Definition getMemStash (agentId : string) : M string :=
  try_catch
    (let* content := get_memstash agentId in
     match content with
     | None => ret ""
     | Some (StashNotes n) => ret (formatNotesForPrompt n)
     | Some (StashText s) => ret s
     end)
    (ret "").

(** [Object.keys(newNotes).length] *)
Definition key_count (n : StructuredNotes) : nat :=
  let present {A} (f : field A) := if is_undefined f then 0 else 1 in
  present (currentObjective n) + present (lastKnownLocation n)
  + present (exitFound n) + present (stuckMode n) + present (failedAttempts n)
  + present (importantDiscovery n) + present (general n)
  + match _legacyText n with Some _ => 1 | None => 0 end.

(** [if (newNotes.f !== undefined) merged.f = newNotes.f] *)
Definition overwrite {A} (old new : field A) : field A :=
  match new with
  | Undefined => old
  | _ => new
  end.

(** The object written by [mergeStructuredNotes]. *)
Definition merge (existing newNotes : StructuredNotes) : StructuredNotes :=
  {| currentObjective := overwrite (currentObjective existing) (currentObjective newNotes);
     lastKnownLocation := overwrite (lastKnownLocation existing) (lastKnownLocation newNotes);
     exitFound := overwrite (exitFound existing) (exitFound newNotes);
     stuckMode := overwrite (stuckMode existing) (stuckMode newNotes);
     failedAttempts :=
       match failedAttempts newNotes with
       | Val (a :: l) =>
           let existingAttempts :=
             match failedAttempts existing with
             | Val old => old
             | _ => []
             end in
           Val (lastN 5 (existingAttempts ++ a :: l)%list)
       | _ => failedAttempts existing
       end;
     importantDiscovery := overwrite (importantDiscovery existing) (importantDiscovery newNotes);
     general := overwrite (general existing) (general newNotes);
     _legacyText := _legacyText existing |}.

Definition mergeStructuredNotes (agentId : string) (newNotes : StructuredNotes)
  : M unit :=
  if (key_count newNotes =? 0)%nat then ret tt
  else
    try_catch
      (let* existing := getStructuredNotes agentId in
       set_memstash agentId (StashNotes (merge existing newNotes)))
      (ret tt).

Definition digit (n : Z) : string :=
  String (ascii_of_N (48 + Z.to_N n)) EmptyString.
Definition two_digits (n : Z) : string :=
  (digit (n / 10) ++ digit (n mod 10))%Z.

(** [new Date().toISOString().slice(11, 19)]: [HH:MM:SS] of the clock. *)
Definition iso_time (ms : Z) : string :=
  let s := ((ms / 1000) mod 86400)%Z in
  two_digits (s / 3600) ++ ":" ++ two_digits ((s / 60) mod 60)%Z
  ++ ":" ++ two_digits (s mod 60)%Z.

(** [while (updated.length > MEMSTASH_MAX_TOTAL && lines.length > 1)
       { lines.pop(); updated = lines.join('\n'); }] *)
Fixpoint drop_lines (fuel : nat) (lines : list string) (updated : string)
  : string :=
  match fuel with
  | O => updated
  | S fuel' =>
      if ((MEMSTASH_MAX_TOTAL <? String.length updated)
          && (1 <? List.length lines))%nat
      then let lines' := removelast lines in
           drop_lines fuel' lines' (join nl lines')
      else updated
  end.

(** The text kept by the legacy branch of [appendMemStash]. *)
Definition legacy_update (time : string) (content : string) (legacyText : string)
  : string :=
  let newEntry := "[" ++ time ++ "] " ++ trim content in
  let updated := if truthy legacyText then newEntry ++ nl ++ legacyText else newEntry in
  if (MEMSTASH_MAX_TOTAL <? String.length updated)%nat
  then let lines := split newline updated in
       drop_lines (List.length lines) lines updated
  else updated.

Definition set_legacyText (n : StructuredNotes) (s : string) : StructuredNotes :=
  {| currentObjective := currentObjective n;
     lastKnownLocation := lastKnownLocation n;
     exitFound := exitFound n; stuckMode := stuckMode n;
     failedAttempts := failedAttempts n;
     importantDiscovery := importantDiscovery n;
     general := general n; _legacyText := Some s |}.

(** [content: string | StructuredNotes] *)
Definition appendMemStash (agentId : string) (content : string + StructuredNotes)
  : M unit :=
  match content with
  | inr notes => mergeStructuredNotes agentId notes
  | inl text =>
      if negb (truthy text) || negb (truthy (trim text)) then ret tt
      else
        try_catch
          (let* existing := getStructuredNotes agentId in
           let* ms := now in
           let legacyText :=
             match _legacyText existing with Some s => s | None => "" end in
           let updated := legacy_update (iso_time ms) text legacyText in
           set_memstash agentId (StashNotes (set_legacyText existing updated)))
          (ret tt)
  end.

Definition clearMemStash (agentId : string) : M unit :=
  try_catch (del_memstash agentId) (ret tt).

(** The truncation of [getMemStashForPrompt]. *)
Definition truncate_for_prompt (content : string) : string :=
  if negb (truthy content) then ""
  else if (String.length content <=? MEMSTASH_PROMPT_LIMIT)%nat then content
  else
    let truncated := slice0 MEMSTASH_PROMPT_LIMIT content in
    match lastIndexOf newline truncated with
    | Some lastNewline =>
        if (MEMSTASH_PROMPT_LIMIT - 100 <? lastNewline)%nat
        then slice0 lastNewline truncated
        else truncated
    | None => truncated
    end.

Definition getMemStashForPrompt (agentId : string) : M string :=
  let* content := getMemStash agentId in
  ret (truncate_for_prompt content).

Definition getDecisionLog (agentId : string) : M (list LogEntry) :=
  try_catch
    (let* log := get_decisionlog agentId in
     match log with
     | Some l => ret l
     | None => ret []
     end)
    (ret []).

Definition appendDecisionLog (agentId : string) (button reasoning : string)
  : M nat :=
  try_catch
    (let* log := getDecisionLog agentId in
     let step := (List.length log + 1)%nat in
     let* ms := now in
     let log := (log ++ [ {| Redis.step := step; Redis.button := button;
                             Redis.reasoning := reasoning; timestamp := ms |} ])%list in
     let trimmed := lastN 500 log in
     set_decisionlog agentId trimmed ;;;
     ret step)
    (ret 0%nat).

Definition clearDecisionLog (agentId : string) : M unit :=
  try_catch (del_decisionlog agentId) (ret tt).

(** [n] decisions logged one after the other: the step numbers that came
    back, in order, and the world at the end. *)
Fixpoint log_decisions (agentId : string) (n : nat) (w : World)
  : list (outcome nat) * World :=
  match n with
  | O => ([], w)
  | S n' =>
      let (r, w1) := appendDecisionLog agentId "A" "advance the dialogue" w in
      let (rs, w2) := log_decisions agentId n' w1 in
      (r :: rs, w2)
  end.

(** The log under the key of the agent; no key reads as the empty log. *)
Definition stored_log (w : World) (agentId : string) : list LogEntry :=
  default [] (decisionlog w !! agentId).

(** The notes as a healthy backend reads them back. *)
Definition stored_notes (w : World) (agentId : string) : StructuredNotes :=
  match fst (getStructuredNotes agentId (healthy w)) with
  | Ok n => n
  | Thrown => emptyNotes
  end.

(** [notes.failedAttempts || []] *)
Definition attempts (n : StructuredNotes) : list string :=
  match failedAttempts n with
  | Val l => l
  | _ => []
  end.

(** A field of the result of a merge: the one of the delta when the delta
    has it, the old one otherwise. *)
Definition overwritten {A} (old new result : field A) : Prop :=
  (new <> Undefined -> result = new) /\ (new = Undefined -> result = old).

(** An empty store behind a healthy backend. *)
Definition empty_world : World :=
  {| memstash := ∅; decisionlog := ∅; faults := []; clock := 0 |}.

(** The text is one line. *)
Definition single_line (s : string) : Prop :=
  List.length (split newline s) = 1%nat.

(** A string of [n] copies of [c]. *)
Fixpoint repeat_char (c : ascii) (n : nat) : string :=
  match n with
  | O => EmptyString
  | S n' => String c (repeat_char c n')
  end.

(** A delta of notes with text fields only. *)
Definition text_delta
  (objective location exit discovery general : field string) : StructuredNotes :=
  {| currentObjective := objective; lastKnownLocation := location;
     exitFound := exit; stuckMode := Undefined; failedAttempts := Undefined;
     importantDiscovery := discovery; general := general;
     _legacyText := None |}.





End MemStash.

(* ===================================================================== *)
(** * Decision step ([src/lib/workflows/game-loop/steps.ts]) *)
(* ===================================================================== *)

Module Steps.
Import JsString MemStash.
Local Open Scope js_scope.
Local Open Scope Q_scope.

Inductive ScreenType :=
| overworld | battle | menu | dialogue | textEntry | transition | unknown.

(** The fields of [GameState] that the decision step computes; the others
    ([partyHealth], [party], [playtime], [currentMilestone],
    [progressMetrics], [lastAction], [lastActionResult]) are the same
    constants on every path. *)
Record GameState := {
  currentArea : string;
  inBattle : bool;
  inMenu : bool;
  inDialogue : bool;
  inTextEntry : bool;
  pokemonCount : Q;
  totalPartyHP : Q;
  badges : Q;
  screenType : ScreenType
}.

Definition createInitialGameState : GameState :=
  {| currentArea := "Unknown"; inBattle := false; inMenu := false;
     inDialogue := false; inTextEntry := false; pokemonCount := 0;
     totalPartyHP := 100; badges := 0; screenType := unknown |}.

Record Usage := {
  promptTokens : Z;
  completionTokens : Z;
  totalTokens : Z
}.

Record ButtonSequenceStep := {
  step_button : GBAButton;
  step_confidence : Q
}.

Record AIDecision := {
  button : GBAButton;
  reasoning : string;
  screenAnalysis : option string;
  confidence : Q;
  personality_comment : option string;
  confidenceScores : Scores;
  progressConfidence : Q;
  buttonSequence : list ButtonSequenceStep;
  timestamp : Z;
  isFallback : bool
}.

Record GameLoopOutput := {
  decision : AIDecision;
  gameState : GameState;
  usage : Usage
}.

(** ** The reply of the model, before and after the schema *)

(** [gameStateSchema] before its defaults. *)
Record RawGameState := {
  raw_currentArea : option string;
  raw_inBattle : option bool;
  raw_inMenu : option bool;
  raw_inDialogue : option bool;
  raw_inTextEntry : option bool;
  raw_pokemonCount : option Q;
  raw_badges : option Q;
  raw_screenType : option ScreenType;
  raw_estimatedPartyHP : option Q
}.

Record ParsedGameState := {
  p_currentArea : string;
  p_inBattle : bool;
  p_inMenu : bool;
  p_inDialogue : bool;
  p_inTextEntry : bool;
  p_pokemonCount : Q;
  p_badges : Q;
  p_screenType : ScreenType;
  p_estimatedPartyHP : Q
}.

(** The [decision] object of a reply.  Before the schema each step of
    [buttonSequence] is any object with numeric members; after it, each
    step has the eleven buttons in the order of [confidenceScoresSchema]. *)
Record ModelDecision := {
  m_screenAnalysis : string;
  m_reasoning : string;
  m_personality_comment : Redis.field string;
  m_buttonSequence : list Scores;
  m_progressConfidence : Q;
  m_notes : Redis.field Redis.StructuredNotes
}.

Record RawUsage := {
  u_promptTokens : option Z;
  u_completionTokens : option Z;
  u_totalTokens : option Z
}.

Record RawReply := {
  reply_gameState : RawGameState;
  reply_decision : ModelDecision;
  reply_usage : option RawUsage
}.

Record ParsedReply := {
  object_gameState : ParsedGameState;
  object_decision : ModelDecision;
  result_usage : option RawUsage
}.

(** What the call of the model comes to.  [Unparsable] is a reply that is
    not even an object of the expected types. *)
Inductive ModelOutcome :=
| ModelError
| Timeout
| Unparsable
| Reply (r : RawReply).

(** [x ?? d] *)
Definition orElse {A} (x : option A) (d : A) : A :=
  match x with Some a => a | None => d end.

(** [z.number().min(lo).max(hi)] *)
Definition in_range (lo hi v : Q) : bool := Qle_bool lo v && Qle_bool v hi.

(** [confidenceScoresSchema]: every button present with a value in [0, 1];
    the parsed object lists the keys in the order of the schema. *)
Fixpoint parse_scores_keys (keys : list GBAButton) (raw : Scores) : option Scores :=
  match keys with
  | [] => Some []
  | k :: keys' =>
      match get_score raw k with
      | Some v =>
          if in_range 0 1 v
          then match parse_scores_keys keys' raw with
               | Some rest => Some ((k, v) :: rest)
               | None => None
               end
          else None
      | None => None
      end
  end.

Definition confidenceScoresSchema (raw : Scores) : option Scores :=
  parse_scores_keys Btn.all raw.

(** [z.array(confidenceScoresSchema)] *)
Fixpoint parse_sequence (raw : list Scores) : option (list Scores) :=
  match raw with
  | [] => Some []
  | s :: rest =>
      match confidenceScoresSchema s, parse_sequence rest with
      | Some s', Some rest' => Some (s' :: rest')
      | _, _ => None
      end
  end.

(** The [notes] object of [decisionSchema]: [failedAttempts] has at most
    five entries; a key outside the schema is stripped. *)
Definition parse_notes (n : Redis.StructuredNotes) : option Redis.StructuredNotes :=
  let ok :=
    match Redis.failedAttempts n with
    | Redis.Val l => (List.length l <=? 5)%nat
    | _ => true
    end in
  if ok
  then Some {| Redis.currentObjective := Redis.currentObjective n;
               Redis.lastKnownLocation := Redis.lastKnownLocation n;
               Redis.exitFound := Redis.exitFound n;
               Redis.stuckMode := Redis.stuckMode n;
               Redis.failedAttempts := Redis.failedAttempts n;
               Redis.importantDiscovery := Redis.importantDiscovery n;
               Redis.general := Redis.general n;
               Redis._legacyText := None |}
  else None.

Definition decisionSchema (d : ModelDecision) : option ModelDecision :=
  match parse_sequence (m_buttonSequence d) with
  | Some seq =>
      if (1 <=? List.length seq)%nat && in_range 0 1 (m_progressConfidence d)
      then
        let comment :=
          match m_personality_comment d with
          | Redis.Undefined => Redis.Val ""
          | c => c
          end in
        let build notes :=
          Some {| m_screenAnalysis := m_screenAnalysis d;
                  m_reasoning := m_reasoning d;
                  m_personality_comment := comment;
                  m_buttonSequence := seq;
                  m_progressConfidence := m_progressConfidence d;
                  m_notes := notes |} in
        match m_notes d with
        | Redis.Val n =>
            match parse_notes n with
            | Some n' => build (Redis.Val n')
            | None => None
            end
        | Redis.Null => build Redis.Null
        | Redis.Undefined => build Redis.Undefined
        end
      else None
  | None => None
  end.

Definition gameStateSchema (g : RawGameState) : option ParsedGameState :=
  let hp := orElse (raw_estimatedPartyHP g) 100 in
  if in_range 0 100 hp
  then Some {| p_currentArea := orElse (raw_currentArea g) "Unknown";
               p_inBattle := orElse (raw_inBattle g) false;
               p_inMenu := orElse (raw_inMenu g) false;
               p_inDialogue := orElse (raw_inDialogue g) false;
               p_inTextEntry := orElse (raw_inTextEntry g) false;
               p_pokemonCount := orElse (raw_pokemonCount g) 0;
               p_badges := orElse (raw_badges g) 0;
               p_screenType := orElse (raw_screenType g) unknown;
               p_estimatedPartyHP := hp |}
  else None.

(** [z.object({ gameState: gameStateSchema, decision: decisionSchema })] *)
Definition schema (r : RawReply) : option ParsedReply :=
  match gameStateSchema (reply_gameState r), decisionSchema (reply_decision r) with
  | Some g, Some d =>
      Some {| object_gameState := g; object_decision := d;
              result_usage := reply_usage r |}
  | _, _ => None
  end.

(** [await generateObject({ schema, ... })]: the validated object, or an
    exception for a provider error, a time-out or a reply the schema
    rejects. *)
Definition generateObject (outcome : ModelOutcome) : Redis.M ParsedReply :=
  match outcome with
  | Reply r =>
      match schema r with
      | Some o => Redis.ret o
      | None => Redis.throw
      end
  | _ => Redis.throw
  end.

(** ** The decision *)

Definition fallbackScores : Scores :=
  [(Btn.A, 0.2); (Btn.B, 0.2); (Btn.START, 0.1); (Btn.SELECT, 0.1);
   (Btn.UP, 0.2); (Btn.DOWN, 0.2); (Btn.LEFT, 0.2); (Btn.RIGHT, 0.2);
   (Btn.L, 0.1); (Btn.R, 0.1); (Btn.WAIT, 0.5)].

Definition createFallbackDecision (estimatedPromptTokens : Z)
  : Redis.M GameLoopOutput :=
  let* ms := Redis.now in
  Redis.ret
    {| decision :=
         {| button := Btn.WAIT;
            reasoning := "Fallback: waiting due to parsing error - no action taken";
            screenAnalysis := None;
            confidence := 0.5;
            personality_comment := Some "";
            confidenceScores := fallbackScores;
            progressConfidence := 0.3;
            buttonSequence := [ {| step_button := Btn.WAIT; step_confidence := 0.5 |} ];
            timestamp := ms;
            isFallback := true |};
       gameState := createInitialGameState;
       usage := {| promptTokens := estimatedPromptTokens;
                   completionTokens := 100;
                   totalTokens := estimatedPromptTokens + 100 |} |}.

Definition SEQUENCE_THRESHOLD : Q := 0.85.

Record Best := { best_button : GBAButton; score : Q }.

(** [numScore > b.score] *)
Definition Qgtb (x y : Q) : bool := negb (Qle_bool x y).

(** The callback of the [reduce]:
    [(b, [btn, score]) => score > b.score ? { button: btn, score } : b] *)
Definition choose (b : Best) (entry : GBAButton * Q) : Best :=
  if Qgtb (snd entry) (score b)
  then {| best_button := fst entry; score := snd entry |}
  else b.

(** [entries.reduce(choose, { button: 'A', score: -1 })] *)
Definition pick_best (entries : Scores) : Best :=
  fold_left choose entries {| best_button := Btn.A; score := -1 |}.

(** The [for] loop over [buttonSequence]: a step without entries is
    skipped, the first kept step always executes, a later one only at or
    above the threshold, and the first one below it ends the loop. *)
Fixpoint derive (steps : list Scores) (buttonsToExecute : list Best) : list Best :=
  match steps with
  | [] => buttonsToExecute
  | scores :: rest =>
      match scores with
      | [] => derive rest buttonsToExecute
      | _ =>
          let best := pick_best scores in
          if (List.length buttonsToExecute =? 0)%nat
             || Qle_bool SEQUENCE_THRESHOLD (score best)
          then derive rest (buttonsToExecute ++ [best])%list
          else buttonsToExecute
      end
  end.

Definition to_step (b : Best) : ButtonSequenceStep :=
  {| step_button := best_button b; step_confidence := score b |}.

(** The body of [analyzeFrameAndDecide] from the call of the model on.
    The prompt only reaches the model, whose reply is an input here. *)
Definition analyzeFrameAndDecide (agentId : string) (outcome : ModelOutcome)
  : Redis.M GameLoopOutput :=
  Redis.try_catch
    (let* result := generateObject outcome in
     let g := object_gameState result in
     let d := object_decision result in
     let gameState :=
       {| currentArea := p_currentArea g; inBattle := p_inBattle g;
          inMenu := p_inMenu g; inDialogue := p_inDialogue g;
          inTextEntry := p_inTextEntry g; pokemonCount := p_pokemonCount g;
          totalPartyHP := p_estimatedPartyHP g; badges := p_badges g;
          screenType := p_screenType g |} in
     let buttonSequence := m_buttonSequence d in
     if (List.length buttonSequence =? 0)%nat then createFallbackDecision 1500
     else
       let buttonsToExecute := derive buttonSequence [] in
       match buttonsToExecute with
       | [] => createFallbackDecision 1500
       | primaryButton :: _ =>
           let firstScores := orElse (head buttonSequence) [] in
           (match m_notes d with
            | Redis.Val notes => appendMemStash agentId (inr notes)
            | _ => Redis.ret tt
            end) ;;;
           appendDecisionLog agentId (Btn.name (best_button primaryButton))
             (m_reasoning d) ;;;
           let* ms := Redis.now in
           Redis.ret
             {| decision :=
                  {| button := best_button primaryButton;
                     reasoning := m_reasoning d;
                     screenAnalysis := Some (m_screenAnalysis d);
                     confidence := score primaryButton;
                     personality_comment :=
                       match m_personality_comment d with
                       | Redis.Val c => Some c
                       | _ => None
                       end;
                     confidenceScores := firstScores;
                     progressConfidence := m_progressConfidence d;
                     buttonSequence := map to_step buttonsToExecute;
                     timestamp := ms;
                     isFallback := false |};
                gameState := gameState;
                usage :=
                  let u f := match result_usage result with
                             | Some r => orElse (f r) 0%Z
                             | None => 0%Z
                             end in
                  {| promptTokens := u u_promptTokens;
                     completionTokens := u u_completionTokens;
                     totalTokens := u u_totalTokens |} |}
       end)
    (createFallbackDecision 1500).

(** A reply with a three-step sequence: A at 0.9, then RIGHT at 0.95, then
    a step whose best button stays below the threshold. *)
Definition example_table (a right : Q) : Scores :=
  [(Btn.A, a); (Btn.B, 0.1); (Btn.START, 0); (Btn.SELECT, 0);
   (Btn.UP, 0.3); (Btn.DOWN, 0.3); (Btn.LEFT, 0.2); (Btn.RIGHT, right);
   (Btn.L, 0); (Btn.R, 0); (Btn.WAIT, 0.1)].

Definition example_reply : RawReply :=
  {| reply_gameState :=
       {| raw_currentArea := Some "Pallet Town"; raw_inBattle := None;
          raw_inMenu := None; raw_inDialogue := None; raw_inTextEntry := None;
          raw_pokemonCount := None; raw_badges := None;
          raw_screenType := Some overworld; raw_estimatedPartyHP := None |};
     reply_decision :=
       {| m_screenAnalysis := "Player center. Door on the left wall.";
          m_reasoning := "Talk, then walk to the door.";
          m_personality_comment := Redis.Undefined;
          m_buttonSequence :=
            [example_table 0.9 0.1; example_table 0.2 0.95;
             example_table 0.3 0.84];
          m_progressConfidence := 0.6;
          m_notes := Redis.Undefined |};
     reply_usage := None |}.

(** The call of the model did not yield a valid structured reply: a model
    error, a time-out, or a reply that the schema rejects. *)
Definition failed (outcome : ModelOutcome) : Prop :=
  match outcome with
  | Reply r => schema r = None
  | _ => True
  end.

(** A table as the schema leaves it: the eleven buttons in order, each
    with a value in [0, 1]. *)
Definition valid_table (t : Scores) : Prop :=
  map fst t = Btn.all /\ forall b v, In (b, v) t -> 0 <= v /\ v <= 1.

(** [b] with value [v] is a highest entry of the table. *)
Definition is_argmax (scores : Scores) (b : GBAButton) (v : Q) : Prop :=
  get_score scores b = Some v
  /\ forall b' v', get_score scores b' = Some v' -> v' <= v.

End Steps.

(* ===================================================================== *)
(** * Coordinator: button statistics ([src/components/agent/agent-card.tsx]) *)
(* ===================================================================== *)

Module AgentCard.
Import FrameHash.
Local Open Scope Q_scope.

(** The refs and state cells of [AgentCard] that the heuristics use.  The
    callback is rebuilt whenever [isProcessing] flips, hence at every
    iteration it reads the cells as the iteration before left them. *)
Record State := {
  lastFrameHash : option string;
  lastButton : option GBAButton;
  confidenceScores : Scores;
  noChangeCount : gmap GBAButton nat;
  buttonsToAvoid : list GBAButton;
  bannedButtons : gmap GBAButton nat;
  buttonPressCount : gmap GBAButton nat;
  consecutiveStartSelectCount : nat;
  consecutiveWaitCount : nat;
  consecutiveBCount : nat
}.

Definition DEFAULT_CONFIDENCE_SCORES : Scores :=
  [(Btn.A, 0.5); (Btn.B, 0.5); (Btn.START, 0.5); (Btn.SELECT, 0.5);
   (Btn.UP, 0.5); (Btn.DOWN, 0.5); (Btn.LEFT, 0.5); (Btn.RIGHT, 0.5);
   (Btn.L, 0.5); (Btn.R, 0.5); (Btn.WAIT, 0.5)].

(** The cells at mount and after [handleReset]. *)
Definition initial : State :=
  {| lastFrameHash := None; lastButton := None;
     confidenceScores := DEFAULT_CONFIDENCE_SCORES;
     noChangeCount := ∅; buttonsToAvoid := [];
     bannedButtons := ∅; buttonPressCount := ∅;
     consecutiveStartSelectCount := 0; consecutiveWaitCount := 0;
     consecutiveBCount := 0 |}.

(** The heuristic part of the body posted to [/api/agent/decide]: what the
    coordinator sends for the next prompt. *)
Record DecideRequest := {
  previousConfidenceScores : Scores;
  avoidStartSelect : bool;
  avoidWait : bool;
  avoidB : bool;
  req_buttonsToAvoid : list GBAButton;
  req_bannedButtons : list GBAButton
}.

(** [Object.keys(bannedButtons).filter(b => bannedButtons[b] > 0)] *)
Definition banned_keys (banned : gmap GBAButton nat) : list GBAButton :=
  map fst (List.filter (fun kv => (0 <? snd kv)%nat) (map_to_list banned)).

Definition request (st : State) : DecideRequest :=
  {| previousConfidenceScores := confidenceScores st;
     avoidStartSelect := (2 <? consecutiveStartSelectCount st)%nat;
     avoidWait := (3 <=? consecutiveWaitCount st)%nat;
     avoidB := (5 <=? consecutiveBCount st)%nat;
     req_buttonsToAvoid := buttonsToAvoid st;
     req_bannedButtons := banned_keys (bannedButtons st) |}.

(** [typeof frame === 'string' && frame.startsWith('data:image/')
     && frame.length > 1000] *)
Definition isValidFrame (frame : string) : bool :=
  String.prefix "data:image/" frame && (1000 <? String.length frame)%nat.

(** [prev.includes(btn)] *)
Definition includes (l : list GBAButton) (b : GBAButton) : bool :=
  existsb (Btn.eqb b) l.

(** [counts[btn] || 0] *)
Definition count_of (counts : gmap GBAButton nat) (b : GBAButton) : nat :=
  default 0%nat (counts !! b).

(** The block "Update confidence scores and track buttons to avoid". *)
Definition track_no_change (vc : VisualChange) (st : State) (scores : Scores)
  : Scores * gmap GBAButton nat * list GBAButton :=
  match vc, lastButton st with
  | no_change, Some btn =>
      let count := (count_of (noChangeCount st) btn + 1)%nat in
      let counts := <[btn := count]> (noChangeCount st) in
      let newScores :=
        if (5 <=? count)%nat then set_score scores btn 0.2 else scores in
      let avoid :=
        if (1 <=? count)%nat && (count <? 5)%nat
           && negb (includes (buttonsToAvoid st) btn)
        then (buttonsToAvoid st ++ [btn])%list
        else buttonsToAvoid st in
      (newScores, counts, avoid)
  | change_detected, Some btn =>
      let counts :=
        match noChangeCount st !! btn with
        | Some (S _) => <[btn := 0%nat]> (noChangeCount st)
        | _ => noChangeCount st
        end in
      (scores, counts,
       List.filter (fun b => negb (Btn.eqb b btn)) (buttonsToAvoid st))
  | _, _ => (scores, noChangeCount st, buttonsToAvoid st)
  end.

(** One turn of the loop that executes the sequence: count the press and,
    at ten, ban the button and reset its counter. *)
Definition press (acc : gmap GBAButton nat * gmap GBAButton nat)
  (step : Steps.ButtonSequenceStep)
  : gmap GBAButton nat * gmap GBAButton nat :=
  let '(pressCount, banned) := acc in
  let btn := Steps.step_button step in
  let count := (count_of pressCount btn + 1)%nat in
  if (10 <=? count)%nat
  then (<[btn := 0%nat]> pressCount, <[btn := 2%nat]> banned)
  else (<[btn := count]> pressCount, banned).

(** "Decrement banned buttons counter after each prompt":
    [if (count > 1) updated[btn] = count - 1]. *)
Definition decrement_bans (banned : gmap GBAButton nat) : gmap GBAButton nat :=
  omap (fun count => if (1 <? count)%nat then Some (count - 1)%nat else None) banned.

(** [processFrame] for a captured frame and the decision that came back
    ([None]: the request failed, the [catch] branch changes no counter).
    The decision always carries [confidenceScores] and [buttonSequence],
    as the decision step builds it. *)
Definition processFrame (st : State) (frame : string)
  (response : option Steps.AIDecision) : State :=
  if negb (isValidFrame frame) then st
  else
    match response with
    | None => st
    | Some d =>
        let currentHash := simpleFrameHash frame in
        let vc := visualChange (lastFrameHash st) currentHash in
        let '(newScores, counts, avoid) :=
          track_no_change vc st (Steps.confidenceScores d) in
        let button := Steps.button d in
        let '(nStartSelect, nWait, nB) :=
          match button with
          | Btn.START | Btn.SELECT => (S (consecutiveStartSelectCount st), 0, 0)%nat
          | Btn.WAIT => (0, S (consecutiveWaitCount st), 0)%nat
          | Btn.B => (0, 0, S (consecutiveBCount st))%nat
          | _ => (0, 0, 0)%nat
          end in
        let '(pressCount, banned) :=
          fold_left press (Steps.buttonSequence d)
            (buttonPressCount st, bannedButtons st) in
        {| lastFrameHash := Some currentHash;
           lastButton := Some button;
           confidenceScores := newScores;
           noChangeCount := counts;
           buttonsToAvoid := avoid;
           bannedButtons := decrement_bans banned;
           buttonPressCount := pressCount;
           consecutiveStartSelectCount := nStartSelect;
           consecutiveWaitCount := nWait;
           consecutiveBCount := nB |}
    end.

(** A run: the iterations in order.  The prompt of iteration [k + 1] is
    [request] of the state that the first [k] iterations leave. *)
Definition run (st : State) (iterations : list (string * option Steps.AIDecision))
  : State :=
  fold_left (fun s it => processFrame s (fst it) (snd it)) iterations st.

(** A captured frame of 1200 payload characters, all [c]. *)
Definition frame_of (c : ascii) : string :=
  ("data:image/png;base64," ++ MemStash.repeat_char c 1200)%string.

(** The decision "press [b] once". *)
Definition press_once (b : GBAButton) : Steps.AIDecision :=
  {| Steps.button := b;
     Steps.reasoning := "keep going";
     Steps.screenAnalysis := Some "Player center.";
     Steps.confidence := 0.9;
     Steps.personality_comment := None;
     Steps.confidenceScores := set_score DEFAULT_CONFIDENCE_SCORES b 0.9;
     Steps.progressConfidence := 0.5;
     Steps.buttonSequence :=
       [ {| Steps.step_button := b; Steps.step_confidence := 0.9 |} ];
     Steps.timestamp := 0;
     Steps.isFallback := false |}.

(** Every ban has at most [k] prompts left. *)
Definition ban_counts_at_most (k : nat) (banned : gmap GBAButton nat) : Prop :=
  forall b n, banned !! b = Some n -> (n <= k)%nat.

(** The counters never let a button go unlisted: a button with a
    no-change count of one or more is in [buttonsToAvoid]. *)
Definition avoid_invariant (st : State) : Prop :=
  forall b, (1 <= count_of (noChangeCount st) b)%nat -> In b (buttonsToAvoid st).

(** What an iteration observes about the press before it: the button the
    outcome is attributed to and the classification of the frame.  An
    iteration that is dropped (invalid frame, failed request) observes
    nothing. *)
Definition observed (st : State) (it : string * option Steps.AIDecision)
  : option (GBAButton * VisualChange) :=
  if negb (isValidFrame (fst it)) then None
  else
    match snd it, lastButton st with
    | Some _, Some btn =>
        Some (btn, visualChange (lastFrameHash st) (simpleFrameHash (fst it)))
    | _, _ => None
    end.

(** The iterations of a run in which the outcome [vc] is attributed to [b]. *)
Fixpoint outcomes (b : GBAButton) (vc : VisualChange) (st : State)
  (iterations : list (string * option Steps.AIDecision)) : nat :=
  match iterations with
  | [] => 0
  | it :: rest =>
      (match observed st it with
       | Some (b', vc') =>
           if Btn.eqb b' b
           then match vc', vc with
                | no_change, no_change | change_detected, change_detected
                | first_frame, first_frame => 1
                | _, _ => 0
                end
           else 0
       | None => 0
       end
       + outcomes b vc (processFrame st (fst it) (snd it)) rest)%nat
  end.

End AgentCard.

(* ===================================================================== *)
(** * Key patterns ([src/lib/redis.ts]) *)
(* ===================================================================== *)

Module Keys.

(** [`agent:${agentId}:${part}`] *)
Definition agent_key (agentId part : string) : string :=
  "agent:" ++ agentId ++ ":" ++ part.

Definition agentState (agentId : string) : string := agent_key agentId "state".
Definition agentHeartbeat (agentId : string) : string := agent_key agentId "heartbeat".
Definition agentFrames (agentId : string) : string := agent_key agentId "frames".
Definition agentDecisions (agentId : string) : string := agent_key agentId "decisions".
Definition agentMilestones (agentId : string) : string := agent_key agentId "milestones".
Definition agentLocations (agentId : string) : string := agent_key agentId "locations".
Definition agentProgressMetrics (agentId : string) : string := agent_key agentId "progress".
Definition agentRewardHistory (agentId : string) : string := agent_key agentId "rewards".
Definition agentStuckState (agentId : string) : string := agent_key agentId "stuck".
Definition agentMemStash (agentId : string) : string := agent_key agentId "memstash".
Definition agentDecisionLog (agentId : string) : string := agent_key agentId "decisionlog".

Definition leaderboard : string := "leaderboard:badges".
Definition milestoneLeaderboard : string := "leaderboard:milestones".
Definition costLeaderboard : string := "leaderboard:cost".

(** The eleven patterns that take an agent id. *)
Definition agent_patterns : list (string -> string) :=
  [agentState; agentHeartbeat; agentFrames; agentDecisions; agentMilestones;
   agentLocations; agentProgressMetrics; agentRewardHistory; agentStuckState;
   agentMemStash; agentDecisionLog].

Definition leaderboard_keys : list string :=
  [leaderboard; milestoneLeaderboard; costLeaderboard].

(** The last parts of the eleven patterns, in the order of [agent_patterns]. *)
Definition parts : list string :=
  ["state"; "heartbeat"; "frames"; "decisions"; "milestones"; "locations";
   "progress"; "rewards"; "stuck"; "memstash"; "decisionlog"].

(** One list is the beginning of the other. *)
Fixpoint compatible (x y : list ascii) : bool :=
  match x, y with
  | a :: x', b :: y' => Ascii.eqb a b && compatible x' y'
  | _, _ => true
  end.

(** The tail of a key after the agent id, read from the end. *)
Definition reversed_tail (part : string) : list ascii :=
  rev (list_ascii_of_string (":" ++ part)).

End Keys.

(* ===================================================================== *)
(** * Runs of the memory store and its route
      ([src/lib/memstash.ts], [src/app/api/agent/[id]/memstash/route.ts]) *)
(* ===================================================================== *)

Module MemStashRoute.
Import JsString Redis MemStash.
Local Open Scope js_scope.

(** Decisions logged one after the other. *)
Fixpoint log_all (agentId : string) (decisions : list (string * string)) (w : World)
  : World :=
  match decisions with
  | [] => w
  | (button, reasoning) :: rest =>
      log_all agentId rest (snd (appendDecisionLog agentId button reasoning w))
  end.

(** What a log entry records of the decision. *)
Definition logged (e : LogEntry) : string * string :=
  (Redis.button e, Redis.reasoning e).

(** [s] begins with [p]. *)
Definition starts_with (p s : string) : Prop := exists rest, s = p ++ rest.

(** The line that the legacy branch of [appendMemStash] puts on top. *)
Definition legacy_entry (w : World) (text : string) : string :=
  "[" ++ iso_time (clock w) ++ "] " ++ trim text.

(** A JSON response: status and body. *)
Record Response (A : Type) := { status : nat; body : A }.
Arguments status {A} r.
Arguments body {A} r.

(** [GET]: [{ content }], or status 500 with [{ content: '', error }]. *)
Definition GET (id : string) : M (Response string) :=
  try_catch
    (let* content := getMemStash id in
     ret {| status := 200; body := content |})
    (ret {| status := 500; body := "" |}).

(** [DELETE]: [{ success: true }], or status 500 with [{ success: false }]. *)
Definition DELETE (id : string) : M (Response bool) :=
  try_catch
    (clearMemStash id ;;;
     clearDecisionLog id ;;;
     ret {| status := 200; body := true |})
    (ret {| status := 500; body := false |}).

End MemStashRoute.

(* ===================================================================== *)
(** * Reading a fingerprint back *)
(* ===================================================================== *)

(** The inverse of [Number.prototype.toString(16)] on integers, as
    [parseInt(s, 16)] computes it on such a string. *)
Module FrameHashRead.
Import FrameHash.

Definition hex_val (c : ascii) : N :=
  let n := N_of_ascii c in
  if (n <? 58)%N then (n - 48)%N else (n - 87)%N.

Fixpoint parse_hex (acc : N) (s : string) : N :=
  match s with
  | EmptyString => acc
  | String c rest => parse_hex (16 * acc + hex_val c)%N rest
  end.

Definition parseInt16 (s : string) : Z :=
  match s with
  | String "-" rest => (- Z.of_N (parse_hex 0 rest))%Z
  | _ => Z.of_N (parse_hex 0 s)
  end.

(** The modulus of [int32] arithmetic. *)
Definition M32 : Z := (2 ^ 32)%Z.

End FrameHashRead.

(* ===================================================================== *)
(** * The decision step and the store together *)
(* ===================================================================== *)

Module StepsStore.
Import Redis MemStash Steps.

(** The keys of the other agents read the same in both worlds. *)
Definition others_untouched (agentId : string) (w w' : World) : Prop :=
  forall other, other <> agentId ->
    memstash w' !! other = memstash w !! other
    /\ decisionlog w' !! other = decisionlog w !! other.

(** The computation changes the keys of [agentId] at most. *)
Definition touches_only {A} (agentId : string) (m : M A) : Prop :=
  forall w, others_untouched agentId w (snd (m w)).

(** A reply whose first step has A and RIGHT tied at the top. *)
Definition tie_reply : RawReply :=
  {| reply_gameState := reply_gameState example_reply;
     reply_decision :=
       {| m_screenAnalysis := "Player center. Door on the right wall.";
          m_reasoning := "Either talk or walk.";
          m_personality_comment := Undefined;
          m_buttonSequence := [example_table 0.9 0.9];
          m_progressConfidence := 0.6;
          m_notes := Val (text_delta (Val "Find the exit") Undefined Undefined
                            Undefined Undefined) |};
     reply_usage := None |}.

(** The notes that a reply asks to merge, as the schema leaves them. *)
Definition reply_notes (parsed : ParsedReply) : StructuredNotes :=
  match m_notes (object_decision parsed) with
  | Val n => n
  | _ => emptyNotes
  end.

End StepsStore.

(* ===================================================================== *)
(** * Coordinator: what a run amounts to *)
(* ===================================================================== *)

Module AgentCardRun.
Import FrameHash AgentCard.

(** The decision of an iteration that went through: the frame was valid
    and the request came back. *)
Definition went_through (it : string * option Steps.AIDecision)
  : option Steps.AIDecision :=
  if isValidFrame (fst it) then snd it else None.

(** The buttons decided along a run, oldest first. *)
Definition decided (iterations : list (string * option Steps.AIDecision))
  : list GBAButton :=
  omap (fun it => Steps.button <$> went_through it) iterations.

(** The number of leading elements that satisfy [p]. *)
Fixpoint leading (p : GBAButton -> bool) (l : list GBAButton) : nat :=
  match l with
  | b :: rest => if p b then S (leading p rest) else 0
  | [] => 0
  end.

(** The length of the run of [p] at the end of the list. *)
Definition trailing (p : GBAButton -> bool) (l : list GBAButton) : nat :=
  leading p (rev l).

Definition is_start_select (b : GBAButton) : bool :=
  match b with Btn.START | Btn.SELECT => true | _ => false end.
Definition is_wait (b : GBAButton) : bool :=
  match b with Btn.WAIT => true | _ => false end.
Definition is_b (b : GBAButton) : bool :=
  match b with Btn.B => true | _ => false end.

(** The presses of [b] in the sequence of a decision. *)
Definition presses (b : GBAButton) (d : Steps.AIDecision) : nat :=
  List.length
    (List.filter (fun s => Btn.eqb (Steps.step_button s) b) (Steps.buttonSequence d)).

(** The presses of [b] along a run. *)
Definition total_presses (b : GBAButton)
  (iterations : list (string * option Steps.AIDecision)) : nat :=
  list_sum
    (map (fun it => match went_through it with
                    | Some d => presses b d
                    | None => 0
                    end) iterations).

(** The decision "press [b] [n] times in a row". *)
Definition press_times (b : GBAButton) (n : nat) : Steps.AIDecision :=
  {| Steps.button := b;
     Steps.reasoning := "keep going";
     Steps.screenAnalysis := Some "Player center.";
     Steps.confidence := 0.9;
     Steps.personality_comment := None;
     Steps.confidenceScores := set_score DEFAULT_CONFIDENCE_SCORES b 0.9;
     Steps.progressConfidence := 0.5;
     Steps.buttonSequence :=
       repeat {| Steps.step_button := b; Steps.step_confidence := 0.9 |} n;
     Steps.timestamp := 0;
     Steps.isFallback := false |}.

End AgentCardRun.

(* ===================================================================== *)
(** * Heuristic engine: stuck detection and navigation
      ([src/lib/game-knowledge.ts]) *)
(* ===================================================================== *)

Module GameKnowledge.
Import JsString.

Definition directions : list string := ["UP"; "DOWN"; "LEFT"; "RIGHT"].

Record StuckInfo := { isStuck : bool; stuckType : option string }.

Definition detectStuckState (consecutiveNoChange : nat) (lastActions : list string)
  : StuckInfo :=
  if (3 <=? consecutiveNoChange)%nat
  then
    let recentDirections :=
      List.filter (fun a => existsb (String.eqb a) directions) lastActions in
    let allSame :=
      forallb (fun d => String.eqb d (hd ""%string recentDirections))
        recentDirections in
    if (3 <=? List.length recentDirections)%nat && allSame
    then {| isStuck := true; stuckType := Some "wall_collision"%string |}
    else
      let recentA := List.filter (fun a => String.eqb a "A") lastActions in
      if (3 <=? List.length recentA)%nat
      then {| isStuck := true; stuckType := Some "dialogue_loop"%string |}
      else {| isStuck := true; stuckType := Some "unknown"%string |}
  else {| isStuck := false; stuckType := None |}.

Record NavigationReward := { reward : Q; isNew : bool }.

Definition calculateNavigationReward (newLocation : string)
  (visitedLocations : gset string) : NavigationReward :=
  if bool_decide (newLocation ∈ visitedLocations)
  then {| reward := 0; isNew := false |}
  else {| reward := 0.005; isNew := true |}.

End GameKnowledge.

(* ===================================================================== *)
(** * Server-side agent state ([src/lib/types/agent.ts]) *)
(* ===================================================================== *)

Module AgentTypes.

(** [ProgressMetrics].  Its two arrays, [completedMilestones] and
    [areasDiscovered], are left out: every metrics object holds the arrays
    of [DEFAULT_PROGRESS_METRICS] themselves, and nothing below reads
    them. *)
Record ProgressMetrics := {
  uniqueLocationsVisited : nat;
  locationsThisEpisode : gset string;
  totalHealingEvents : nat;
  totalPartyLevels : nat;
  levelThreshold : nat;
  consecutiveNoChangeCount : nat;
  lastEffectiveAction : option string
}.

(** [{ ...DEFAULT_PROGRESS_METRICS, locationsThisEpisode: new Set() }] *)
Definition DEFAULT_PROGRESS_METRICS : ProgressMetrics :=
  {| uniqueLocationsVisited := 0; locationsThisEpisode := ∅;
     totalHealingEvents := 0; totalPartyLevels := 5; levelThreshold := 22;
     consecutiveNoChangeCount := 0; lastEffectiveAction := None |}.

(** [GameState]: the fields that the decision step computes, and the
    progress metrics. *)
Record GameState := {
  observed : Steps.GameState;
  progressMetrics : ProgressMetrics
}.

Definition createInitialGameState : GameState :=
  {| observed := Steps.createInitialGameState;
     progressMetrics := DEFAULT_PROGRESS_METRICS |}.

Inductive Status := idle | thinking | acting | paused | error.

(** [AgentState] without [personality] (a constant of the agent) and
    without the sums of costs [totalCost] and [costPerBadge] (floating
    point). *)
Record AgentState := {
  id : string;
  modelId : string;
  status : Status;
  gameState : GameState;
  decisions : list Steps.AIDecision;
  lastDecision : option Steps.AIDecision;
  totalDecisions : Z;
  totalTokensIn : Z;
  totalTokensOut : Z;
  fallbackCount : Z;
  startedAt : option Z;
  lastUpdatedAt : option Z;
  badges : Q;
  badgeTimestamps : list Z
}.

Record ScreenTypeAnalysis := {
  screenType : Steps.ScreenType;
  briefDescription : string
}.

(** [GameLoopInput]: what the decision step is given to build its prompt. *)
Record GameLoopInput := {
  agentId : string;
  in_modelId : string;
  frame : string;
  previousFrames : option (list string);
  commandHistoryWithChanges : option string;
  previousConfidenceScores : option Scores;
  previousDialogHistory : option (list string);
  avoidStartSelect : option bool;
  avoidWait : option bool;
  avoidB : option bool;
  buttonsToAvoid : option (list string);
  bannedButtons : option (list string);
  notes : option string;
  previousState : option GameState;
  previousDecisions : option (list Steps.AIDecision);
  screenTypeAnalysis : option ScreenTypeAnalysis
}.

End AgentTypes.

(* ===================================================================== *)
(** * Decision step: the warnings of the prompt
      ([src/lib/workflows/game-loop/steps.ts]) *)
(* ===================================================================== *)

Module Prompt.
Import JsString AgentTypes.

(** Truthiness of an optional flag. *)
Definition flag (f : option bool) : bool :=
  match f with Some true => true | _ => false end.

(** [list && list.length > 0] *)
Definition nonempty (l : option (list string)) : bool :=
  match l with Some (_ :: _) => true | _ => false end.

Definition avoidStartSelectWarning (input : GameLoopInput) : string :=
  if flag (avoidStartSelect input)
  then nl ++ nl ++ "**WARNING: You have pressed START or SELECT more than 2 times in a row. DO NOT press START or SELECT again this turn. Try a different action like A, B, or a direction.**"
  else "".

Definition avoidWaitWarning (input : GameLoopInput) : string :=
  if flag (avoidWait input)
  then nl ++ nl ++ "**WARNING: You have used WAIT 3 times in a row. Something should be happening on screen. Press A to advance, or try a different action.**"
  else "".

Definition avoidBWarning (input : GameLoopInput) : string :=
  if flag (avoidB input)
  then nl ++ nl ++ "**WARNING: You have pressed B 5 times in a row. If you are trying to exit something, try pressing A instead, or move in a direction.**"
  else "".

Definition buttonsToAvoidWarning (input : GameLoopInput) : string :=
  if nonempty (buttonsToAvoid input)
  then nl ++ nl ++ "**SUGGESTION: These buttons had NO EFFECT recently and you should probably NOT press them: "
       ++ join ", " (default [] (buttonsToAvoid input))
       ++ ". Try a different action.**"
  else "".

Definition bannedButtonsWarning (input : GameLoopInput) : string :=
  if nonempty (bannedButtons input)
  then nl ++ nl ++ "**BANNED BUTTONS: You have pressed these buttons 10+ times: "
       ++ join ", " (default [] (bannedButtons input))
       ++ ". DO NOT press these buttons for the next 2 prompts. Try a completely different approach.**"
  else "".

Definition notesPrefix (input : GameLoopInput) : string :=
  match notes input with
  | Some n =>
      if truthy n then "## Your Notes" ++ nl ++ n ++ nl ++ nl ++ "---" ++ nl ++ nl
      else ""
  | None => ""
  end.

(** The part of the user prompt made of the notes and of the five
    warnings, in the order of the template. *)
Definition hints (input : GameLoopInput) : list string :=
  [notesPrefix input; avoidStartSelectWarning input; avoidWaitWarning input;
   avoidBWarning input; buttonsToAvoidWarning input; bannedButtonsWarning input].

End Prompt.

(* ===================================================================== *)
(** * One iteration of the game loop
      ([src/lib/workflows/game-loop/workflow.ts]) *)
(* ===================================================================== *)

Module Workflow.
Import JsString Redis MemStash AgentTypes GameKnowledge.
Local Open Scope js_scope.

(** What the screen-type call of the model comes to; [ScreenFailed] is an
    error, a time-out or a reply that the schema rejects. *)
Inductive ScreenOutcome :=
| ScreenFailed
| ScreenReply (t : Steps.ScreenType) (description : string)
    (u : option Steps.RawUsage).

Record ScreenTypeResult := {
  s_screenType : Steps.ScreenType;
  s_briefDescription : string;
  s_usage : Steps.Usage
}.

Definition analyzeScreenType (outcome : ScreenOutcome) : ScreenTypeResult :=
  match outcome with
  | ScreenReply t description u =>
      let get f := match u with
                   | Some r => Steps.orElse (f r) 0%Z
                   | None => 0%Z
                   end in
      {| s_screenType := t; s_briefDescription := description;
         s_usage := {| Steps.promptTokens := get Steps.u_promptTokens;
                       Steps.completionTokens := get Steps.u_completionTokens;
                       Steps.totalTokens := get Steps.u_totalTokens |} |}
  | ScreenFailed =>
      {| s_screenType := Steps.unknown;
         s_briefDescription := "Failed to analyze screen";
         s_usage := {| Steps.promptTokens := 100; Steps.completionTokens := 20;
                       Steps.totalTokens := 120 |} |}
  end.

(** The object that the route passes as [input]: the declared fields of
    [GameLoopWorkflowInput] and the further ones that the route puts in. *)
Record GameLoopWorkflowInput := {
  w_agentId : string;
  w_modelId : string;
  w_frame : string;
  w_previousFrames : option (list string);
  w_commandHistoryWithChanges : option string;
  w_previousConfidenceScores : option Scores;
  w_previousDialogHistory : option (list string);
  w_avoidStartSelect : option bool;
  w_avoidWait : option bool;
  w_avoidB : option bool;
  w_buttonsToAvoid : option (list string);
  w_bannedButtons : option (list string);
  w_notes : option string
}.

(** [Partial<AgentState>] as the iteration builds it; [badgeTimestamps] is
    set only when a badge was earned. *)
Record UpdatedAgentState := {
  u_status : Status;
  u_gameState : GameState;
  u_lastDecision : Steps.AIDecision;
  u_totalDecisions : Z;
  u_totalTokensIn : Z;
  u_totalTokensOut : Z;
  u_lastUpdatedAt : Z;
  u_badges : Q;
  u_badgeTimestamps : option (list Z)
}.

Record GameLoopWorkflowOutput := {
  decision : Steps.AIDecision;
  out_gameState : GameState;
  updatedAgentState : UpdatedAgentState
}.

Definition loopInput (input : GameLoopWorkflowInput)
  (currentState : option AgentState) (screenTypeResult : ScreenTypeResult)
  : GameLoopInput :=
  {| agentId := w_agentId input;
     in_modelId := w_modelId input;
     frame := w_frame input;
     previousFrames := w_previousFrames input;
     commandHistoryWithChanges := w_commandHistoryWithChanges input;
     previousConfidenceScores := w_previousConfidenceScores input;
     previousDialogHistory := w_previousDialogHistory input;
     avoidStartSelect := w_avoidStartSelect input;
     avoidWait := None;
     avoidB := None;
     buttonsToAvoid := None;
     bannedButtons := None;
     notes := None;
     previousState := gameState <$> currentState;
     previousDecisions := (fun cs => lastN 5 (decisions cs)) <$> currentState;
     screenTypeAnalysis :=
       Some {| screenType := s_screenType screenTypeResult;
               briefDescription := s_briefDescription screenTypeResult |} |}.

(** "Preserve currentArea - don't let it revert to Unknown once set" *)
Definition newArea (reported : string) (currentState : option AgentState) : string :=
  match currentState with
  | Some cs =>
      let previous := Steps.currentArea (observed (gameState cs)) in
      if String.eqb reported "Unknown" && truthy previous
         && negb (String.eqb previous "Unknown")
      then previous
      else reported
  | None => reported
  end.

Definition newMetrics (area : string) (currentState : option AgentState)
  : ProgressMetrics :=
  let prevMetrics :=
    match currentState with
    | Some cs => progressMetrics (gameState cs)
    | None => DEFAULT_PROGRESS_METRICS
    end in
  if negb (String.eqb area "Unknown")
  then
    let navResult := calculateNavigationReward area (locationsThisEpisode prevMetrics) in
    if isNew navResult
    then
      let locations := {[ area ]} ∪ locationsThisEpisode prevMetrics in
      {| uniqueLocationsVisited := size locations;
         locationsThisEpisode := locations;
         totalHealingEvents := totalHealingEvents prevMetrics;
         totalPartyLevels := totalPartyLevels prevMetrics;
         levelThreshold := levelThreshold prevMetrics;
         consecutiveNoChangeCount := consecutiveNoChangeCount prevMetrics;
         lastEffectiveAction := lastEffectiveAction prevMetrics |}
    else prevMetrics
  else prevMetrics.

(** [detectStuckState(newMetrics.consecutiveNoChangeCount, recentActions)];
    the iteration computes it and does not use it. *)
Definition stuckInfo (metrics : ProgressMetrics) (currentState : option AgentState)
  : StuckInfo :=
  let recentActions :=
    match currentState with
    | Some cs => map (fun d => Btn.name (Steps.button d)) (lastN 5 (decisions cs))
    | None => []
    end in
  detectStuckState (consecutiveNoChangeCount metrics) recentActions.

(** The iteration after its two calls of the model: [result] is what the
    decision step returned and [date] the clock. *)
Definition iterate (input : GameLoopWorkflowInput)
  (currentState : option AgentState) (screenTypeResult : ScreenTypeResult)
  (result : Steps.GameLoopOutput) (date : Z) : GameLoopWorkflowOutput :=
  let totalPromptTokens :=
    (Steps.promptTokens (s_usage screenTypeResult)
     + Steps.promptTokens (Steps.usage result))%Z in
  let totalCompletionTokens :=
    (Steps.completionTokens (s_usage screenTypeResult)
     + Steps.completionTokens (Steps.usage result))%Z in
  let previousBadges :=
    match currentState with Some cs => badges cs | None => 0%Q end in
  let newBadges := Steps.badges (Steps.gameState result) in
  let badgeEarned := Steps.Qgtb newBadges previousBadges in
  let area := newArea (Steps.currentArea (Steps.gameState result)) currentState in
  let metrics := newMetrics area currentState in
  let _ := stuckInfo metrics currentState in
  let rg := Steps.gameState result in
  let preservedGameState :=
    {| observed :=
         {| Steps.currentArea := area;
            Steps.inBattle := Steps.inBattle rg;
            Steps.inMenu := Steps.inMenu rg;
            Steps.inDialogue := Steps.inDialogue rg;
            Steps.inTextEntry := Steps.inTextEntry rg;
            Steps.pokemonCount := Steps.pokemonCount rg;
            Steps.totalPartyHP := Steps.totalPartyHP rg;
            Steps.badges := Steps.badges rg;
            Steps.screenType := Steps.screenType rg |};
       progressMetrics := metrics |} in
  let get {A} (f : AgentState -> A) (d : A) :=
    match currentState with Some cs => f cs | None => d end in
  {| decision := Steps.decision result;
     out_gameState := preservedGameState;
     updatedAgentState :=
       {| u_status := acting;
          u_gameState := preservedGameState;
          u_lastDecision := Steps.decision result;
          u_totalDecisions := (get totalDecisions 0 + 1)%Z;
          u_totalTokensIn := (get totalTokensIn 0 + totalPromptTokens)%Z;
          u_totalTokensOut := (get totalTokensOut 0 + totalCompletionTokens)%Z;
          u_lastUpdatedAt := date;
          u_badges := newBadges;
          u_badgeTimestamps :=
            match currentState with
            | Some cs =>
                if badgeEarned then Some (badgeTimestamps cs ++ [date])%list
                else None
            | None => None
            end |} |}.

Definition gameLoopIteration (input : GameLoopWorkflowInput)
  (currentState : option AgentState) (screen : ScreenOutcome)
  (outcome : Steps.ModelOutcome) : M GameLoopWorkflowOutput :=
  let screenTypeResult := analyzeScreenType screen in
  let loopInput := loopInput input currentState screenTypeResult in
  let* result := Steps.analyzeFrameAndDecide (agentId loopInput) outcome in
  let* date := now in
  ret (iterate input currentState screenTypeResult result date).

Definition initializeAgentState (agentId modelId : string) : AgentState :=
  {| id := agentId; modelId := modelId; status := idle;
     gameState := createInitialGameState;
     decisions := []; lastDecision := None;
     totalDecisions := 0; totalTokensIn := 0; totalTokensOut := 0;
     fallbackCount := 0; startedAt := None; lastUpdatedAt := None;
     badges := 0; badgeTimestamps := [] |}.

End Workflow.

(* ===================================================================== *)
(** * The route of the decisions ([src/app/api/agent/decide/route.ts]) *)
(* ===================================================================== *)

Module DecideRoute.
Import JsString Redis MemStash AgentTypes Workflow.
Local Open Scope js_scope.

(** The JSON body of a request; [None] is a member that is absent. *)
Record DecideBody := {
  b_agentId : option string;
  b_modelId : option string;
  b_frame : option string;
  b_previousFrames : option (list string);
  b_commandHistoryWithChanges : option string;
  b_previousConfidenceScores : option Scores;
  b_previousDialogHistory : option (list string);
  b_avoidStartSelect : option bool;
  b_avoidWait : option bool;
  b_avoidB : option bool;
  b_buttonsToAvoid : option (list string);
  b_bannedButtons : option (list string)
}.

Inductive DecideResponse :=
| BadRequest
| ServerError
| Decided (decision : Steps.AIDecision) (gameState : GameState)
    (totalDecisions totalTokensIn totalTokensOut : Z).

(** [`${agentId}`] in the key of the notes. *)
Definition template (s : option string) : string := default "undefined"%string s.

Definition truthy_member (s : option string) : bool :=
  match s with Some v => truthy v | None => false end.

(** [{ ...currentState, ...result.updatedAgentState, decisions: ... }] *)
Definition updatedState (currentState : AgentState)
  (result : GameLoopWorkflowOutput) : AgentState :=
  let u := updatedAgentState result in
  {| id := id currentState;
     modelId := modelId currentState;
     status := u_status u;
     gameState := u_gameState u;
     decisions := lastN 100 (decisions currentState ++ [decision result])%list;
     lastDecision := Some (u_lastDecision u);
     totalDecisions := u_totalDecisions u;
     totalTokensIn := u_totalTokensIn u;
     totalTokensOut := u_totalTokensOut u;
     fallbackCount := fallbackCount currentState;
     startedAt := startedAt currentState;
     lastUpdatedAt := Some (u_lastUpdatedAt u);
     badges := u_badges u;
     badgeTimestamps :=
       match u_badgeTimestamps u with
       | Some l => l
       | None => badgeTimestamps currentState
       end |}.

Definition with_status (s : Status) (st : AgentState) : AgentState :=
  {| id := id st; modelId := modelId st; status := s; gameState := gameState st;
     decisions := decisions st; lastDecision := lastDecision st;
     totalDecisions := totalDecisions st; totalTokensIn := totalTokensIn st;
     totalTokensOut := totalTokensOut st; fallbackCount := fallbackCount st;
     startedAt := startedAt st; lastUpdatedAt := lastUpdatedAt st;
     badges := badges st; badgeTimestamps := badgeTimestamps st |}.

Definition with_startedAt (d : Z) (st : AgentState) : AgentState :=
  {| id := id st; modelId := modelId st; status := status st;
     gameState := gameState st;
     decisions := decisions st; lastDecision := lastDecision st;
     totalDecisions := totalDecisions st; totalTokensIn := totalTokensIn st;
     totalTokensOut := totalTokensOut st; fallbackCount := fallbackCount st;
     startedAt := Some d; lastUpdatedAt := lastUpdatedAt st;
     badges := badges st; badgeTimestamps := badgeTimestamps st |}.

(** The object that [POST] passes to [gameLoopIteration]. *)
Definition workflowInput (agentId modelId frame : string) (body : DecideBody)
  (notes : string) : GameLoopWorkflowInput :=
  {| w_agentId := agentId; w_modelId := modelId; w_frame := frame;
     w_previousFrames := b_previousFrames body;
     w_commandHistoryWithChanges := b_commandHistoryWithChanges body;
     w_previousConfidenceScores := b_previousConfidenceScores body;
     w_previousDialogHistory := b_previousDialogHistory body;
     w_avoidStartSelect := b_avoidStartSelect body;
     w_avoidWait := b_avoidWait body;
     w_avoidB := b_avoidB body;
     w_buttonsToAvoid := b_buttonsToAvoid body;
     w_bannedButtons := b_bannedButtons body;
     w_notes := Some notes |}.

(** [POST]: [request] is the body when it is JSON ([None]: [request.json()]
    throws); [agentStates] is the map of the module. *)
Definition POST (request : option DecideBody) (screen : ScreenOutcome)
  (outcome : Steps.ModelOutcome) (agentStates : gmap string AgentState)
  : M (DecideResponse * gmap string AgentState) :=
  try_catch
    (match request with
     | None => throw
     | Some body =>
         let* notes := getMemStashForPrompt (template (b_agentId body)) in
         match b_agentId body, b_modelId body, b_frame body with
         | Some agentId, Some modelId, Some frame =>
             if truthy agentId && truthy modelId && truthy frame
             then
               let* currentState :=
                 match agentStates !! agentId with
                 | Some s => ret s
                 | None =>
                     let* started := now in
                     ret (with_startedAt started (initializeAgentState agentId modelId))
                 end in
               let currentState := with_status thinking currentState in
               let agentStates := <[agentId := currentState]> agentStates in
               let* result :=
                 gameLoopIteration (workflowInput agentId modelId frame body notes)
                   (Some currentState) screen outcome in
               let updated := updatedState currentState result in
               ret (Decided (decision result) (out_gameState result)
                      (totalDecisions updated) (totalTokensIn updated)
                      (totalTokensOut updated),
                    <[agentId := updated]> agentStates)
             else ret (BadRequest, agentStates)
         | _, _, _ => ret (BadRequest, agentStates)
         end
     end)
    (ret (ServerError, agentStates)).

(** A request as the server sees it: the body and what the two calls of
    the model come to. *)
Record Request := {
  body : option DecideBody;
  screen : ScreenOutcome;
  outcome : Steps.ModelOutcome
}.

(** The requests served one after the other. *)
Fixpoint serve (requests : list Request) (agentStates : gmap string AgentState)
  (w : World) : gmap string AgentState * World :=
  match requests with
  | [] => (agentStates, w)
  | r :: rest =>
      match POST (body r) (screen r) (outcome r) agentStates w with
      | (Ok (_, agentStates'), w') => serve rest agentStates' w'
      | (Thrown, w') => serve rest agentStates w'
      end
  end.

(** The body that the coordinator posts ([agent-card.tsx], the call of
    [fetch]): the heuristic part comes from the cells, the rest from the
    frame and the histories. *)
Definition coordinator_body (agentId modelId frame : string)
  (recentFrames : list string) (commandHistoryWithChanges : string)
  (dialogHistory : list string) (st : AgentCard.State) : DecideBody :=
  let req := AgentCard.request st in
  {| b_agentId := Some agentId; b_modelId := Some modelId; b_frame := Some frame;
     b_previousFrames := Some (lastN 2 recentFrames);
     b_commandHistoryWithChanges := Some commandHistoryWithChanges;
     b_previousConfidenceScores := Some (AgentCard.previousConfidenceScores req);
     b_previousDialogHistory := Some dialogHistory;
     b_avoidStartSelect := Some (AgentCard.avoidStartSelect req);
     b_avoidWait := Some (AgentCard.avoidWait req);
     b_avoidB := Some (AgentCard.avoidB req);
     b_buttonsToAvoid := Some (map Btn.name (AgentCard.req_buttonsToAvoid req));
     b_bannedButtons := Some (map Btn.name (AgentCard.req_bannedButtons req)) |}.

End DecideRoute.

(* ===================================================================== *)
(** * The route of the decisions: requests and what they leave *)
(* ===================================================================== *)

Module DecideRun.
Import JsString Redis MemStash AgentTypes Workflow DecideRoute.

(** The body names the agent, the model and the frame, none of them
    empty: the request passes the check of the route. *)
Definition valid_body (body : DecideBody) (agentId modelId frame : string) : Prop :=
  b_agentId body = Some agentId /\ b_modelId body = Some modelId
  /\ b_frame body = Some frame
  /\ agentId <> ""%string /\ modelId <> ""%string /\ frame <> ""%string.


(** The stored area is the name of a place. *)
Definition area_known (st : AgentState) : Prop :=
  Steps.currentArea (observed (gameState st)) <> ""%string
  /\ Steps.currentArea (observed (gameState st)) <> "Unknown"%string.

(** The reply of the model, if any, does not name the area by the empty
    string. *)
Definition reports_no_empty_area (r : Request) : Prop :=
  match outcome r with
  | Steps.Reply raw =>
      Steps.raw_currentArea (Steps.reply_gameState raw) <> Some ""%string
  | _ => True
  end.

(** The metrics hold the places seen and nothing else. *)
Definition only_places_tracked (st : AgentState) : Prop :=
  let m := progressMetrics (gameState st) in
  uniqueLocationsVisited m = size (locationsThisEpisode m)
  /\ ("Unknown"%string ∉ locationsThisEpisode m)
  /\ (Steps.currentArea (observed (gameState st)) <> "Unknown"%string ->
      (Steps.currentArea (observed (gameState st)) ∈ locationsThisEpisode m))
  /\ totalHealingEvents m = 0%nat /\ totalPartyLevels m = 5%nat
  /\ levelThreshold m = 22%nat /\ consecutiveNoChangeCount m = 0%nat
  /\ lastEffectiveAction m = None.

Definition example_body : DecideBody :=
  {| b_agentId := Some "agent-1"%string;
     b_modelId := Some "openai/gpt-4o"%string;
     b_frame := Some "data:image/png;base64,iVBORw0KGgo"%string;
     b_previousFrames := None;
     b_commandHistoryWithChanges := None;
     b_previousConfidenceScores := None;
     b_previousDialogHistory := None;
     b_avoidStartSelect := Some false;
     b_avoidWait := Some true;
     b_avoidB := Some false;
     b_buttonsToAvoid := Some ["UP"%string];
     b_bannedButtons := Some ["A"%string] |}.

(** A reply like [example_reply] that reports [badges] badges. *)
Definition badge_reply (badges : Q) : Steps.RawReply :=
  {| Steps.reply_gameState :=
       {| Steps.raw_currentArea := Some "Pewter City"%string;
          Steps.raw_inBattle := None; Steps.raw_inMenu := None;
          Steps.raw_inDialogue := None; Steps.raw_inTextEntry := None;
          Steps.raw_pokemonCount := None; Steps.raw_badges := Some badges;
          Steps.raw_screenType := Some Steps.overworld;
          Steps.raw_estimatedPartyHP := None |};
     Steps.reply_decision := Steps.reply_decision Steps.example_reply;
     Steps.reply_usage := None |}.

(** An agent in Pallet Town with one badge. *)
Definition example_state : AgentState :=
  {| id := "agent-1"; modelId := "openai/gpt-4o"; status := acting;
     gameState :=
       {| observed :=
            {| Steps.currentArea := "Pallet Town"; Steps.inBattle := false;
               Steps.inMenu := false; Steps.inDialogue := false;
               Steps.inTextEntry := false; Steps.pokemonCount := 1;
               Steps.totalPartyHP := 100; Steps.badges := 1;
               Steps.screenType := Steps.overworld |};
          progressMetrics :=
            {| uniqueLocationsVisited := 1;
               locationsThisEpisode := {[ "Pallet Town"%string ]};
               totalHealingEvents := 0; totalPartyLevels := 5;
               levelThreshold := 22; consecutiveNoChangeCount := 0;
               lastEffectiveAction := None |} |};
     decisions := []; lastDecision := None;
     totalDecisions := 7; totalTokensIn := 9000; totalTokensOut := 700;
     fallbackCount := 0; startedAt := Some 0%Z; lastUpdatedAt := Some 0%Z;
     badges := 1; badgeTimestamps := [0%Z] |}.

Definition example_states : gmap string AgentState :=
  {[ "agent-1"%string := example_state ]}.

(** A request whose two calls of the model fail. *)
Definition failing_request : Request :=
  {| body := Some example_body; screen := ScreenFailed; outcome := Steps.Timeout |}.

End DecideRun.

(* ===================================================================== *)
(** * In-memory store used when Redis is not configured
      ([src/unnamed/part_010]) *)
(* ===================================================================== *)

Module MemoryStore.

Section Store.
Context {V : Type}.

(** [{ value: unknown; expires?: number }] *)
Record Entry := { value : V; expires : option Z }.

(** [memoryStore] is a [Map] from the keys to the entries. *)
#[local] Abbreviation Store := (gmap string Entry).

(** [entry.expires && entry.expires < now], with integer times. *)
Definition lapsed (now : Z) (entry : Entry) : bool :=
  match expires entry with
  | Some t => negb (t =? 0)%Z && (t <? now)%Z
  | None => false
  end.

(** [cleanExpired()], [now] being what [Date.now()] returns. *)
Definition cleanExpired (now : Z) (memoryStore : Store) : Store :=
  filter (fun kv => lapsed now kv.2 = false) memoryStore.

(** [get(key)]; [now1] and [now2] are the two readings of the clock, the
    one of [cleanExpired] and the one of the check of the entry. *)
Definition get (now1 now2 : Z) (key : string) (memoryStore : Store)
  : option V * Store :=
  let memoryStore := cleanExpired now1 memoryStore in
  match memoryStore !! key with
  | None => (None, memoryStore)
  | Some entry =>
      if lapsed now2 entry then (None, delete key memoryStore)
      else (Some (value entry), memoryStore)
  end.

(** [set(key, value, options)]; [ex] is [options?.ex]. *)
Definition set (now : Z) (key : string) (v : V) (ex : option Z)
  (memoryStore : Store) : Store :=
  let expires :=
    match ex with
    | Some e => if (e =? 0)%Z then None else Some (now + e * 1000)%Z
    | None => None
    end in
  <[key := {| value := v; expires := expires |}]> memoryStore.

(** [del(...keys)]: the number of keys that were in the map. *)
Fixpoint del (keys : list string) (memoryStore : Store) : nat * Store :=
  match keys with
  | [] => (0%nat, memoryStore)
  | key :: rest =>
      let present := bool_decide (is_Some (memoryStore !! key)) in
      let (count, memoryStore') := del rest (delete key memoryStore) in
      ((if present then 1 else 0) + count, memoryStore')%nat
  end.

(** [expire(key, seconds)] *)
Definition expire (now : Z) (key : string) (seconds : Z) (memoryStore : Store)
  : nat * Store :=
  match memoryStore !! key with
  | Some entry =>
      (1%nat,
       <[key := {| value := value entry;
                   expires := Some (now + seconds * 1000)%Z |}]> memoryStore)
  | None => (0%nat, memoryStore)
  end.

End Store.

Arguments Entry V : clear implicits.

End MemoryStore.

(* ===================================================================== *)
(** * Heuristic engine: summary of the command history
      ([src/lib/game-knowledge.ts]) *)
(* ===================================================================== *)

Module CommandHistory.
Import JsString.

Fixpoint decimal_digits (fuel n : nat) (acc : string) : string :=
  match fuel with
  | O => acc
  | S fuel' =>
      let acc' := String (ascii_of_nat (48 + n mod 10)) acc in
      if (n / 10 =? 0)%nat then acc' else decimal_digits fuel' (n / 10) acc'
  end.

(** [`${count}`] for a count. *)
Definition decimal (n : nat) : string := decimal_digits (S n) n "".

(** [count > 1 ? `${currentButton}x${count}` : currentButton] *)
Definition render (currentButton : string) (count : nat) : string :=
  if (1 <? count)%nat then currentButton ++ "x" ++ decimal count
  else currentButton.

(** [arr.slice(-maxCount)]: the whole array when [maxCount] is 0. *)
Definition slice_last {A} (maxCount : nat) (l : list A) : list A :=
  if (maxCount =? 0)%nat then l else lastN maxCount l.

(** The body of the loop, on [(grouped, currentButton, count)]. *)
Definition group (acc : list string * string * nat) (button : string)
  : list string * string * nat :=
  let '(grouped, currentButton, count) := acc in
  if String.eqb button currentButton then (grouped, currentButton, S count)
  else ((if truthy currentButton
         then (grouped ++ [render currentButton count])%list
         else grouped),
        button, 1%nat).

(** [formatCommandHistory(decisions, maxCount)]; of a decision only the
    button is read. *)
Definition formatCommandHistory (decisions : list string) (maxCount : nat)
  : string :=
  let recent := slice_last maxCount decisions in
  if (List.length recent =? 0)%nat then "No previous commands"
  else
    let '(grouped, currentButton, count) :=
      fold_left group recent ([], ""%string, 0%nat) in
    let grouped :=
      if truthy currentButton
      then (grouped ++ [render currentButton count])%list
      else grouped in
    join " -> " grouped.

(** The presses that a list of runs [(button, count)] stands for. *)
Definition expand (runs : list (string * nat)) : list string :=
  flat_map (fun g => repeat (fst g) (snd g)) runs.

(** Consecutive runs are of different buttons. *)
Fixpoint alternating (runs : list (string * nat)) : Prop :=
  match runs with
  | g1 :: rest =>
      match rest with
      | g2 :: _ => fst g1 <> fst g2 /\ alternating rest
      | [] => True
      end
  | [] => True
  end.

End CommandHistory.

(* ===================================================================== *)
(** * Coordinator: the histories sent with a prompt
      ([src/components/agent/agent-card.tsx]) *)
(* ===================================================================== *)

Module AgentCardHistory.
Import JsString FrameHash AgentCard.

(** [FrameHistoryEntry] without its timestamp, which nothing reads. *)
Record FrameHistoryEntry := {
  fh_button : GBAButton;
  fh_reasoning : string;
  fh_frameHash : string;
  fh_visualChange : VisualChange
}.

(** The state cells [frameHistory], [recentFrames], [dialogHistory] and
    the [decisions] of [agentState]. *)
Record History := {
  frameHistory : list FrameHistoryEntry;
  recentFrames : list string;
  dialogHistory : list string;
  decisions : list Steps.AIDecision
}.

Definition empty : History :=
  {| frameHistory := []; recentFrames := []; dialogHistory := [];
     decisions := [] |}.

(** [data.decision.personality_comment || ''] *)
Definition comment_of (d : Steps.AIDecision) : string :=
  default ""%string (Steps.personality_comment d).

(** [comment && comment.trim()] *)
Definition worth_keeping (comment : string) : bool :=
  truthy comment && truthy (trim comment).

Definition entry_of (st : State) (frame : string) (d : Steps.AIDecision)
  : FrameHistoryEntry :=
  {| fh_button := Steps.button d;
     fh_reasoning := slice0 200 (Steps.reasoning d);
     fh_frameHash := simpleFrameHash frame;
     fh_visualChange :=
       visualChange (lastFrameHash st) (simpleFrameHash frame) |}.

(** What [processFrame] does to the histories; [st] holds the cells of
    the heuristics before the iteration.  A valid frame is remembered even
    when no decision comes back. *)
Definition remember (st : State) (h : History) (frame : string)
  (response : option Steps.AIDecision) : History :=
  if negb (isValidFrame frame) then h
  else
    let frames := (lastN 1 (recentFrames h) ++ [frame])%list in
    match response with
    | None =>
        {| frameHistory := frameHistory h; recentFrames := frames;
           dialogHistory := dialogHistory h; decisions := decisions h |}
    | Some d =>
        let comment := comment_of d in
        {| frameHistory := (lastN 24 (frameHistory h) ++ [entry_of st frame d])%list;
           recentFrames := frames;
           dialogHistory :=
             if worth_keeping comment
             then (lastN 9 (dialogHistory h) ++ [comment])%list
             else dialogHistory h;
           decisions := lastN 25 (decisions h ++ [d])%list |}
    end.

(** The cells and the histories along a run. *)
Fixpoint run_with_history (st : State) (h : History)
  (iterations : list (string * option Steps.AIDecision)) : State * History :=
  match iterations with
  | [] => (st, h)
  | it :: rest =>
      run_with_history (processFrame st (fst it) (snd it))
        (remember st h (fst it) (snd it)) rest
  end.

(** Everything that a run would remember without the windows. *)
Fixpoint all_entries (st : State)
  (iterations : list (string * option Steps.AIDecision)) : list FrameHistoryEntry :=
  match iterations with
  | [] => []
  | it :: rest =>
      (if isValidFrame (fst it)
       then match snd it with
            | Some d => [entry_of st (fst it) d]
            | None => []
            end
       else [])
      ++ all_entries (processFrame st (fst it) (snd it)) rest
  end.

Definition all_frames (iterations : list (string * option Steps.AIDecision))
  : list string :=
  List.filter isValidFrame (map fst iterations).

Definition all_decisions (iterations : list (string * option Steps.AIDecision))
  : list Steps.AIDecision :=
  omap AgentCardRun.went_through iterations.

Definition all_comments (iterations : list (string * option Steps.AIDecision))
  : list string :=
  List.filter worth_keeping (map comment_of (all_decisions iterations)).

End AgentCardHistory.

(* ===================================================================== *)
(** * Properties of the frame fingerprint *)
(* ===================================================================== *)

Module FrameHashSpec.
Import JsString FrameHash.

Lemma get_none_iff (s : string) (i : nat) :
  String.get i s = None <-> String.length s <= i.
Proof.
  revert i; induction s as [|c s IH]; intros i; simpl.
  - split; [lia | reflexivity].
  - destruct i as [|i]; simpl.
    + split; [discriminate | lia].
    + rewrite IH. lia.
Qed.

Lemma charCodeAt_none_iff (s : string) (i : nat) :
  charCodeAt s i = None <-> String.length s <= i.
Proof.
  unfold charCodeAt. rewrite <- get_none_iff.
  destruct (String.get i s); split; congruence.
Qed.

Lemma in_range_agree (p1 p2 : string) (i : nat) :
  charCodeAt p1 i = charCodeAt p2 i ->
  (i <? String.length p1)%nat = (i <? String.length p2)%nat.
Proof.
  intros E.
  destruct (Nat.ltb_spec i (String.length p1)) as [H1|H1];
    destruct (Nat.ltb_spec i (String.length p2)) as [H2|H2]; try reflexivity.
  - apply charCodeAt_none_iff in H2. rewrite <- E in H2.
    apply charCodeAt_none_iff in H2. lia.
  - apply charCodeAt_none_iff in H1. rewrite E in H1.
    apply charCodeAt_none_iff in H1. lia.
Qed.

(** The bound on the turns is never the reason the loop stops: any two
    bounds above the number of samples left give the same hash. *)
Lemma hash_loop_enough_fuel (fuel1 fuel2 : nat) (s : string) (i : nat) (h : Z) :
  String.length s < i + fuel1 -> String.length s < i + fuel2 ->
  hash_loop fuel1 s i h = hash_loop fuel2 s i h.
Proof.
  revert fuel2 i h.
  induction fuel1 as [|fuel1 IH]; intros fuel2 i h H1 H2.
  - destruct fuel2 as [|fuel2]; simpl; [reflexivity|].
    destruct (Nat.ltb_spec i (String.length s)); [lia | reflexivity].
  - destruct fuel2 as [|fuel2]; simpl.
    + destruct (Nat.ltb_spec i (String.length s)); [lia | reflexivity].
    + destruct (Nat.ltb_spec i (String.length s)); [|reflexivity].
      apply IH; unfold stride; lia.
Qed.

Lemma hash_loop_agree (p1 p2 : string) :
  agree_at_samples p1 p2 ->
  forall fuel k h,
    hash_loop fuel p1 (k * stride) h = hash_loop fuel p2 (k * stride) h.
Proof.
  intros Hagree fuel.
  induction fuel as [|fuel IH]; intros k h; simpl; [reflexivity|].
  rewrite (in_range_agree p1 p2 _ (Hagree k)), (Hagree k).
  destruct (_ <? _)%nat; [|reflexivity].
  replace (k * stride + stride) with (S k * stride) by lia.
  apply IH.
Qed.

Lemma frame_hash_int_agree (f1 f2 : string) :
  agree_at_samples (payload f1) (payload f2) ->
  frame_hash_int f1 = frame_hash_int f2.
Proof.
  intros Hagree. unfold frame_hash_int.
  set (p1 := payload f1) in *. set (p2 := payload f2) in *.
  rewrite (hash_loop_enough_fuel _ (S (String.length p1 + String.length p2)) p1)
    by lia.
  rewrite (hash_loop_enough_fuel (S (String.length p2))
             (S (String.length p1 + String.length p2)) p2) by lia.
  apply (hash_loop_agree p1 p2 Hagree _ 0).
Qed.

Lemma visualChange_same (h : string) : visualChange (Some h) h = no_change.
Proof. simpl. rewrite String.eqb_refl. reflexivity. Qed.

(** The fingerprint kept by an iteration that went through is the one of
    its frame. *)
Lemma processFrame_keeps_fingerprint
  (st : AgentCard.State) (frame : string) (d : Steps.AIDecision) :
  AgentCard.isValidFrame frame = true ->
  AgentCard.lastFrameHash (AgentCard.processFrame st frame (Some d))
  = Some (simpleFrameHash frame).
Proof.
  intros Hvalid. unfold AgentCard.processFrame. rewrite Hvalid.
  simpl negb. cbv iota zeta.
  destruct (AgentCard.track_no_change _ st _) as [[s c] a].
  destruct (fold_left AgentCard.press _ _) as [pc bn].
  destruct (Steps.button d); reflexivity.
Qed.

(** C6. Two frames whose base64 payloads agree at every sampled position
    (stride 1000) have the same fingerprint; and a frame whose fingerprint
    equals the one of the frame before it is classified [no_change], in
    the classification itself and in the coordinator, where the frame
    before is the one of the last iteration that went through. *)
Theorem fingerprint_of_sampled_positions (f1 f2 : string) :
  agree_at_samples (payload f1) (payload f2) ->
  simpleFrameHash f1 = simpleFrameHash f2
  /\ (forall prev cur : string,
        simpleFrameHash prev = simpleFrameHash cur ->
        visualChange (Some (simpleFrameHash prev)) (simpleFrameHash cur)
        = no_change)
  /\ (forall st prev cur d,
        AgentCard.isValidFrame prev = true ->
        simpleFrameHash prev = simpleFrameHash cur ->
        visualChange
          (AgentCard.lastFrameHash (AgentCard.processFrame st prev (Some d)))
          (simpleFrameHash cur)
        = no_change).
Proof.
  intros Hagree. split; [|split].
  - unfold simpleFrameHash. f_equal. apply frame_hash_int_agree, Hagree.
  - intros prev cur E. rewrite E. apply visualChange_same.
  - intros st prev cur d Hvalid E.
    rewrite processFrame_keeps_fingerprint by exact Hvalid.
    rewrite E. apply visualChange_same.
Qed.

(** Two frames that differ only off the sampled positions. *)
Lemma fingerprint_of_sampled_positions_witness :
  simpleFrameHash "data:image/png;base64,iVBORw0KGgo"
  = simpleFrameHash "data:image/png;base64,iXYZ".
Proof.
  apply (fingerprint_of_sampled_positions
           "data:image/png;base64,iVBORw0KGgo" "data:image/png;base64,iXYZ").
  intros [|k]; reflexivity.
Defined.

End FrameHashSpec.

(* ===================================================================== *)
(** * Properties of the memory store *)
(* ===================================================================== *)

Module MemStashSpec.
Import JsString Redis MemStash.
Local Open Scope js_scope.

Lemma try_catch_ret_never_throws {A} (body : M A) (a : A) :
  never_throws (try_catch body (ret a)).
Proof.
  intros w. unfold try_catch, ret.
  destruct (body w) as [[x|] w']; eauto.
Qed.

Lemma bind_never_throws {A B} (m : M A) (k : A -> M B) :
  never_throws m -> (forall a, never_throws (k a)) -> never_throws (bind m k).
Proof.
  intros Hm Hk w. unfold bind.
  destruct (Hm w) as (a & w' & ->). apply Hk.
Qed.

Lemma ret_never_throws {A} (a : A) : never_throws (ret a).
Proof. intros w. unfold ret. eauto. Qed.

Lemma getStructuredNotes_never_throws agentId :
  never_throws (getStructuredNotes agentId).
Proof. apply try_catch_ret_never_throws. Qed.

Lemma mergeStructuredNotes_never_throws agentId newNotes :
  never_throws (mergeStructuredNotes agentId newNotes).
Proof.
  unfold mergeStructuredNotes. destruct (_ =? _)%nat.
  - apply ret_never_throws.
  - apply try_catch_ret_never_throws.
Qed.

Lemma appendMemStash_never_throws agentId content :
  never_throws (appendMemStash agentId content).
Proof.
  destruct content as [text|notes]; simpl.
  - destruct (_ || _).
    + apply ret_never_throws.
    + apply try_catch_ret_never_throws.
  - apply mergeStructuredNotes_never_throws.
Qed.

Lemma appendDecisionLog_never_throws agentId button reasoning :
  never_throws (appendDecisionLog agentId button reasoning).
Proof. apply try_catch_ret_never_throws. Qed.

Lemma getMemStashForPrompt_never_throws agentId :
  never_throws (getMemStashForPrompt agentId).
Proof.
  apply bind_never_throws.
  - apply try_catch_ret_never_throws.
  - intros a. apply ret_never_throws.
Qed.

(** What a read gives when the backend fails. *)
Lemma getStructuredNotes_failing agentId w fs :
  getStructuredNotes agentId (with_faults (true :: fs) w)
  = (Ok emptyNotes, with_faults fs w).
Proof. reflexivity. Qed.

Lemma getMemStash_failing agentId w fs :
  getMemStash agentId (with_faults (true :: fs) w) = (Ok "", with_faults fs w).
Proof. reflexivity. Qed.

Lemma getMemStashForPrompt_failing agentId w fs :
  getMemStashForPrompt agentId (with_faults (true :: fs) w)
  = (Ok "", with_faults fs w).
Proof. reflexivity. Qed.

Lemma getDecisionLog_failing agentId w fs :
  getDecisionLog agentId (with_faults (true :: fs) w) = (Ok [], with_faults fs w).
Proof. reflexivity. Qed.

Lemma call_same_store_get {A} (f : World -> A) w :
  same_store w (snd (call (fun w => (f w, w)) w)).
Proof.
  unfold call. destruct (faults w) as [|[] fs]; simpl; split; reflexivity.
Qed.

Lemma getStructuredNotes_same_store agentId w :
  same_store w (snd (getStructuredNotes agentId w)).
Proof.
  unfold getStructuredNotes, try_catch, bind, get_memstash, call, ret.
  destruct (faults w) as [|[] fs]; simpl; try (split; reflexivity).
  - destruct (memstash w !! agentId) as [[n|s]|]; simpl; try (split; reflexivity).
    destruct (truthy s); split; reflexivity.
  - destruct (memstash w !! agentId) as [[n|s]|]; simpl; try (split; reflexivity).
    destruct (truthy s); split; reflexivity.
Qed.

Lemma mergeStructuredNotes_failing_write agentId newNotes w r fs :
  mergeStructuredNotes agentId newNotes (with_faults (r :: true :: fs) w)
  = (Ok tt, with_faults (if (key_count newNotes =? 0)%nat then r :: true :: fs else fs) w).
Proof.
  unfold mergeStructuredNotes. destruct (_ =? _)%nat; [reflexivity|].
  unfold getStructuredNotes, try_catch, bind, get_memstash, set_memstash, call, ret.
  destruct r; simpl; [reflexivity|].
  destruct (memstash w !! agentId) as [[n|s]|]; simpl; try reflexivity.
  destruct (truthy s); reflexivity.
Qed.

Lemma appendMemStash_failing_write agentId content w r fs :
  fst (appendMemStash agentId content (with_faults (r :: true :: fs) w)) = Ok tt
  /\ same_store w (snd (appendMemStash agentId content (with_faults (r :: true :: fs) w))).
Proof.
  destruct content as [text|notes]; simpl.
  - destruct (_ || _); [split; [reflexivity | split; reflexivity]|].
    unfold getStructuredNotes, try_catch, bind, get_memstash, set_memstash, call,
      ret, now.
    destruct r; simpl; [split; [reflexivity | split; reflexivity]|].
    destruct (memstash w !! agentId) as [[n|s]|]; simpl;
      try (split; [reflexivity | split; reflexivity]).
    destruct (truthy s); split; try reflexivity; split; reflexivity.
  - rewrite mergeStructuredNotes_failing_write. split; [reflexivity | split; reflexivity].
Qed.

Lemma appendDecisionLog_failing_write agentId button reasoning w r fs :
  appendDecisionLog agentId button reasoning (with_faults (r :: true :: fs) w)
  = (Ok 0%nat, with_faults fs w).
Proof.
  unfold appendDecisionLog, getDecisionLog, try_catch, bind, get_decisionlog,
    set_decisionlog, call, ret, now.
  destruct r; simpl; [reflexivity|].
  destruct (decisionlog w !! agentId); reflexivity.
Qed.

(** C10. No operation of the memory store throws, whatever the backend
    does: a read whose backend call fails gives the neutral value (the
    empty notes, the empty string, the empty log), an append whose write
    fails gives step 0, and a write or delete that fails leaves the stored
    notes and log as they were. *)
Theorem memory_store_absorbs_backend_failures (agentId : string) :
  (never_throws (getStructuredNotes agentId)
   /\ never_throws (getMemStash agentId)
   /\ never_throws (getMemStashForPrompt agentId)
   /\ never_throws (getDecisionLog agentId)
   /\ (forall newNotes, never_throws (mergeStructuredNotes agentId newNotes))
   /\ (forall content, never_throws (appendMemStash agentId content))
   /\ never_throws (clearMemStash agentId)
   /\ never_throws (clearDecisionLog agentId)
   /\ (forall button reasoning,
         never_throws (appendDecisionLog agentId button reasoning)))
  /\ (forall w fs,
        getStructuredNotes agentId (with_faults (true :: fs) w)
        = (Ok emptyNotes, with_faults fs w)
        /\ getMemStash agentId (with_faults (true :: fs) w)
           = (Ok "", with_faults fs w)
        /\ getMemStashForPrompt agentId (with_faults (true :: fs) w)
           = (Ok "", with_faults fs w)
        /\ getDecisionLog agentId (with_faults (true :: fs) w)
           = (Ok [], with_faults fs w)
        /\ clearMemStash agentId (with_faults (true :: fs) w)
           = (Ok tt, with_faults fs w)
        /\ clearDecisionLog agentId (with_faults (true :: fs) w)
           = (Ok tt, with_faults fs w))
  /\ (forall w r fs,
        (forall newNotes,
           same_store w
             (snd (mergeStructuredNotes agentId newNotes
                     (with_faults (r :: true :: fs) w))))
        /\ (forall content,
              same_store w
                (snd (appendMemStash agentId content
                        (with_faults (r :: true :: fs) w))))
        /\ (forall button reasoning,
              appendDecisionLog agentId button reasoning
                (with_faults (r :: true :: fs) w)
              = (Ok 0%nat, with_faults fs w))).
Proof.
  split; [|split].
  - repeat split; intros; try apply try_catch_ret_never_throws.
    + apply getMemStashForPrompt_never_throws.
    + apply mergeStructuredNotes_never_throws.
    + apply appendMemStash_never_throws.
  - intros w fs. repeat split; reflexivity.
  - intros w r fs. split; [|split].
    + intros newNotes. rewrite mergeStructuredNotes_failing_write.
      split; reflexivity.
    + intros content. apply appendMemStash_failing_write.
    + intros button reasoning. apply appendDecisionLog_failing_write.
Qed.


(** ** The decision log *)

Lemma length_lastN {A} (n : nat) (l : list A) :
  List.length (lastN n l) = Nat.min n (List.length l).
Proof. unfold lastN. rewrite List.length_skipn. lia. Qed.

(** With a backend that answers, an append numbers the entry by the length
    of the stored log plus one and keeps the last 500 entries. *)
Lemma appendDecisionLog_healthy agentId button reasoning w :
  faults w = [] ->
  appendDecisionLog agentId button reasoning w
  = (Ok (S (List.length (stored_log w agentId))),
     with_decisionlog
       (<[agentId :=
            lastN 500
              (stored_log w agentId
               ++ [ {| step := S (List.length (stored_log w agentId));
                       Redis.button := button; Redis.reasoning := reasoning;
                       timestamp := clock w |} ])]> (decisionlog w)) w).
Proof.
  intros Hf.
  unfold appendDecisionLog, getDecisionLog, try_catch, bind, get_decisionlog,
    set_decisionlog, call, ret, now, stored_log.
  rewrite Hf. simpl.
  destruct (decisionlog w !! agentId) as [l|]; simpl; rewrite Hf; simpl;
    rewrite ?Nat.add_1_r; reflexivity.
Qed.


(** Once the log holds 500 entries, every append gets the step number 501. *)
Lemma appendDecisionLog_plateau agentId button reasoning w :
  faults w = [] ->
  List.length (stored_log w agentId) = 500%nat ->
  exists w',
    appendDecisionLog agentId button reasoning w = (Ok 501%nat, w')
    /\ faults w' = []
    /\ List.length (stored_log w' agentId) = 500%nat.
Proof.
  intros Hf Hlen. rewrite appendDecisionLog_healthy by exact Hf.
  rewrite Hlen. eexists. split; [reflexivity|]. split; [exact Hf|].
  unfold stored_log at 1. simpl. rewrite lookup_insert_eq. simpl.
  rewrite length_lastN, List.length_app, Hlen. reflexivity.
Qed.

(** C7. The step numbers do not keep increasing: of 502 decisions logged in
    a run, decisions 501 and 502 are both given the step number 501, and
    the stored log, cut to its last 500 entries, ends with two entries
    numbered 501. *)
Theorem decision_log_step_number_repeats :
  let (steps, w) := log_decisions "agent-1" 502 empty_world in
  nth_error steps 499 = Some (Ok 500%nat)
  /\ nth_error steps 500 = Some (Ok 501%nat)
  /\ nth_error steps 501 = Some (Ok 501%nat)
  /\ List.length (stored_log w "agent-1") = 500%nat
  /\ map step (lastN 2 (stored_log w "agent-1")) = [501; 501]%nat.
Proof. vm_compute. repeat split. Qed.

(** ** Size of the notes *)

Lemma length_slice0 (n : nat) (s : string) :
  String.length (slice0 n s) <= n /\ String.length (slice0 n s) <= String.length s.
Proof.
  unfold slice0. revert s.
  induction n as [|n IH]; intros s; destruct s as [|c s]; simpl; try lia.
  destruct (IH s). lia.
Qed.


Lemma split_nonempty (sep : ascii) (s : string) : split sep s <> [].
Proof.
  destruct s as [|c s]; simpl; [discriminate|].
  destruct (Ascii.eqb c sep); [discriminate|].
  destruct (split sep s); discriminate.
Qed.


Lemma hd_removelast (d : string) (l : list string) :
  (2 <= List.length l)%nat -> hd d (removelast l) = hd d l.
Proof. destruct l as [|a [|b l]]; simpl; intros; try lia; reflexivity. Qed.

Lemma length_removelast (l : list string) :
  List.length (removelast l) = (List.length l - 1)%nat.
Proof.
  induction l as [|a [|b l] IH]; try reflexivity.
  change (removelast (a :: b :: l)) with (a :: removelast (b :: l)).
  simpl List.length in *. lia.
Qed.

(** The loop stops with a text within the limit, or with the first line
    alone. *)
Lemma drop_lines_result (fuel : nat) (lines : list string) :
  (1 <= List.length lines <= fuel)%nat ->
  let r := drop_lines fuel lines (join nl lines) in
  String.length r <= MEMSTASH_MAX_TOTAL \/ r = hd "" lines.
Proof.
  revert lines. induction fuel as [|fuel IH]; intros lines [H1 H2]; [lia|].
  simpl.
  destruct (Nat.ltb_spec MEMSTASH_MAX_TOTAL (String.length (join nl lines)))
    as [Hlong|Hshort]; simpl; [|left; exact Hshort].
  destruct (Nat.ltb_spec 1 (List.length lines)) as [Hmany|Hone].
  - rewrite <- (hd_removelast "" lines) by lia.
    apply IH. rewrite length_removelast. lia.
  - right. destruct lines as [|x [|y l]]; simpl in *; try lia. reflexivity.
Qed.




Lemma mergeStructuredNotes_empty agentId w :
  mergeStructuredNotes agentId emptyNotes w = (Ok tt, w).
Proof. reflexivity. Qed.

Lemma stored_notes_read (w : World) agentId :
  stored_notes w agentId
  = match memstash w !! agentId with
    | None => emptyNotes
    | Some (StashNotes n) => n
    | Some (StashText s) =>
        if truthy s then set_legacyText emptyNotes s else emptyNotes
    end.
Proof.
  unfold stored_notes, getStructuredNotes, try_catch, bind, get_memstash, call, ret.
  simpl. destruct (memstash w !! agentId) as [[n|s]|]; simpl; try reflexivity.
  destruct (truthy s); reflexivity.
Qed.

Lemma mergeStructuredNotes_healthy agentId newNotes w :
  key_count newNotes <> 0%nat ->
  mergeStructuredNotes agentId newNotes (healthy w)
  = (Ok tt,
     with_memstash
       (<[agentId := StashNotes (merge (stored_notes w agentId) newNotes)]>
          (memstash w)) (healthy w)).
Proof.
  intros Hk. unfold mergeStructuredNotes.
  destruct (Nat.eqb_spec (key_count newNotes) 0); [contradiction|].
  rewrite stored_notes_read.
  unfold getStructuredNotes, try_catch, bind, get_memstash, set_memstash, call, ret.
  simpl. destruct (memstash w !! agentId) as [[m|s]|]; simpl; try reflexivity.
  destruct (truthy s); reflexivity.
Qed.

Lemma overwrite_overwritten {A} (old new : field A) :
  overwritten old new (overwrite old new).
Proof. destruct new; split; simpl; congruence. Qed.

Lemma stored_notes_after_merge agentId newNotes w :
  stored_notes (snd (mergeStructuredNotes agentId newNotes (healthy w))) agentId
  = if (key_count newNotes =? 0)%nat then stored_notes w agentId
    else merge (stored_notes w agentId) newNotes.
Proof.
  destruct (Nat.eqb_spec (key_count newNotes) 0) as [E|E].
  - unfold mergeStructuredNotes. rewrite E. simpl.
    rewrite !stored_notes_read. reflexivity.
  - rewrite mergeStructuredNotes_healthy by exact E. simpl.
    rewrite stored_notes_read. simpl. rewrite lookup_insert_eq. reflexivity.
Qed.

Lemma key_count_zero newNotes :
  key_count newNotes = 0%nat ->
  currentObjective newNotes = Undefined /\ lastKnownLocation newNotes = Undefined
  /\ exitFound newNotes = Undefined /\ stuckMode newNotes = Undefined
  /\ failedAttempts newNotes = Undefined /\ importantDiscovery newNotes = Undefined
  /\ general newNotes = Undefined.
Proof.
  destruct newNotes as [f1 f2 f3 f4 f5 f6 f7 f8]; unfold key_count; simpl.
  intros H.
  repeat split;
    match goal with
    | |- ?f = Undefined => destruct f; [reflexivity | simpl in H; lia ..]
    end.
Qed.

(** C9. Merging [x] and then the empty delta is merging [x] alone.  In a
    merge each of the six scalar fields of the delta that is present
    (a value or [null]) replaces the stored one and an absent one keeps
    it; a non-empty [failedAttempts] is appended to the stored list, of
    which the last five entries are kept; the legacy text is kept. *)
Theorem merge_notes_overwrites_and_appends
  (agentId : string) (x : StructuredNotes) (w : World) :
  bind (mergeStructuredNotes agentId x)
    (fun _ => mergeStructuredNotes agentId emptyNotes) w
  = mergeStructuredNotes agentId x w
  /\ let existing := stored_notes w agentId in
     let after :=
       stored_notes (snd (mergeStructuredNotes agentId x (healthy w))) agentId in
     overwritten (currentObjective existing) (currentObjective x)
       (currentObjective after)
     /\ overwritten (lastKnownLocation existing) (lastKnownLocation x)
          (lastKnownLocation after)
     /\ overwritten (exitFound existing) (exitFound x) (exitFound after)
     /\ overwritten (stuckMode existing) (stuckMode x) (stuckMode after)
     /\ overwritten (importantDiscovery existing) (importantDiscovery x)
          (importantDiscovery after)
     /\ overwritten (general existing) (general x) (general after)
     /\ (forall a l,
           failedAttempts x = Val (a :: l) ->
           failedAttempts after = Val (lastN 5 (attempts existing ++ a :: l))
           /\ (List.length (attempts after) <= 5)%nat)
     /\ ((failedAttempts x = Undefined \/ failedAttempts x = Null
          \/ failedAttempts x = Val []) ->
         failedAttempts after = failedAttempts existing)
     /\ _legacyText after = _legacyText existing.
Proof.
  split.
  - unfold bind.
    destruct (mergeStructuredNotes_never_throws agentId x w) as ([] & w' & ->).
    reflexivity.
  - cbv zeta. rewrite stored_notes_after_merge.
    destruct (Nat.eqb_spec (key_count x) 0) as [E|E].
    + destruct (key_count_zero x E) as (E1 & E2 & E3 & E4 & E5 & E6 & E7).
      rewrite E1, E2, E3, E4, E5, E6, E7.
      repeat split; try congruence; intros; try discriminate.
    + set (e := stored_notes w agentId). simpl.
      repeat split; try (apply overwrite_overwritten).
      * rewrite H. reflexivity.
      * unfold attempts. simpl. rewrite H. rewrite length_lastN. lia.
      * intros [H|[H|H]]; rewrite H; reflexivity.
Qed.
End MemStashSpec.

(* ===================================================================== *)
(** * Properties of the decision step *)
(* ===================================================================== *)

Module StepsSpec.
Import JsString MemStash Steps.
Import MemStashSpec.
Local Open Scope Q_scope.

(** ** Tables *)

Lemma Qgtb_true (x y : Q) : Qgtb x y = true <-> y < x.
Proof.
  unfold Qgtb. rewrite negb_true_iff.
  split; intros H.
  - apply Qnot_le_lt. intros Hle. apply Qle_bool_iff in Hle. congruence.
  - destruct (Qle_bool x y) eqn:E; [|reflexivity].
    apply Qle_bool_iff in E. exfalso. exact (Qlt_not_le _ _ H E).
Qed.

Lemma Qgtb_false (x y : Q) : Qgtb x y = false <-> x <= y.
Proof.
  unfold Qgtb. rewrite negb_false_iff. apply Qle_bool_iff.
Qed.

Lemma Btn_eqb_eq (x y : GBAButton) : Btn.eqb x y = true <-> x = y.
Proof. unfold Btn.eqb. apply bool_decide_eq_true. Qed.

Lemma get_score_In (t : Scores) b v : get_score t b = Some v -> In (b, v) t.
Proof.
  induction t as [|[k w] t IH]; simpl; [discriminate|].
  destruct (Btn.eqb k b) eqn:E.
  - apply Btn_eqb_eq in E. intros [= ->]. left. congruence.
  - intros H. right. auto.
Qed.

Lemma In_get_score (t : Scores) b v :
  List.NoDup (map fst t) -> In (b, v) t -> get_score t b = Some v.
Proof.
  induction t as [|[k w] t IH]; simpl; [intros _ []|].
  intros Hnd [H|H].
  - injection H as -> ->.
    replace (Btn.eqb b b) with true by (symmetry; apply Btn_eqb_eq; reflexivity).
    reflexivity.
  - inversion Hnd as [|? ? Hnotin Hnd']; subst.
    destruct (Btn.eqb k b) eqn:E.
    + apply Btn_eqb_eq in E. subst k. exfalso. apply Hnotin.
      apply (in_map fst) in H. exact H.
    + auto.
Qed.

(** The fold of [pick_best]: the result is at least the start and every
    entry, and it is the start or one of the entries. *)
Lemma fold_choose_ge (entries : Scores) (acc : Best) :
  score acc <= score (fold_left choose entries acc)
  /\ forall b v, In (b, v) entries -> v <= score (fold_left choose entries acc).
Proof.
  revert acc. induction entries as [|[k w] entries IH]; intros acc; simpl.
  - split; [apply Qle_refl | intros ? ? []].
  - destruct (IH (choose acc (k, w))) as [H1 H2].
    assert (Hacc : score acc <= score (choose acc (k, w))).
    { unfold choose. simpl. destruct (Qgtb w (score acc)) eqn:E; simpl.
      - apply Qgtb_true in E. apply Qlt_le_weak, E.
      - apply Qle_refl. }
    assert (Hw : w <= score (choose acc (k, w))).
    { unfold choose. simpl. destruct (Qgtb w (score acc)) eqn:E; simpl.
      - apply Qle_refl.
      - apply Qgtb_false in E. exact E. }
    split.
    + eapply Qle_trans; eassumption.
    + intros b v [H|H].
      * injection H as <- <-. eapply Qle_trans; eassumption.
      * apply (H2 b), H.
Qed.

Lemma fold_choose_In (entries : Scores) (acc : Best) :
  fold_left choose entries acc = acc
  \/ In (best_button (fold_left choose entries acc),
         score (fold_left choose entries acc)) entries.
Proof.
  revert acc. induction entries as [|[k w] entries IH]; intros acc; simpl.
  - left. reflexivity.
  - destruct (IH (choose acc (k, w))) as [H|H].
    + rewrite H. unfold choose. simpl.
      destruct (Qgtb w (score acc)); simpl; [right; left; reflexivity | left; reflexivity].
    + right. right. exact H.
Qed.

Lemma pick_best_argmax (t : Scores) :
  valid_table t ->
  is_argmax t (best_button (pick_best t)) (score (pick_best t)).
Proof.
  intros [Hkeys Hrange].
  assert (Hnd : List.NoDup (map fst t)).
  { rewrite Hkeys. unfold Btn.all.
    repeat (constructor; [simpl; intuition discriminate|]). constructor. }
  change (pick_best t) with
    (fold_left choose t {| best_button := Btn.A; score := -1 |}).
  set (init := {| best_button := Btn.A; score := -1 |}).
  destruct (fold_choose_ge t init) as [_ Hge].
  split.
  - apply In_get_score; [exact Hnd|].
    destruct (fold_choose_In t init) as [H|H]; [|exact H].
    exfalso. destruct t as [|[k w] t]; [discriminate Hkeys|].
    assert (Hw : w <= score (fold_left choose ((k, w) :: t) init))
      by (apply (Hge k); left; reflexivity).
    rewrite H in Hw. simpl in Hw.
    destruct (Hrange k w) as [H0 _]; [left; reflexivity|].
    assert (Hbad : 0 <= -1) by (eapply Qle_trans; eassumption).
    unfold Qle in Hbad. simpl in Hbad. lia.
  - intros b' v' Hget. apply (Hge b'), get_score_In, Hget.
Qed.

(** ** The schema *)

Lemma parse_scores_keys_spec (keys : list GBAButton) (raw t : Scores) :
  parse_scores_keys keys raw = Some t ->
  map fst t = keys
  /\ forall b v, In (b, v) t -> (0 <= v /\ v <= 1) /\ get_score raw b = Some v.
Proof.
  revert t. induction keys as [|k keys IH]; intros t; simpl.
  - intros [= <-]. split; [reflexivity | intros ? ? []].
  - destruct (get_score raw k) as [v|] eqn:Hget; [|discriminate].
    destruct (in_range 0 1 v) eqn:Hr; [|discriminate].
    destruct (parse_scores_keys keys raw) as [rest|]; [|discriminate].
    intros [= <-]. destruct (IH rest eq_refl) as [Hk Hin].
    split; [simpl; congruence|].
    intros b v' [H|H]; [|apply Hin, H].
    injection H as <- <-.
    unfold in_range in Hr. apply andb_true_iff in Hr as [H0 H1].
    apply Qle_bool_iff in H0, H1. auto.
Qed.

Lemma NoDup_all : List.NoDup Btn.all.
Proof.
  unfold Btn.all.
  repeat (constructor; [simpl; intuition discriminate|]). constructor.
Qed.

Lemma confidenceScoresSchema_spec (raw t : Scores) :
  confidenceScoresSchema raw = Some t ->
  valid_table t /\ forall b, get_score t b = get_score raw b.
Proof.
  intros H. apply parse_scores_keys_spec in H as [Hk Hin].
  split.
  - split; [exact Hk | intros b v Hb; apply (Hin b v Hb)].
  - intros b.
    assert (Hb : In b (map fst t)) by (rewrite Hk; destruct b; simpl; tauto).
    apply in_map_iff in Hb as ([b' v] & E & Hb). simpl in E. subst b'.
    rewrite (In_get_score t b v); [| rewrite Hk; apply NoDup_all | exact Hb].
    symmetry. apply (Hin b v Hb).
Qed.

Lemma parse_sequence_spec (raw seq : list Scores) :
  parse_sequence raw = Some seq ->
  Forall2 (fun r t => confidenceScoresSchema r = Some t) raw seq.
Proof.
  revert seq. induction raw as [|r raw IH]; intros seq; simpl.
  - intros [= <-]. constructor.
  - destruct (confidenceScoresSchema r) as [t|] eqn:E; [|discriminate].
    destruct (parse_sequence raw) as [rest|]; [|discriminate].
    intros [= <-]. constructor; auto.
Qed.

Lemma decisionSchema_spec (d d' : ModelDecision) :
  decisionSchema d = Some d' ->
  parse_sequence (m_buttonSequence d) = Some (m_buttonSequence d')
  /\ (1 <= List.length (m_buttonSequence d'))%nat
  /\ m_reasoning d' = m_reasoning d.
Proof.
  unfold decisionSchema.
  destruct (parse_sequence (m_buttonSequence d)) as [seq|]; [|discriminate].
  destruct (Nat.leb_spec 1 (List.length seq)) as [Hlen|]; [|discriminate].
  simpl. destruct (in_range 0 1 (m_progressConfidence d)); [|discriminate].
  destruct (m_notes d) as [| |n]; try (intros [= <-]; simpl; auto).
  destruct (parse_notes n); [|discriminate].
  intros [= <-]; simpl; auto.
Qed.

(** What the schema accepts: a sequence of at least one step, each step a
    valid table that reads like the step of the reply. *)
Lemma schema_spec (raw : RawReply) (parsed : ParsedReply) :
  schema raw = Some parsed ->
  exists step1 rest raw1 rawrest,
    m_buttonSequence (object_decision parsed) = step1 :: rest
    /\ m_buttonSequence (reply_decision raw) = raw1 :: rawrest
    /\ Forall valid_table (step1 :: rest)
    /\ (forall b, get_score step1 b = get_score raw1 b).
Proof.
  unfold schema.
  destruct (gameStateSchema (reply_gameState raw)); [|discriminate].
  destruct (decisionSchema (reply_decision raw)) as [d'|] eqn:Hd; [|discriminate].
  intros [= <-]. simpl.
  apply decisionSchema_spec in Hd as (Hseq & Hlen & _).
  apply parse_sequence_spec in Hseq.
  destruct Hseq as [|raw1 step1 rawrest rest H1 Hrest]; [simpl in Hlen; lia|].
  exists step1, rest, raw1, rawrest.
  repeat split; try reflexivity.
  - constructor.
    + apply (confidenceScoresSchema_spec raw1), H1.
    + clear -Hrest. induction Hrest as [|r t rs ts Hrt _ IH]; constructor.
      * apply (confidenceScoresSchema_spec r), Hrt.
      * exact IH.
  - apply (confidenceScoresSchema_spec raw1), H1.
Qed.

(** ** The loop over the sequence *)

Lemma valid_table_nonempty (t : Scores) : valid_table t -> t <> [].
Proof. intros [Hk _] ->. discriminate Hk. Qed.

Lemma derive_spec (steps : list Scores) (acc : list Best) :
  acc <> [] -> Forall valid_table steps ->
  exists n,
    (n <= List.length steps)%nat
    /\ derive steps acc = (acc ++ map pick_best (firstn n steps))%list
    /\ Forall (fun s => SEQUENCE_THRESHOLD <= score (pick_best s)) (firstn n steps)
    /\ (forall s, nth_error steps n = Some s ->
                  score (pick_best s) < SEQUENCE_THRESHOLD).
Proof.
  intros Hacc Hvalid. revert acc Hacc.
  induction Hvalid as [|s steps Hs Hsteps IH]; intros acc Hacc.
  - exists 0%nat. simpl. rewrite app_nil_r.
    repeat split; [lia | constructor | intros ?; discriminate].
  - pose proof (valid_table_nonempty _ Hs) as Hne.
    destruct s as [|e s']; [contradiction|].
    set (s := e :: s') in *. change (derive (s :: steps) acc) with
      (let best := pick_best s in
       if (List.length acc =? 0)%nat || Qle_bool SEQUENCE_THRESHOLD (score best)
       then derive steps (acc ++ [best])%list else acc).
    cbv zeta.
    replace (List.length acc =? 0)%nat with false
      by (destruct acc; [contradiction | reflexivity]).
    simpl. destruct (Qle_bool SEQUENCE_THRESHOLD (score (pick_best s))) eqn:E.
    + destruct (IH (acc ++ [pick_best s])%list) as (n & Hn & Hd & Hall & Hnext).
      { destruct acc; discriminate. }
      exists (S n). simpl. rewrite Hd, <- app_assoc. simpl.
      repeat split; [lia | | exact Hnext].
      constructor; [apply Qle_bool_iff, E | exact Hall].
    + exists 0%nat. simpl. rewrite app_nil_r.
      repeat split; [lia | constructor |].
      intros s0 [= <-]. apply Qnot_le_lt. intros Hle.
      apply Qle_bool_iff in Hle. congruence.
Qed.

(** ** The decision step *)

Lemma generateObject_world (outcome : ModelOutcome) (w : Redis.World) :
  snd (generateObject outcome w) = w.
Proof.
  destruct outcome as [| | |r]; try reflexivity.
  simpl. destruct (schema r); reflexivity.
Qed.

Lemma generateObject_failed (outcome : ModelOutcome) (w : Redis.World) :
  failed outcome -> generateObject outcome w = (Redis.Thrown, w).
Proof.
  destruct outcome as [| | |r]; simpl; try reflexivity.
  intros ->. reflexivity.
Qed.

Lemma notes_step_never_throws agentId (notes : Redis.field Redis.StructuredNotes) :
  Redis.never_throws
    (match notes with
     | Redis.Val n => appendMemStash agentId (inr n)
     | _ => Redis.ret tt
     end).
Proof.
  destruct notes; try apply ret_never_throws.
  apply appendMemStash_never_throws.
Qed.

(** The output built from a validated reply whose plan is [p :: l]. *)
Lemma analyze_built agentId raw parsed w p l :
  schema raw = Some parsed ->
  derive (m_buttonSequence (object_decision parsed)) [] = p :: l ->
  exists out w',
    analyzeFrameAndDecide agentId (Reply raw) w = (Redis.Ok out, w')
    /\ button (decision out) = best_button p
    /\ confidence (decision out) = score p
    /\ confidenceScores (decision out)
       = orElse (head (m_buttonSequence (object_decision parsed))) []
    /\ buttonSequence (decision out) = map to_step (p :: l)
    /\ isFallback (decision out) = false.
Proof.
  intros Hschema Hderive.
  unfold analyzeFrameAndDecide, Redis.try_catch.
  unfold Redis.bind at 1. simpl generateObject. rewrite Hschema.
  unfold Redis.ret at 1.
  destruct (m_buttonSequence (object_decision parsed)) as [|s1 rest] eqn:Hseq.
  { simpl in Hderive. discriminate. }
  simpl (List.length _ =? 0)%nat. cbv iota. rewrite Hderive.
  unfold Redis.bind.
  destruct (notes_step_never_throws agentId (m_notes (object_decision parsed)) w)
    as ([] & w1 & ->).
  destruct (appendDecisionLog_never_throws agentId (Btn.name (best_button p))
              (m_reasoning (object_decision parsed)) w1) as (st & w2 & ->).
  unfold Redis.now, Redis.ret.
  eexists _, w2. split; [reflexivity|]. simpl. repeat split; reflexivity.
Qed.

Lemma derive_first (s1 : Scores) (rest : list Scores) :
  Forall valid_table (s1 :: rest) ->
  exists n,
    (n <= List.length rest)%nat
    /\ derive (s1 :: rest) [] = pick_best s1 :: map pick_best (firstn n rest)
    /\ Forall (fun s => SEQUENCE_THRESHOLD <= score (pick_best s)) (firstn n rest)
    /\ (forall s, nth_error rest n = Some s ->
                  score (pick_best s) < SEQUENCE_THRESHOLD).
Proof.
  intros Hvalid. inversion Hvalid as [|? ? Hs1 Hrest]; subst.
  pose proof (valid_table_nonempty _ Hs1) as Hne.
  destruct s1 as [|e s']; [contradiction|].
  set (s1 := e :: s') in *.
  change (derive (s1 :: rest) []) with (derive rest [pick_best s1]).
  apply (derive_spec rest [pick_best s1]); [discriminate | exact Hrest].
Qed.

Lemma analyze_cases agentId outcome w :
  analyzeFrameAndDecide agentId outcome w = createFallbackDecision 1500 w
  \/ exists raw parsed p l,
       outcome = Reply raw /\ schema raw = Some parsed
       /\ derive (m_buttonSequence (object_decision parsed)) [] = p :: l.
Proof.
  destruct outcome as [| | |raw]; try (left; reflexivity).
  destruct (schema raw) as [parsed|] eqn:Hschema.
  - destruct (derive (m_buttonSequence (object_decision parsed)) [])
      as [|p l] eqn:Hderive.
    + left. unfold analyzeFrameAndDecide, Redis.try_catch.
      unfold Redis.bind at 1. simpl generateObject. rewrite Hschema.
      unfold Redis.ret at 1.
      destruct (m_buttonSequence (object_decision parsed)); [reflexivity|].
      simpl (List.length _ =? 0)%nat. cbv iota. rewrite Hderive. reflexivity.
    + right. exists raw, parsed, p, l. auto.
  - left. unfold analyzeFrameAndDecide, Redis.try_catch.
    unfold Redis.bind at 1. simpl generateObject. rewrite Hschema. reflexivity.
Qed.

(** C1. For a reply that the schema accepts, the decision is not a fallback,
    its [button] and [confidence] are a highest entry of step 1 of
    [buttonSequence] and the value of that entry, and [confidenceScores] is
    the table of step 1, which reads like the first table of the reply. *)
Theorem decision_is_argmax_of_step1
  (agentId : string) (raw : RawReply) (parsed : ParsedReply) (w : Redis.World) :
  schema raw = Some parsed ->
  exists out w' step1 rest raw1 rawrest,
    analyzeFrameAndDecide agentId (Reply raw) w = (Redis.Ok out, w')
    /\ m_buttonSequence (object_decision parsed) = step1 :: rest
    /\ m_buttonSequence (reply_decision raw) = raw1 :: rawrest
    /\ (forall b, get_score step1 b = get_score raw1 b)
    /\ is_argmax step1 (button (decision out)) (confidence (decision out))
    /\ confidenceScores (decision out) = step1
    /\ isFallback (decision out) = false.
Proof.
  intros Hschema.
  destruct (schema_spec raw parsed Hschema)
    as (step1 & rest & raw1 & rawrest & Hseq & Hraw & Hvalid & Hread).
  destruct (derive_first step1 rest Hvalid) as (n & _ & Hderive & _).
  rewrite <- Hseq in Hderive.
  destruct (analyze_built agentId raw parsed w _ _ Hschema Hderive)
    as (out & w' & Hrun & Hb & Hc & Hs & _ & Hf).
  exists out, w', step1, rest, raw1, rawrest.
  split; [exact Hrun|]. split; [exact Hseq|]. split; [exact Hraw|].
  split; [exact Hread|]. split; [|split; [|exact Hf]].
  - rewrite Hb, Hc. apply pick_best_argmax. inversion Hvalid; assumption.
  - rewrite Hs, Hseq. reflexivity.
Qed.

Lemma decision_is_argmax_of_step1_witness :
  exists out w',
    analyzeFrameAndDecide "agent-1" (Reply example_reply) MemStash.empty_world
    = (Redis.Ok out, w')
    /\ button (decision out) = Btn.A
    /\ Qeq (confidence (decision out)) 0.9.
Proof.
  destruct (decision_is_argmax_of_step1 "agent-1" example_reply _
              MemStash.empty_world eq_refl)
    as (out & w' & step1 & rest & raw1 & rawrest & Hrun & _).
  exists out, w'. split; [exact Hrun|].
  vm_compute in Hrun. injection Hrun as <- _. split; reflexivity.
Defined.

Lemma plan_is_argmax (steps : list Scores) :
  Forall valid_table steps ->
  Forall2 (fun st sc => is_argmax sc (step_button st) (step_confidence st))
    (map to_step (map pick_best steps)) steps.
Proof.
  induction 1 as [|s steps Hs _ IH]; simpl; constructor.
  - apply pick_best_argmax, Hs.
  - exact IH.
Qed.

Lemma Forall_firstn {A} (P : A -> Prop) (n : nat) (l : list A) :
  Forall P l -> Forall P (firstn n l).
Proof.
  intros H. revert n. induction H as [|x l Hx _ IH]; intros [|n]; simpl;
    constructor; auto.
Qed.

(** C2. The execution plan is never empty, and a fallback plan is the single
    step WAIT.  For a reply that the schema accepts, the plan runs along a
    prefix of [buttonSequence]: each of its steps is a highest entry of the
    step it comes from, step 1 is always in, every later step in the plan
    has a confidence of at least 0.85, and the step after the prefix, when
    there is one, has its highest confidence below 0.85. *)
Theorem execution_plan_threshold (agentId : string) (w : Redis.World) :
  (forall outcome, exists out w',
      analyzeFrameAndDecide agentId outcome w = (Redis.Ok out, w')
      /\ buttonSequence (decision out) <> []
      /\ (isFallback (decision out) = true ->
          buttonSequence (decision out)
          = [ {| step_button := Btn.WAIT; step_confidence := 0.5 |} ]))
  /\ (forall raw parsed,
        schema raw = Some parsed ->
        exists out w' n,
          analyzeFrameAndDecide agentId (Reply raw) w = (Redis.Ok out, w')
          /\ let seq := m_buttonSequence (object_decision parsed) in
             let plan := buttonSequence (decision out) in
             (1 <= n <= List.length seq)%nat
             /\ List.length plan = n
             /\ Forall2
                  (fun st sc => is_argmax sc (step_button st) (step_confidence st))
                  plan (firstn n seq)
             /\ (forall st, In st (tl plan) -> 0.85 <= step_confidence st)
             /\ (forall sc b v,
                   nth_error seq n = Some sc -> is_argmax sc b v -> v < 0.85)).
Proof.
  split.
  - intros outcome.
    destruct (analyze_cases agentId outcome w)
      as [E|(raw & parsed & p & l & -> & Hschema & Hderive)].
    + rewrite E. eexists _, w. split; [reflexivity|].
      split; [discriminate | reflexivity].
    + destruct (analyze_built agentId raw parsed w p l Hschema Hderive)
        as (out & w' & Hrun & _ & _ & _ & Hplan & Hf).
      exists out, w'. split; [exact Hrun|].
      split; [rewrite Hplan; discriminate | congruence].
  - intros raw parsed Hschema.
    destruct (schema_spec raw parsed Hschema)
      as (step1 & rest & raw1 & rawrest & Hseq & _ & Hvalid & _).
    destruct (derive_first step1 rest Hvalid) as (n & Hn & Hderive & Hall & Hnext).
    rewrite <- Hseq in Hderive.
    destruct (analyze_built agentId raw parsed w _ _ Hschema Hderive)
      as (out & w' & Hrun & _ & _ & _ & Hplan & _).
    exists out, w', (S n). split; [exact Hrun|]. cbv zeta.
    rewrite Hplan, Hseq. simpl.
    split; [lia|]. split; [|split; [|split]].
    + rewrite !length_map, length_firstn. lia.
    + apply (plan_is_argmax (step1 :: firstn n rest)).
      apply (Forall_firstn _ (S n) (step1 :: rest)), Hvalid.
    + intros st Hin. apply in_map_iff in Hin as (p & <- & Hin).
      apply in_map_iff in Hin as (s & <- & Hin).
      rewrite List.Forall_forall in Hall. apply (Hall s Hin).
    + intros sc b v Hnth [Hget _].
      inversion Hvalid as [|? ? _ Hrest]; subst.
      assert (Hsc : valid_table sc).
      { rewrite List.Forall_forall in Hrest. apply Hrest.
        apply nth_error_In with n. exact Hnth. }
      destruct (pick_best_argmax sc Hsc) as [_ Hmax].
      eapply Qle_lt_trans; [apply (Hmax b v Hget) | apply Hnext, Hnth].
Qed.

Lemma execution_plan_threshold_witness :
  exists out w',
    analyzeFrameAndDecide "agent-1" (Reply example_reply) MemStash.empty_world
    = (Redis.Ok out, w')
    /\ map step_button (buttonSequence (decision out)) = [Btn.A; Btn.RIGHT].
Proof.
  destruct (proj2 (execution_plan_threshold "agent-1" MemStash.empty_world)
              example_reply _ eq_refl)
    as (out & w' & n & Hrun & _).
  exists out, w'. split; [exact Hrun|].
  vm_compute in Hrun. injection Hrun as <- _. reflexivity.
Defined.

(** C3. When the call of the model ends in an error, a time-out or a reply
    that the schema rejects, the result is the fallback decision: WAIT with
    confidence 0.5, a table whose entries are all below the 0.5 of WAIT, the
    single step WAIT, [isFallback], and a usage of 1500 prompt and 100
    completion tokens; nothing is written to the store. *)
Theorem failed_call_gives_fallback
  (agentId : string) (outcome : ModelOutcome) (w : Redis.World) :
  failed outcome ->
  exists out,
    analyzeFrameAndDecide agentId outcome w = (Redis.Ok out, w)
    /\ button (decision out) = Btn.WAIT
    /\ confidence (decision out) = 0.5
    /\ confidenceScores (decision out)
       = [(Btn.A, 0.2); (Btn.B, 0.2); (Btn.START, 0.1); (Btn.SELECT, 0.1);
          (Btn.UP, 0.2); (Btn.DOWN, 0.2); (Btn.LEFT, 0.2); (Btn.RIGHT, 0.2);
          (Btn.L, 0.1); (Btn.R, 0.1); (Btn.WAIT, 0.5)]
    /\ (forall b v,
          get_score (confidenceScores (decision out)) b = Some v ->
          b <> Btn.WAIT -> v < 0.5)
    /\ buttonSequence (decision out)
       = [ {| step_button := Btn.WAIT; step_confidence := 0.5 |} ]
    /\ isFallback (decision out) = true
    /\ usage out
       = {| promptTokens := 1500; completionTokens := 100; totalTokens := 1600 |}.
Proof.
  intros Hfailed.
  unfold analyzeFrameAndDecide, Redis.try_catch.
  unfold Redis.bind at 1. rewrite (generateObject_failed outcome w Hfailed).
  eexists. split; [reflexivity|]. simpl.
  repeat split.
  intros b v Hget Hb.
  destruct b; simpl in Hget; try contradiction;
    injection Hget as <-; reflexivity.
Qed.

Lemma failed_call_gives_fallback_witness :
  exists out,
    analyzeFrameAndDecide "agent-1" Timeout MemStash.empty_world
    = (Redis.Ok out, MemStash.empty_world)
    /\ button (decision out) = Btn.WAIT.
Proof.
  destruct (failed_call_gives_fallback "agent-1" Timeout MemStash.empty_world I)
    as (out & Hrun & Hbutton & _).
  exists out. split; [exact Hrun | exact Hbutton].
Defined.

End StepsSpec.

(* ===================================================================== *)
(** * Properties of the button statistics *)
(* ===================================================================== *)

Module AgentCardSpec.
Import FrameHash AgentCard.
Local Open Scope Q_scope.

Lemma eqb_eq (x y : GBAButton) : Btn.eqb x y = true <-> x = y.
Proof. unfold Btn.eqb. apply bool_decide_eq_true. Qed.

Lemma eqb_neq (x y : GBAButton) : Btn.eqb x y = false <-> x <> y.
Proof. unfold Btn.eqb. apply bool_decide_eq_false. Qed.

Lemma eqb_refl (x : GBAButton) : Btn.eqb x x = true.
Proof. apply eqb_eq. reflexivity. Qed.

Lemma get_set_score (t : Scores) (b : GBAButton) (v : Q) :
  get_score (set_score t b v) b = Some v.
Proof.
  induction t as [|[k w] t IH]; simpl.
  - rewrite eqb_refl. reflexivity.
  - destruct (Btn.eqb k b) eqn:E; simpl; rewrite E; [reflexivity | exact IH].
Qed.

Lemma count_of_insert (m : gmap GBAButton nat) (k b : GBAButton) (c : nat) :
  count_of (<[k := c]> m) b = if decide (k = b) then c else count_of m b.
Proof.
  unfold count_of. rewrite lookup_insert. destruct (decide (k = b)); reflexivity.
Qed.

Lemma includes_In (l : list GBAButton) (b : GBAButton) :
  includes l b = true <-> In b l.
Proof.
  unfold includes. rewrite existsb_exists. split.
  - intros (x & Hx & E). apply eqb_eq in E. subst. exact Hx.
  - intros H. exists b. split; [exact H | apply eqb_refl].
Qed.

(** The cells after an iteration that went through. *)
Lemma processFrame_cells (st : State) (frame : string) (d : Steps.AIDecision) :
  isValidFrame frame = true ->
  let st' := processFrame st frame (Some d) in
  let tracked :=
    track_no_change (visualChange (lastFrameHash st) (simpleFrameHash frame)) st
      (Steps.confidenceScores d) in
  let pressed :=
    fold_left press (Steps.buttonSequence d)
      (buttonPressCount st, bannedButtons st) in
  confidenceScores st' = fst (fst tracked)
  /\ noChangeCount st' = snd (fst tracked)
  /\ buttonsToAvoid st' = snd tracked
  /\ lastButton st' = Some (Steps.button d)
  /\ lastFrameHash st' = Some (simpleFrameHash frame)
  /\ buttonPressCount st' = fst pressed
  /\ bannedButtons st' = decrement_bans (snd pressed).
Proof.
  intros Hvalid. unfold processFrame. rewrite Hvalid. simpl negb. cbv iota zeta.
  destruct (track_no_change _ st _) as [[s c] a].
  destruct (fold_left press _ _) as [pc bn].
  destruct (Steps.button d); simpl; repeat split; reflexivity.
Qed.

Lemma observed_Some (st : State) (it : string * option Steps.AIDecision) b vc :
  observed st it = Some (b, vc) ->
  isValidFrame (fst it) = true
  /\ (exists d, snd it = Some d)
  /\ lastButton st = Some b
  /\ visualChange (lastFrameHash st) (simpleFrameHash (fst it)) = vc.
Proof.
  unfold observed. destruct (isValidFrame (fst it)); simpl; [|discriminate].
  destruct (snd it) as [d|]; [|discriminate].
  destruct (lastButton st) as [b'|]; [|discriminate].
  intros [= -> <-]. eauto.
Qed.

(** How one iteration moves the no-change counter of [b]. *)
Lemma count_step (st : State) (it : string * option Steps.AIDecision) (b : GBAButton) :
  count_of (noChangeCount (processFrame st (fst it) (snd it))) b
  = match observed st it with
    | Some (b', vc) =>
        if Btn.eqb b' b
        then match vc with
             | no_change => S (count_of (noChangeCount st) b)
             | change_detected => 0%nat
             | first_frame => count_of (noChangeCount st) b
             end
        else count_of (noChangeCount st) b
    | None => count_of (noChangeCount st) b
    end.
Proof.
  unfold observed.
  destruct (isValidFrame (fst it)) eqn:Hvalid; simpl negb; cbv iota;
    [|unfold processFrame; rewrite Hvalid; reflexivity].
  destruct (snd it) as [d|];
    [|unfold processFrame; rewrite Hvalid; reflexivity].
  destruct (processFrame_cells st (fst it) d Hvalid) as (_ & -> & _).
  unfold track_no_change.
  destruct (lastButton st) as [btn|];
    [|destruct (visualChange _ _); reflexivity].
  destruct (visualChange _ _); simpl.
  - rewrite count_of_insert. destruct (decide (btn = b)) as [->|Hne].
    + rewrite eqb_refl. lia.
    + apply eqb_neq in Hne. rewrite Hne. reflexivity.
  - destruct (Btn.eqb btn b) eqn:E.
    + apply eqb_eq in E. subst btn. unfold count_of at 1.
      destruct (noChangeCount st !! b) as [[|n]|] eqn:Hl; simpl;
        rewrite ?lookup_insert_eq, ?Hl; reflexivity.
    + apply eqb_neq in E.
      destruct (noChangeCount st !! btn) as [[|n]|]; try reflexivity.
      rewrite count_of_insert. destruct (decide (btn = b)); [contradiction | reflexivity].
  - destruct (Btn.eqb btn b); reflexivity.
Qed.

(** The invariant of the counters holds along every run. *)
Lemma avoid_invariant_step (st : State) (it : string * option Steps.AIDecision) :
  avoid_invariant st -> avoid_invariant (processFrame st (fst it) (snd it)).
Proof.
  intros Hinv b Hcount. rewrite count_step in Hcount. revert Hcount.
  unfold observed.
  destruct (isValidFrame (fst it)) eqn:Hvalid; simpl negb; cbv iota;
    [|unfold processFrame; rewrite Hvalid; apply Hinv].
  destruct (snd it) as [d|];
    [|unfold processFrame; rewrite Hvalid; apply Hinv].
  destruct (processFrame_cells st (fst it) d Hvalid) as (_ & _ & -> & _).
  unfold track_no_change.
  destruct (lastButton st) as [btn|];
    [|destruct (visualChange _ _); apply Hinv].
  destruct (visualChange _ _); cbn [snd].
  - (* no change *)
    destruct (Btn.eqb btn b) eqn:E.
    + apply eqb_eq in E. subst btn. intros _.
      set (count := (count_of (noChangeCount st) b + 1)%nat).
      destruct (Nat.ltb_spec count 5) as [Hlt|Hge].
      * replace (1 <=? count)%nat with true
          by (symmetry; apply Nat.leb_le; unfold count; lia).
        cbn [andb]. destruct (includes (buttonsToAvoid st) b) eqn:Hin; cbn [negb].
        -- apply includes_In, Hin.
        -- apply in_or_app. right. left. reflexivity.
      * rewrite andb_false_r. cbn [andb]. apply Hinv. unfold count in Hge. lia.
    + intros Hc. specialize (Hinv b Hc).
      destruct (_ && _); [apply in_or_app; left|]; exact Hinv.
  - (* change detected *)
    destruct (Btn.eqb btn b) eqn:E; [lia|].
    intros Hc. apply filter_In. split; [apply Hinv, Hc|].
    apply negb_true_iff, eqb_neq. apply eqb_neq in E. congruence.
  - destruct (Btn.eqb btn b); apply Hinv.
Qed.

Lemma run_app (st : State) (its1 its2 : list (string * option Steps.AIDecision)) :
  run st (its1 ++ its2) = run (run st its1) its2.
Proof. unfold run. apply fold_left_app. Qed.

Lemma avoid_invariant_run (st : State) (its : list (string * option Steps.AIDecision)) :
  avoid_invariant st -> avoid_invariant (run st its).
Proof.
  revert st. induction its as [|it its IH]; intros st Hinv; [exact Hinv|].
  apply IH, avoid_invariant_step, Hinv.
Qed.

Lemma avoid_invariant_initial : avoid_invariant initial.
Proof. intros b. unfold count_of. simpl. rewrite lookup_empty. simpl. lia. Qed.

Lemma outcomes_app b vc st (its1 its2 : list (string * option Steps.AIDecision)) :
  outcomes b vc st (its1 ++ its2)
  = (outcomes b vc st its1 + outcomes b vc (run st its1) its2)%nat.
Proof.
  revert st. induction its1 as [|it its1 IH]; intros st; simpl; [reflexivity|].
  rewrite IH. lia.
Qed.

(** Along iterations with no [change_detected] attributed to [b], the
    counter of [b] grows by the number of [no_change] attributed to it. *)
Lemma count_run (b : GBAButton) (st : State)
  (its : list (string * option Steps.AIDecision)) :
  outcomes b change_detected st its = 0%nat ->
  count_of (noChangeCount (run st its)) b
  = (count_of (noChangeCount st) b + outcomes b no_change st its)%nat.
Proof.
  revert st. induction its as [|it its IH]; intros st; simpl; [lia|].
  intros Hno.
  rewrite IH by lia. rewrite count_step.
  destruct (observed st it) as [[b' vc]|]; [|lia].
  destruct (Btn.eqb b' b); [|lia].
  destruct vc; simpl in *; lia.
Qed.

(** The iteration that counts the fifth no-change (or a later one) writes
    0.2 for the button into the scores of the next prompt. *)
Lemma penalty_step (st : State) (it : string * option Steps.AIDecision) b :
  observed st it = Some (b, no_change) ->
  (4 <= count_of (noChangeCount st) b)%nat ->
  get_score (confidenceScores (processFrame st (fst it) (snd it))) b = Some 0.2.
Proof.
  intros Hobs Hcount.
  destruct (observed_Some st it b no_change Hobs) as (Hvalid & (d & Hd) & Hlast & Hvc).
  rewrite Hd.
  destruct (processFrame_cells st (fst it) d Hvalid) as (-> & _).
  rewrite Hvc. unfold track_no_change. rewrite Hlast. cbn [fst].
  replace (5 <=? count_of (noChangeCount st) b + 1)%nat with true
    by (symmetry; apply Nat.leb_le; lia).
  apply get_set_score.
Qed.

(** C5. Within a run, take iterations in which no change is ever attributed
    to [b], no-change is attributed to [b] at least five times, the last
    time in the last iteration.  Then the next prompt reports at most 0.20
    for [b] in its previous-confidence table and lists [b] in
    [buttonsToAvoid].  And an iteration that attributes a change to [b]
    clears the no-change counter of [b] and takes [b] out of
    [buttonsToAvoid]. *)
Theorem no_change_penalty (b : GBAButton)
  (before iterations : list (string * option Steps.AIDecision))
  (last : string * option Steps.AIDecision) :
  let st := run initial before in
  outcomes b change_detected st (iterations ++ [last]) = 0%nat ->
  (5 <= outcomes b no_change st (iterations ++ [last]))%nat ->
  observed (run st iterations) last = Some (b, no_change) ->
  (let next := request (run st (iterations ++ [last])) in
   (exists v, get_score (previousConfidenceScores next) b = Some v /\ v <= 0.2)
   /\ In b (req_buttonsToAvoid next))
  /\ (forall st' it,
        observed st' it = Some (b, change_detected) ->
        count_of (noChangeCount (processFrame st' (fst it) (snd it))) b = 0%nat
        /\ ~ In b (buttonsToAvoid (processFrame st' (fst it) (snd it)))).
Proof.
  intros st Hchange Hcount Hlast. split.
  - cbv zeta. simpl.
    assert (Hinv : avoid_invariant (run st (iterations ++ [last])))
      by (apply avoid_invariant_run, avoid_invariant_run, avoid_invariant_initial).
    pose proof (count_run b st (iterations ++ [last]) Hchange) as Hfinal.
    assert (Hlisted : (1 <= count_of (noChangeCount (run st (iterations ++ [last]))) b)%nat)
      by lia.
    rewrite outcomes_app in Hchange, Hcount.
    simpl in Hcount. rewrite Hlast, eqb_refl in Hcount.
    assert (Hmid : (4 <= count_of (noChangeCount (run st iterations)) b)%nat)
      by (rewrite count_run by lia; lia).
    split.
    + exists 0.2. split; [|apply Qle_refl].
      rewrite run_app. simpl. apply penalty_step; assumption.
    + apply Hinv, Hlisted.
  - intros st' it Hobs. split.
    + rewrite count_step, Hobs, eqb_refl. reflexivity.
    + destruct (observed_Some st' it b change_detected Hobs)
        as (Hvalid & (d & Hd) & Hl & Hvc).
      rewrite Hd.
      destruct (processFrame_cells st' (fst it) d Hvalid) as (_ & _ & -> & _).
      rewrite Hvc. unfold track_no_change. rewrite Hl. simpl.
      intros Hin. apply filter_In in Hin as [_ Hin].
      rewrite eqb_refl in Hin. discriminate.
Qed.

Lemma no_change_penalty_witness :
  get_score
    (previousConfidenceScores
       (request (run initial (repeat (frame_of "A", Some (press_once Btn.RIGHT)) 6))))
    Btn.RIGHT = Some 0.2
  /\ In Btn.RIGHT
       (req_buttonsToAvoid
          (request (run initial (repeat (frame_of "A", Some (press_once Btn.RIGHT)) 6)))).
Proof.
  destruct (no_change_penalty Btn.RIGHT []
              (repeat (frame_of "A", Some (press_once Btn.RIGHT)) 5)
              (frame_of "A", Some (press_once Btn.RIGHT)))
    as [[_ Hin] _].
  - vm_compute. reflexivity.
  - apply Nat.leb_le. vm_compute. reflexivity.
  - vm_compute. reflexivity.
  - split; [vm_compute; reflexivity | exact Hin].
Defined.

(** ** Bans *)

Lemma press_ban_counts (acc : gmap GBAButton nat * gmap GBAButton nat)
  (step : Steps.ButtonSequenceStep) :
  ban_counts_at_most 2 (snd acc) -> ban_counts_at_most 2 (snd (press acc step)).
Proof.
  destruct acc as [pc bn]. unfold press. cbn [snd].
  destruct (10 <=? count_of pc (Steps.step_button step) + 1)%nat; cbn [snd];
    [|auto].
  intros H b n. rewrite lookup_insert.
  destruct (decide (Steps.step_button step = b)); [intros [= <-]; lia | apply H].
Qed.

Lemma fold_press_ban_counts (steps : list Steps.ButtonSequenceStep)
  (acc : gmap GBAButton nat * gmap GBAButton nat) :
  ban_counts_at_most 2 (snd acc) ->
  ban_counts_at_most 2 (snd (fold_left press steps acc)).
Proof.
  revert acc. induction steps as [|s steps IH]; intros acc H; simpl; [exact H|].
  apply IH, press_ban_counts, H.
Qed.

Lemma decrement_ban_counts (banned : gmap GBAButton nat) :
  ban_counts_at_most 2 banned -> ban_counts_at_most 1 (decrement_bans banned).
Proof.
  intros H b n. unfold decrement_bans. rewrite lookup_omap.
  destruct (banned !! b) as [m|] eqn:E; simpl; [|discriminate].
  specialize (H b m E).
  destruct (Nat.ltb_spec 1 m); [intros [= <-]; lia | discriminate].
Qed.

(** In every state of a run a ban has at most one prompt left: the
    iteration that sets a ban to 2 counts it down to 1 before it ends. *)
Lemma ban_counts_run (its : list (string * option Steps.AIDecision)) :
  ban_counts_at_most 1 (bannedButtons (run initial its)).
Proof.
  assert (H : forall st, ban_counts_at_most 1 (bannedButtons st) ->
                         ban_counts_at_most 1 (bannedButtons (run st its))).
  { induction its as [|it its IH]; intros st Hst; [exact Hst|].
    simpl. apply IH. unfold processFrame.
    destruct (isValidFrame (fst it)) eqn:Hvalid; simpl negb; cbv iota; [|exact Hst].
    destruct (snd it) as [d|]; [|exact Hst].
    destruct (processFrame_cells st (fst it) d Hvalid) as (_ & _ & _ & _ & _ & _ & E).
    unfold processFrame in E. rewrite Hvalid in E. simpl negb in E. cbv iota in E.
    rewrite E. apply decrement_ban_counts, fold_press_ban_counts.
    intros b n Hb. specialize (Hst b n Hb). simpl. lia. }
  apply H. intros b n. simpl. rewrite lookup_empty. discriminate.
Qed.


End AgentCardSpec.

(* ===================================================================== *)
(** * Properties of the key patterns *)
(* ===================================================================== *)

Module KeysSpec.
Import Keys.

Lemma list_ascii_app (s t : string) :
  list_ascii_of_string (s ++ t)
  = (list_ascii_of_string s ++ list_ascii_of_string t)%list.
Proof. induction s as [|c s IH]; simpl; [reflexivity | rewrite IH; reflexivity]. Qed.

Lemma list_ascii_inj (s t : string) :
  list_ascii_of_string s = list_ascii_of_string t -> s = t.
Proof.
  intros H. rewrite <- (string_of_list_ascii_of_string s),
    <- (string_of_list_ascii_of_string t), H. reflexivity.
Qed.

Lemma compatible_app (x y u v : list ascii) :
  (x ++ u = y ++ v)%list -> compatible x y = true.
Proof.
  revert y. induction x as [|a x IH]; intros [|b y]; simpl; try reflexivity.
  intros [= -> H]. rewrite Ascii.eqb_refl. simpl. apply (IH y H).
Qed.

Lemma parts_incompatible (p q : string) :
  In p parts -> In q parts ->
  compatible (reversed_tail p) (reversed_tail q) = true -> p = q.
Proof.
  unfold parts. simpl.
  intros Hp Hq.
  repeat (destruct Hp as [<-|Hp]; [|]); try contradiction;
    repeat (destruct Hq as [<-|Hq]; [|]); try contradiction;
    intros H; try reflexivity; vm_compute in H; discriminate H.
Qed.

Lemma tail_inj (a b t u : string) :
  a ++ t = b ++ u ->
  compatible (rev (list_ascii_of_string t)) (rev (list_ascii_of_string u)) = true
  /\ (t = u -> a = b).
Proof.
  intros H.
  apply (f_equal list_ascii_of_string) in H.
  rewrite (list_ascii_app a), (list_ascii_app b) in H.
  apply (f_equal (@rev ascii)) in H.
  rewrite (rev_app_distr (list_ascii_of_string a)),
    (rev_app_distr (list_ascii_of_string b)) in H.
  split.
  - apply (compatible_app _ _ _ _ H).
  - intros <-. apply app_inv_head in H. apply (f_equal (@rev ascii)) in H.
    rewrite !rev_involutive in H. apply list_ascii_inj, H.
Qed.

Lemma agent_key_inj (a b p q : string) :
  In p parts -> In q parts ->
  agent_key a p = agent_key b q -> p = q /\ a = b.
Proof.
  intros Hp Hq H. unfold agent_key in H.
  change ("agent:" ++ a ++ ":" ++ p) with ("agent:" ++ (a ++ (":" ++ p))) in H.
  change ("agent:" ++ b ++ ":" ++ q) with ("agent:" ++ (b ++ (":" ++ q))) in H.
  simpl (append "agent:" _) in H. injection H as H.
  destruct (tail_inj a b (":" ++ p) (":" ++ q) H) as [Hc Hab].
  assert (E : p = q) by (apply parts_incompatible; assumption).
  subst q. split; [reflexivity | apply Hab; reflexivity].
Qed.

Lemma pattern_part (i : nat) (f : string -> string) :
  nth_error agent_patterns i = Some f ->
  exists p, nth_error parts i = Some p /\ In p parts /\ forall a, f a = agent_key a p.
Proof.
  unfold agent_patterns, parts.
  do 11 (destruct i as [|i];
         [intros [= <-]; eexists; split; [reflexivity|];
          split; [simpl; tauto | reflexivity]|]).
  destruct i; discriminate.
Qed.

Lemma NoDup_parts : List.NoDup parts.
Proof.
  unfold parts.
  repeat (constructor; [simpl; intuition discriminate|]). constructor.
Qed.

(** X1. No two keys of the store coincide unless they come from the same
    pattern and the same agent id: each pattern is injective in the agent
    id, two different patterns never give the same key whatever the ids
    (ids may hold colons), and no agent key is a leaderboard key. *)
Theorem keys_never_collide (i j : nat) (f g : string -> string) (a b : string) :
  nth_error agent_patterns i = Some f ->
  nth_error agent_patterns j = Some g ->
  (f a = g b -> i = j /\ a = b)
  /\ ~ In (f a) leaderboard_keys.
Proof.
  intros Hf Hg.
  destruct (pattern_part i f Hf) as (p & Hp & Hpin & Ef).
  destruct (pattern_part j g Hg) as (q & Hq & Hqin & Eg).
  split.
  - rewrite Ef, Eg. intros H.
    destruct (agent_key_inj a b p q Hpin Hqin H) as [-> ->].
    split; [|reflexivity].
    assert (Hi : i < List.length parts) by (apply nth_error_Some; congruence).
    assert (Hj : j < List.length parts) by (apply nth_error_Some; congruence).
    apply (proj1 (List.NoDup_nth_error parts) NoDup_parts i j Hi). congruence.
  - rewrite Ef. unfold agent_key, leaderboard_keys. simpl.
    intros [H|[H|[H|[]]]]; discriminate H.
Qed.

Lemma keys_never_collide_witness :
  String.eqb (agentMemStash "agent:1") (agentDecisionLog "agent:1") = false
  /\ String.eqb (agentState "a:state") (agentState "a") = false.
Proof.
  split.
  - destruct (String.eqb_spec (agentMemStash "agent:1") (agentDecisionLog "agent:1"))
      as [E|_]; [|reflexivity].
    destruct (keys_never_collide 9 10 agentMemStash agentDecisionLog
                "agent:1" "agent:1" eq_refl eq_refl) as [H _].
    destruct (H E) as [Hij _]. discriminate Hij.
  - destruct (String.eqb_spec (agentState "a:state") (agentState "a"))
      as [E|_]; [|reflexivity].
    destruct (keys_never_collide 0 0 agentState agentState
                "a:state" "a" eq_refl eq_refl) as [H _].
    destruct (H E) as [_ Hab]. discriminate Hab.
Defined.

End KeysSpec.

(* ===================================================================== *)
(** * Further properties of the memory store *)
(* ===================================================================== *)

Module MemStashRouteSpec.
Import JsString Redis MemStash MemStashRoute.
Local Open Scope js_scope.

(** ** The decision log is a window on the decisions *)

Lemma lastN_short {A} (n : nat) (l : list A) :
  (List.length l <= n)%nat -> lastN n l = l.
Proof.
  intros H. unfold lastN.
  replace (List.length l - n)%nat with 0%nat by lia. reflexivity.
Qed.

Lemma lastN_window {A} (n : nat) (l l' : list A) :
  lastN n (lastN n l ++ l') = lastN n (l ++ l').
Proof.
  destruct (Nat.le_gt_cases (List.length l) n) as [H|H].
  - rewrite (lastN_short n l H). reflexivity.
  - unfold lastN at 1 3.
    rewrite !List.length_app, MemStashSpec.length_lastN.
    replace (Nat.min n (List.length l)) with n by lia.
    replace (n + List.length l' - n)%nat with (List.length l') by lia.
    replace (List.length l + List.length l' - n)%nat
      with (List.length l' + (List.length l - n))%nat by lia.
    rewrite <- List.skipn_skipn. f_equal.
    unfold lastN. rewrite List.skipn_app.
    replace (List.length l - n - List.length l)%nat with 0%nat by lia.
    reflexivity.
Qed.

Lemma map_lastN {A B} (f : A -> B) (n : nat) (l : list A) :
  map f (lastN n l) = lastN n (map f l).
Proof. unfold lastN. rewrite List.skipn_map, List.length_map. reflexivity. Qed.

Lemma log_all_healthy agentId (decisions : list (string * string)) w :
  faults w = [] ->
  faults (log_all agentId decisions w) = []
  /\ memstash (log_all agentId decisions w) = memstash w
  /\ (forall other, other <> agentId ->
        decisionlog (log_all agentId decisions w) !! other = decisionlog w !! other)
  /\ lastN 500 (map logged (stored_log (log_all agentId decisions w) agentId))
     = lastN 500 (map logged (stored_log w agentId) ++ decisions)
  /\ (decisions <> [] ->
      (List.length (stored_log (log_all agentId decisions w) agentId) <= 500)%nat).
Proof.
  revert w. induction decisions as [|[button reasoning] rest IH]; intros w Hf.
  - simpl. rewrite app_nil_r. repeat split; try reflexivity; try assumption.
    intros H; contradiction.
  - simpl. rewrite (MemStashSpec.appendDecisionLog_healthy _ _ _ _ Hf). simpl.
    set (w1 := with_decisionlog _ w).
    destruct (IH w1 Hf) as (IHf & IHm & IHo & IHl & IHn).
    assert (Hlog : stored_log w1 agentId
                   = lastN 500
                       (stored_log w agentId
                        ++ [ {| step := S (List.length (stored_log w agentId));
                                Redis.button := button;
                                Redis.reasoning := reasoning;
                                timestamp := clock w |} ])).
    { unfold stored_log at 1, w1. simpl. rewrite lookup_insert_eq. reflexivity. }
    split; [exact IHf|]. split; [exact IHm|]. split; [|split].
    + intros other Hne. rewrite (IHo other Hne). unfold w1. simpl.
      apply lookup_insert_ne. congruence.
    + rewrite IHl, Hlog, map_lastN, lastN_window, List.map_app. simpl.
      rewrite <- app_assoc. reflexivity.
    + intros _. destruct rest as [|d rest'].
      * simpl. rewrite Hlog, MemStashSpec.length_lastN. lia.
      * apply IHn. discriminate.
Qed.

(** X2. With a backend that answers, whatever decisions are logged for an
    agent, the stored log holds the most recent 500 of them in order (the
    log found at the start counting as older decisions), never more than
    500 entries; the notes and the logs of the other agents stay as they
    were. *)
Theorem decision_log_is_a_window
  (agentId : string) (decisions : list (string * string)) (w : World) :
  faults w = [] ->
  (List.length (stored_log w agentId) <= 500)%nat ->
  let w' := log_all agentId decisions w in
  map logged (stored_log w' agentId)
  = lastN 500 (map logged (stored_log w agentId) ++ decisions)
  /\ (List.length (stored_log w' agentId) <= 500)%nat
  /\ memstash w' = memstash w
  /\ (forall other, other <> agentId ->
        decisionlog w' !! other = decisionlog w !! other).
Proof.
  intros Hf Hlen. cbv zeta.
  destruct (log_all_healthy agentId decisions w Hf) as (_ & Hm & Ho & Hl & Hn).
  assert (Hbound : (List.length (stored_log (log_all agentId decisions w) agentId)
                    <= 500)%nat).
  { destruct decisions as [|d rest]; [exact Hlen | apply Hn; discriminate]. }
  split; [|auto].
  rewrite <- Hl. symmetry. apply lastN_short. rewrite List.length_map. exact Hbound.
Qed.

Lemma decision_log_is_a_window_witness :
  map logged
    (stored_log (log_all "agent-1" [("A", "talk"); ("UP", "walk")] empty_world)
       "agent-1")
  = [("A", "talk"); ("UP", "walk")].
Proof.
  destruct (decision_log_is_a_window "agent-1" [("A", "talk"); ("UP", "walk")]
              empty_world eq_refl) as [H _].
  - apply Nat.leb_le. reflexivity.
  - rewrite H. reflexivity.
Defined.

(** ** The two reads of the notes *)

(** X3. The text read by [getMemStash] is the rendering of what
    [getStructuredNotes] reads, whatever the store holds (nothing, a notes
    object, a legacy string) and whether or not the backend answers; both
    reads leave the same world behind. *)
Theorem getMemStash_formats_the_structured_read (agentId : string) (w : World) :
  exists notes w',
    getStructuredNotes agentId w = (Ok notes, w')
    /\ getMemStash agentId w = (Ok (formatNotesForPrompt notes), w').
Proof.
  unfold getMemStash, getStructuredNotes, try_catch, bind, get_memstash, call, ret.
  destruct (faults w) as [|[] fs]; simpl.
  - destruct (memstash w !! agentId) as [[n|[|c s]]|]; simpl; eauto.
  - eauto.
  - destruct (memstash w !! agentId) as [[n|[|c s]]|]; simpl; eauto.
Qed.

(** ** Truncation for the prompt *)

Lemma append_cons (c : ascii) (a b : string) :
  (String c a ++ b = String c (a ++ b))%string.
Proof. reflexivity. Qed.

Lemma slice0_prefix (n : nat) (s : string) :
  exists rest, s = (slice0 n s ++ rest)%string
               /\ ((n <= String.length s)%nat -> String.length (slice0 n s) = n)
               /\ ((String.length s <= n)%nat -> rest = ""%string).
Proof.
  unfold slice0. revert s. induction n as [|n IH]; intros s.
  - exists s. destruct s; simpl; repeat split; auto.
    intros H. lia.
  - destruct s as [|c s]; simpl.
    + exists ""%string. repeat split; auto. intros H; lia.
    + destruct (IH s) as (rest & E & Hl & Hr). exists rest.
      split; [rewrite append_cons; f_equal; exact E|]. split; intros H.
      * f_equal. apply Hl. lia.
      * apply Hr. lia.
Qed.

Lemma lastIndexOf_spec (c : ascii) (s : string) (i : nat) :
  lastIndexOf c s = Some i ->
  exists rest, s = (slice0 i s ++ String c rest)%string
               /\ String.length (slice0 i s) = i.
Proof.
  unfold slice0. revert i. induction s as [|d s IH]; intros i; simpl; [discriminate|].
  destruct (lastIndexOf c s) as [j|].
  - intros [= <-]. destruct (IH j eq_refl) as (rest & E & Hl).
    exists rest. split; [rewrite append_cons; f_equal; exact E | simpl; f_equal; exact Hl].
  - destruct (Ascii.eqb_spec d c) as [->|]; [|discriminate].
    intros [= <-]. exists s. split; reflexivity.
Qed.

Lemma length_append (a b : string) :
  String.length (a ++ b) = (String.length a + String.length b)%nat.
Proof.
  induction a as [|c a IH]; [reflexivity|].
  rewrite append_cons. simpl. rewrite IH. reflexivity.
Qed.

Lemma append_assoc (a b c : string) : ((a ++ b) ++ c = a ++ (b ++ c))%string.
Proof.
  induction a as [|x a IH]; [reflexivity|].
  rewrite !append_cons, IH. reflexivity.
Qed.

Lemma append_empty (a : string) : (a ++ "" = a)%string.
Proof.
  induction a as [|x a IH]; [reflexivity|].
  rewrite append_cons, IH. reflexivity.
Qed.

(** X4. What [getMemStashForPrompt] keeps of the notes is a prefix of them:
    all of it when it has at most 1000 characters; otherwise more than 900
    and at most 1000 characters, and when fewer than 1000 are kept the cut
    is at a line break, which is dropped with the rest. *)
Theorem prompt_truncation_keeps_a_prefix (content : string) :
  exists rest,
    content = (truncate_for_prompt content ++ rest)%string
    /\ ((String.length content <= 1000)%nat -> rest = ""%string)
    /\ ((1000 < String.length content)%nat ->
        (900 < String.length (truncate_for_prompt content) <= 1000)%nat
        /\ ((String.length (truncate_for_prompt content) < 1000)%nat ->
            exists rest', rest = String newline rest')).
Proof.
  unfold truncate_for_prompt.
  destruct content as [|c0 content0]; simpl negb; cbv iota.
  { exists ""%string. split; [reflexivity|]. split; [reflexivity|].
    simpl. intros H. lia. }
  set (content := String c0 content0).
  unfold MEMSTASH_PROMPT_LIMIT.
  destruct (Nat.leb_spec (String.length content) 1000) as [Hshort|Hlong].
  { exists ""%string. split.
    - symmetry. apply append_empty.
    - split; [reflexivity | intros H; lia]. }
  destruct (slice0_prefix 1000 content) as (rest & E & Hl & _).
  assert (Hlen : String.length (slice0 1000 content) = 1000%nat) by (apply Hl; lia).
  destruct (lastIndexOf newline (slice0 1000 content)) as [i|] eqn:Hi.
  - destruct (lastIndexOf_spec _ _ _ Hi) as (r & Er & Hli).
    destruct (Nat.ltb_spec (1000 - 100) i) as [Hnear|Hfar].
    + exists (String newline r ++ rest)%string. split.
      * rewrite <- append_assoc, <- Er. exact E.
      * split; [intros H; lia|]. intros _. rewrite Hli.
        assert (i < 1000)%nat.
        { rewrite Er, length_append, Hli in Hlen. simpl in Hlen. lia. }
        split; [lia|]. intros _. exists (r ++ rest)%string. reflexivity.
    + exists rest. split; [exact E|]. split; [intros H; lia|].
      intros _. rewrite Hlen. split; [lia | intros H; lia].
  - exists rest. split; [exact E|]. split; [intros H; lia|].
    intros _. rewrite Hlen. split; [lia | intros H; lia].
Qed.

(** ** Legacy notes: the newest entry goes on top *)

Lemma split_single (sep : ascii) (s : string) :
  List.length (split sep s) = 1%nat -> split sep s = [s].
Proof.
  induction s as [|c s IH]; simpl; [reflexivity|].
  pose proof (MemStashSpec.split_nonempty sep s) as Hne.
  destruct (Ascii.eqb c sep).
  - destruct (split sep s); [congruence | discriminate].
  - destruct (split sep s) as [|h [|h' t]]; [congruence | | discriminate].
    intros _. rewrite (IH eq_refl) in *. injection IH as ->; [|reflexivity].
    reflexivity.
Qed.

Lemma split_app_single (sep : ascii) (x y : string) :
  split sep x = [x] ->
  split sep (x ++ y)
  = match split sep y with
    | h :: t => (x ++ h)%string :: t
    | [] => [x]
    end.
Proof.
  induction x as [|c x IH]; intros Hx.
  - change (("" ++ y)%string) with y.
    pose proof (MemStashSpec.split_nonempty sep y) as Hne.
    destruct (split sep y); [congruence | reflexivity].
  - rewrite append_cons. simpl in *.
    destruct (Ascii.eqb c sep); [discriminate|].
    pose proof (MemStashSpec.split_nonempty sep x) as Hne.
    destruct (split sep x) as [|h [|h' t]] eqn:Ex; [congruence | | discriminate].
    injection Hx as ->. rewrite (IH eq_refl).
    destruct (split sep y); reflexivity.
Qed.

Lemma single_app (sep : ascii) (x y : string) :
  split sep x = [x] -> split sep y = [y] -> split sep (x ++ y) = [(x ++ y)%string].
Proof. intros Hx Hy. rewrite (split_app_single _ _ _ Hx), Hy. reflexivity. Qed.

Lemma digit_single (n : Z) :
  (0 <= n < 10)%Z -> split newline (digit n) = [digit n].
Proof.
  intros H.
  rewrite <- (Z2Nat.id n) by lia.
  assert (Z.to_nat n < 10)%nat as Hn by lia.
  revert Hn. generalize (Z.to_nat n). intros k Hn.
  do 10 (destruct k as [|k]; [reflexivity|]). lia.
Qed.

Lemma two_digits_single (n : Z) :
  (0 <= n < 100)%Z -> split newline (two_digits n) = [two_digits n].
Proof.
  intros H. unfold two_digits. apply single_app; apply digit_single.
  - split; [apply Z.div_pos; lia | apply Z.div_lt_upper_bound; lia].
  - apply Z.mod_pos_bound. lia.
Qed.

Lemma iso_time_single (ms : Z) : split newline (iso_time ms) = [iso_time ms].
Proof.
  unfold iso_time.
  set (s := ((ms / 1000) mod 86400)%Z).
  assert (0 <= s < 86400)%Z as Hs by (apply Z.mod_pos_bound; lia).
  apply single_app; [|apply single_app; [reflexivity|]];
    [|apply single_app; [|apply single_app; [reflexivity|]]];
    apply two_digits_single.
  - split; [apply Z.div_pos; lia | apply Z.div_lt_upper_bound; lia].
  - pose proof (Z.mod_pos_bound (s / 60) 60). lia.
  - pose proof (Z.mod_pos_bound s 60). lia.
Qed.

Lemma join_starts_with_hd (lines : list string) :
  starts_with (hd "" lines) (join nl lines).
Proof.
  destruct lines as [|x [|y l]]; unfold join; simpl.
  - exists ""%string. reflexivity.
  - exists ""%string. symmetry. apply append_empty.
  - eexists. reflexivity.
Qed.

Lemma drop_lines_starts_with_hd (fuel : nat) (lines : list string) :
  starts_with (hd "" lines) (drop_lines fuel lines (join nl lines)).
Proof.
  revert lines. induction fuel as [|fuel IH]; intros lines; simpl.
  - apply join_starts_with_hd.
  - destruct (_ <? _)%nat; simpl; [|apply join_starts_with_hd].
    destruct (Nat.ltb_spec 1 (List.length lines)) as [Hmany|Hone].
    + rewrite <- (MemStashSpec.hd_removelast "" lines) by lia. apply IH.
    + apply join_starts_with_hd.
Qed.

Lemma join_split (s : string) : join nl (split newline s) = s.
Proof.
  unfold join. induction s as [|c s IH]; [reflexivity|]. simpl.
  pose proof (MemStashSpec.split_nonempty newline s) as Hne.
  destruct (Ascii.eqb_spec c newline) as [->|Hc].
  - destruct (split newline s) as [|h t] eqn:E; [congruence|].
    change (String.concat nl ("" :: h :: t))%string
      with (String newline (String.concat nl (h :: t))).
    rewrite IH. reflexivity.
  - destruct (split newline s) as [|h [|h' t]] eqn:E; [congruence| |].
    + simpl in *. rewrite IH. reflexivity.
    + change (String.concat nl (String c h :: h' :: t))
        with (String c (String.concat nl (h :: h' :: t))).
      rewrite IH. reflexivity.
Qed.

(** The text kept by a legacy append begins with the first line of what
    was put together, and is that line alone when it is longer than the
    limit. *)
Lemma legacy_update_top (time content legacyText : string) :
  split newline (trim content) = [trim content] ->
  split newline time = [time] ->
  let newEntry := ("[" ++ time ++ "] " ++ trim content)%string in
  let kept := legacy_update time content legacyText in
  starts_with newEntry kept
  /\ ((String.length kept <= MEMSTASH_MAX_TOTAL)%nat \/ kept = newEntry)
  /\ ((String.length (newEntry ++ nl ++ legacyText) <= MEMSTASH_MAX_TOTAL)%nat ->
      kept = if truthy legacyText then (newEntry ++ nl ++ legacyText)%string
             else newEntry).
Proof.
  intros Hc Ht newEntry kept.
  assert (Hentry : split newline newEntry = [newEntry]).
  { unfold newEntry. repeat apply single_app; auto. }
  set (u := if truthy legacyText then (newEntry ++ nl ++ legacyText)%string
            else newEntry).
  assert (Hhd : hd ""%string (split newline u) = newEntry).
  { unfold u. destruct (truthy legacyText); [|rewrite Hentry; reflexivity].
    rewrite (split_app_single _ _ _ Hentry).
    change (nl ++ legacyText)%string with (String newline legacyText).
    simpl. apply append_empty. }
  assert (Hkept : kept = if (MEMSTASH_MAX_TOTAL <? String.length u)%nat
                         then drop_lines (List.length (split newline u))
                                (split newline u) u
                         else u) by reflexivity.
  destruct (Nat.ltb_spec MEMSTASH_MAX_TOTAL (String.length u)) as [Hlong|Hshort].
  - assert (Hdrop : kept = drop_lines (List.length (split newline u))
                             (split newline u) (join nl (split newline u)))
      by (rewrite join_split; exact Hkept).
    clear Hkept. rename Hdrop into Hkept.
    split; [|split].
    + rewrite Hkept, <- Hhd. apply drop_lines_starts_with_hd.
    + pose proof (MemStashSpec.drop_lines_result
                    (List.length (split newline u)) (split newline u)) as Hr.
      rewrite <- Hkept, Hhd in Hr. apply Hr.
      pose proof (MemStashSpec.split_nonempty newline u).
      destruct (split newline u); [congruence | simpl; lia].
    + intros Hfit. exfalso. unfold u in Hlong.
      destruct (truthy legacyText); [lia|].
      rewrite length_append in Hfit. lia.
  - split; [|split].
    + rewrite Hkept, <- Hhd. pose proof (join_starts_with_hd (split newline u)) as H.
      rewrite join_split in H. exact H.
    + left. rewrite Hkept. exact Hshort.
    + intros _. exact Hkept.
Qed.

Lemma trim_truthy (text : string) : trim text <> ""%string -> truthy text = true.
Proof. destruct text; [intros H; contradiction H; reflexivity | reflexivity]. Qed.

(** X5. A legacy note appended through a backend that answers goes on top
    of the stored legacy text: when the trimmed note is one line, the text
    kept begins with the stamped entry [[HH:MM:SS] note]; it is at most 5000
    characters long or that entry alone; when entry and old text fit in 5000
    characters nothing is dropped.  The structured fields and the notes of
    the other agents are kept. *)
Theorem legacy_note_goes_on_top (agentId text : string) (w : World) :
  single_line (trim text) ->
  trim text <> ""%string ->
  let before := stored_notes w agentId in
  let w' := snd (appendMemStash agentId (inl text) (healthy w)) in
  let after := stored_notes w' agentId in
  let old := default ""%string (_legacyText before) in
  exists kept,
    _legacyText after = Some kept
    /\ starts_with (legacy_entry w text) kept
    /\ ((String.length kept <= 5000)%nat \/ kept = legacy_entry w text)
    /\ ((String.length (legacy_entry w text ++ nl ++ old) <= 5000)%nat ->
        kept = if truthy old then (legacy_entry w text ++ nl ++ old)%string
               else legacy_entry w text)
    /\ after = set_legacyText before kept
    /\ (forall other, other <> agentId ->
          memstash w' !! other = memstash w !! other).
Proof.
  intros Hline Hne. cbv zeta.
  apply split_single in Hline.
  pose proof (trim_truthy text Hne) as Htext.
  assert (Htrim : truthy (trim text) = true).
  { destruct (trim text); [contradiction Hne; reflexivity | reflexivity]. }
  destruct (legacy_update_top (iso_time (clock w)) text
              (default ""%string (_legacyText (stored_notes w agentId)))
              Hline (iso_time_single (clock w))) as (Htop & Hbound & Hfit).
  set (kept := legacy_update (iso_time (clock w)) text
                 (default ""%string (_legacyText (stored_notes w agentId)))) in *.
  assert (Hw : appendMemStash agentId (inl text) (healthy w)
               = (Ok tt,
                  with_memstash
                    (<[agentId := StashNotes
                                    (set_legacyText (stored_notes w agentId) kept)]>
                       (memstash w)) (healthy w))).
  { unfold appendMemStash. rewrite Htext, Htrim. simpl negb. cbv iota.
    unfold kept. rewrite MemStashSpec.stored_notes_read.
    unfold getStructuredNotes, try_catch, bind, get_memstash, set_memstash,
      call, ret, now.
    simpl. destruct (memstash w !! agentId) as [[m|s]|]; simpl; try reflexivity.
    destruct (truthy s); reflexivity. }
  rewrite Hw. simpl snd. exists kept.
  split; [|split; [exact Htop|split; [exact Hbound|split; [exact Hfit|split]]]].
  - rewrite MemStashSpec.stored_notes_read. simpl. rewrite lookup_insert_eq.
    reflexivity.
  - rewrite (MemStashSpec.stored_notes_read (with_memstash _ _)). simpl.
    rewrite lookup_insert_eq. reflexivity.
  - intros other Hother. simpl. apply lookup_insert_ne. congruence.
Qed.

Lemma legacy_note_goes_on_top_witness :
  _legacyText (stored_notes
                 (snd (appendMemStash "agent-1" (inl " exit is north ")
                         (healthy empty_world))) "agent-1")
  = Some "[00:00:00] exit is north"%string.
Proof.
  destruct (legacy_note_goes_on_top "agent-1" " exit is north " empty_world)
    as (kept & E & _ & _ & Hfit & _).
  - reflexivity.
  - discriminate.
  - rewrite E. f_equal. apply Hfit. apply Nat.leb_le. reflexivity.
Defined.

(** ** The route of the notes *)

(** X6. The route of the notes never answers 500: reading answers 200 with
    what [getMemStash] gives, and clearing answers 200 with [success: true]
    whatever the backend does.  When the backend answers, clearing leaves
    the agent with no notes and an empty decision log, so that its next
    logged decision is step 1, and the other agents keep theirs; when both
    deletions fail, success is reported all the same and the store is as
    before. *)
Theorem memstash_route_never_fails (id : string) (w : World) :
  (exists content w',
      getMemStash id w = (Ok content, w')
      /\ GET id w = (Ok {| status := 200; body := content |}, w'))
  /\ exists w',
      DELETE id w = (Ok {| status := 200; body := true |}, w')
      /\ (faults w = [] ->
          stored_notes w' id = emptyNotes
          /\ stored_log w' id = []
          /\ fst (getMemStash id w') = Ok ""%string
          /\ (forall button reasoning,
                fst (appendDecisionLog id button reasoning w') = Ok 1%nat)
          /\ (forall other, other <> id ->
                memstash w' !! other = memstash w !! other
                /\ decisionlog w' !! other = decisionlog w !! other))
      /\ (forall fs, faults w = true :: true :: fs -> same_store w w').
Proof.
  split.
  - destruct (MemStashSpec.try_catch_ret_never_throws
                (let* content := get_memstash id in
                 match content with
                 | None => ret ""%string
                 | Some (StashNotes n) => ret (formatNotesForPrompt n)
                 | Some (StashText s) => ret s
                 end)%js ""%string w) as (c & w' & E).
    change (getMemStash id w = (Ok c, w')) in E.
    exists c, w'. split; [exact E|].
    unfold GET, try_catch, bind, ret. rewrite E. reflexivity.
  - unfold DELETE, clearMemStash, clearDecisionLog, try_catch, bind, ret,
      del_memstash, del_decisionlog, call.
    destruct (faults w) as [|[] [|[] fs]] eqn:Hf; simpl;
      try rewrite Hf; simpl; eexists; (split; [reflexivity|]);
      (split; [|intros fs' [=]; subst; split; reflexivity]); try discriminate.
    intros _.
    split; [|split; [|split; [|split]]].
    + rewrite MemStashSpec.stored_notes_read. simpl.
      rewrite lookup_delete_eq. reflexivity.
    + unfold stored_log. simpl. rewrite lookup_delete_eq. reflexivity.
    + unfold getMemStash, try_catch, bind, get_memstash, call, ret. simpl.
      rewrite Hf. simpl. rewrite lookup_delete_eq. reflexivity.
    + intros button reasoning.
      rewrite MemStashSpec.appendDecisionLog_healthy by exact Hf.
      unfold stored_log. simpl. rewrite lookup_delete_eq. reflexivity.
    + intros other Hother. simpl.
      split; apply lookup_delete_ne; congruence.
Qed.

End MemStashRouteSpec.

(* ===================================================================== *)
(** * Further properties of the frame fingerprint *)
(* ===================================================================== *)

Module FrameHashMoreSpec.
Import JsString FrameHash FrameHashRead.
Local Open Scope Z_scope.

Lemma toInt32_range (z : Z) : - 2 ^ 31 <= toInt32 z < 2 ^ 31.
Proof.
  unfold toInt32. pose proof (Z.mod_pos_bound (z + 2 ^ 31) (2 ^ 32)). lia.
Qed.

Lemma hash_step_range (h : Z) (c : option Z) :
  - 2 ^ 31 <= hash_step h c < 2 ^ 31.
Proof. destruct c; simpl; [apply toInt32_range | lia]. Qed.

Lemma hash_loop_range (fuel : nat) (s : string) (i : nat) (h : Z) :
  - 2 ^ 31 <= h < 2 ^ 31 -> - 2 ^ 31 <= hash_loop fuel s i h < 2 ^ 31.
Proof.
  revert i h. induction fuel as [|fuel IH]; intros i h Hh; simpl; [exact Hh|].
  destruct (_ <? _)%nat; [|exact Hh].
  apply IH, hash_step_range.
Qed.

Lemma frame_hash_int_range (f : string) : - 2 ^ 31 <= frame_hash_int f < 2 ^ 31.
Proof. unfold frame_hash_int. apply hash_loop_range. lia. Qed.

(** ** Reading the hexadecimal rendering back *)

Lemma hex_val_digit (n : N) : (n < 16)%N -> hex_val (hex_digit n) = n.
Proof.
  intros H. unfold hex_val, hex_digit.
  destruct (N.ltb_spec n 10).
  - rewrite N_ascii_embedding by lia.
    destruct (N.ltb_spec (48 + n) 58); lia.
  - rewrite N_ascii_embedding by lia.
    destruct (N.ltb_spec (87 + n) 58); lia.
Qed.

Lemma parse_hex_digits (fuel : nat) :
  forall (n : N) (acc : string),
    (n < 2 ^ N.of_nat fuel)%N ->
    parse_hex 0%N (hex_digits fuel n acc) = parse_hex n acc.
Proof.
  induction fuel as [|fuel IH]; intros n acc Hn.
  - simpl in Hn. assert (n = 0%N) by lia. subst. reflexivity.
  - cbn [hex_digits].
    assert (Hmod : (n mod 16 < 16)%N) by (apply N.mod_lt; lia).
    assert (Hdiv : (n = 16 * (n / 16) + n mod 16)%N) by (apply N.div_mod; lia).
    destruct (N.eqb_spec (n / 16) 0) as [E|E].
    + cbn [parse_hex]. rewrite hex_val_digit by exact Hmod.
      f_equal. lia.
    + rewrite IH.
      * cbn [parse_hex]. rewrite hex_val_digit by exact Hmod. f_equal. lia.
      * rewrite Nat2N.inj_succ, N.pow_succ_r' in Hn.
        apply N.Div0.div_lt_upper_bound. lia.
Qed.

Lemma parse_hex_rendering (n : N) :
  parse_hex 0%N (hex_digits (S (N.to_nat (N.log2 n))) n "") = n.
Proof.
  rewrite parse_hex_digits; [reflexivity|].
  rewrite Nat2N.inj_succ, N2Nat.id.
  destruct (N.eq_dec n 0%N) as [->|Hn]; [reflexivity|].
  apply N.log2_spec. lia.
Qed.

Lemma hex_digits_head (fuel : nat) (n : N) (acc : string) :
  exists m rest, (m < 16)%N /\ hex_digits (S fuel) n acc = String (hex_digit m) rest.
Proof.
  revert n acc. induction fuel as [|fuel IH]; intros n acc.
  - exists (n mod 16)%N, acc. split; [apply N.mod_lt; lia|].
    simpl. destruct (n / 16 =? 0)%N; reflexivity.
  - change (hex_digits (S (S fuel)) n acc)
      with (let acc' := String (hex_digit (n mod 16)%N) acc in
            if (n / 16 =? 0)%N then acc' else hex_digits (S fuel) (n / 16)%N acc').
    cbv zeta. destruct (n / 16 =? 0)%N.
    + exists (n mod 16)%N, acc. split; [apply N.mod_lt; lia | reflexivity].
    + apply IH.
Qed.

Lemma hex_digit_not_minus (m : N) : (m < 16)%N -> hex_digit m <> "-"%char.
Proof.
  intros H E. apply (f_equal N_of_ascii) in E. unfold hex_digit in E.
  destruct (N.ltb_spec m 10); rewrite N_ascii_embedding in E by lia;
    change (N_of_ascii "-") with 45%N in E; lia.
Qed.

Lemma parseInt16_toString16 (z : Z) : parseInt16 (toString16 z) = z.
Proof.
  unfold toString16. destruct (Z.ltb_spec z 0) as [Hneg|Hpos].
  - change (("-" ++ ?s)%string) with (String "-" s). unfold parseInt16.
    rewrite parse_hex_rendering. lia.
  - destruct (hex_digits_head (N.to_nat (N.log2 (Z.to_N z))) (Z.to_N z) "")
      as (m & rest & Hm & E).
    unfold parseInt16.
    assert (Hparse := parse_hex_rendering (Z.to_N z)).
    rewrite E in *.
    destruct (Ascii.eqb_spec (hex_digit m) "-") as [Heq|Hne].
    + exfalso. exact (hex_digit_not_minus m Hm Heq).
    + destruct (hex_digit m) as [[] [] [] [] [] [] [] []];
        try (rewrite Hparse; lia).
      contradiction Hne. reflexivity.
Qed.

Lemma toString16_inj (x y : Z) : toString16 x = toString16 y -> x = y.
Proof.
  intros E. rewrite <- (parseInt16_toString16 x), <- (parseInt16_toString16 y), E.
  reflexivity.
Qed.

Lemma payload_empty_hash (f : string) :
  payload f = ""%string -> simpleFrameHash f = "0"%string.
Proof. unfold simpleFrameHash, frame_hash_int. intros ->. reflexivity. Qed.

(** X7. The fingerprint is the hexadecimal rendering of a signed 32-bit
    integer, and the rendering loses nothing: two frames have the same
    fingerprint exactly when their 32-bit hashes are equal.  A data URL
    without a payload after the comma has the fingerprint [0]. *)
Theorem fingerprint_is_int32_in_hex (f1 f2 : string) :
  - 2 ^ 31 <= frame_hash_int f1 < 2 ^ 31
  /\ parseInt16 (simpleFrameHash f1) = frame_hash_int f1
  /\ (simpleFrameHash f1 = simpleFrameHash f2
      <-> frame_hash_int f1 = frame_hash_int f2)
  /\ (payload f1 = ""%string -> simpleFrameHash f1 = "0"%string).
Proof.
  split; [apply frame_hash_int_range|].
  split; [apply parseInt16_toString16|].
  split; [|apply payload_empty_hash].
  unfold simpleFrameHash. split; [apply toString16_inj | intros ->; reflexivity].
Qed.

(** ** A change at one sampled position *)

Lemma toInt32_mod (z : Z) : toInt32 z mod M32 = z mod M32.
Proof.
  unfold toInt32, M32.
  rewrite Zminus_mod_idemp_l. f_equal. lia.
Qed.

Lemma hash_step_mod (h c : Z) :
  hash_step h (Some c) mod M32 = (31 * h + c) mod M32.
Proof.
  unfold hash_step. rewrite toInt32_mod.
  rewrite <- Zplus_mod_idemp_l, <- Zminus_mod_idemp_l.
  unfold shl5. rewrite toInt32_mod, Z.shiftl_mul_pow2 by lia.
  rewrite <- Zmult_mod_idemp_l, toInt32_mod, Zmult_mod_idemp_l.
  rewrite Zminus_mod_idemp_l, Zplus_mod_idemp_l. f_equal. lia.
Qed.

Lemma times31_mod (a b c : Z) :
  (31 * a + c) mod M32 = (31 * b + c) mod M32 -> a mod M32 = b mod M32.
Proof.
  intros E.
  assert (Hdiv : (M32 | 31 * (a - b))).
  { apply Z.mod_divide; [unfold M32; lia|].
    replace (31 * (a - b)) with ((31 * a + c) - (31 * b + c)) by lia.
    rewrite Zminus_mod, E, Z.sub_diag. reflexivity. }
  apply Z.gauss in Hdiv; [|reflexivity].
  apply Z.mod_divide in Hdiv; [|unfold M32; lia].
  rewrite <- (Z.sub_add b a), <- Zplus_mod_idemp_l, Hdiv. reflexivity.
Qed.

Lemma charCodeAt_range (s : string) (i : nat) (c : Z) :
  charCodeAt s i = Some c -> 0 <= c < 256.
Proof.
  unfold charCodeAt. destruct (String.get i s) as [a|]; [|discriminate].
  intros [= <-]. pose proof (N_ascii_bounded a). lia.
Qed.

Lemma charCodeAt_in_range (s : string) (i : nat) :
  (i < String.length s)%nat -> exists c, charCodeAt s i = Some c.
Proof.
  intros H. destruct (charCodeAt s i) as [c|] eqn:E; [eauto|].
  apply FrameHashSpec.charCodeAt_none_iff in E. lia.
Qed.

(** Two runs of the loop over payloads that differ at the sampled position
    [k] only: equal hashes before [k], hashes apart (modulo 2^32) after. *)
Lemma hash_loop_diverges (p1 p2 : string) (k : nat) (c1 c2 : Z) :
  (forall j, j <> k ->
     charCodeAt p1 (j * stride) = charCodeAt p2 (j * stride)) ->
  charCodeAt p1 (k * stride) = Some c1 ->
  charCodeAt p2 (k * stride) = Some c2 ->
  c1 <> c2 ->
  forall (fuel j : nat) (h1 h2 : Z),
    ((j <= k)%nat /\ h1 = h2 /\ (k < j + fuel)%nat)
    \/ ((k < j)%nat /\ h1 mod M32 <> h2 mod M32) ->
    hash_loop fuel p1 (j * stride) h1 mod M32
    <> hash_loop fuel p2 (j * stride) h2 mod M32.
Proof.
  intros Hagree Hc1 Hc2 Hne.
  assert (Hk1 : (k * stride < String.length p1)%nat).
  { destruct (Nat.lt_ge_cases (k * stride) (String.length p1)) as [H|H]; [exact H|].
    apply FrameHashSpec.charCodeAt_none_iff in H. congruence. }
  assert (Hk2 : (k * stride < String.length p2)%nat).
  { destruct (Nat.lt_ge_cases (k * stride) (String.length p2)) as [H|H]; [exact H|].
    apply FrameHashSpec.charCodeAt_none_iff in H. congruence. }
  induction fuel as [|fuel IH]; intros j h1 h2 Hcase.
  - simpl. destruct Hcase as [(H1 & _ & H2)|(_ & H)]; [lia | exact H].
  - cbn [hash_loop].
    replace (j * stride + stride)%nat with (S j * stride)%nat by lia.
    destruct (Nat.eq_dec j k) as [->|Hjk].
    + (* the position that differs *)
      destruct Hcase as [(_ & -> & _)|(H & _)]; [|lia].
      apply Nat.ltb_lt in Hk1, Hk2. rewrite Hk1, Hk2, Hc1, Hc2.
      apply IH. right. split; [lia|].
      rewrite !hash_step_mod. intros E.
      apply charCodeAt_range in Hc1, Hc2.
      assert (Hd : (M32 | c1 - c2)).
      { apply Z.mod_divide; [unfold M32; lia|].
        replace (c1 - c2) with ((31 * h2 + c1) - (31 * h2 + c2)) by lia.
        rewrite Zminus_mod, E, Z.sub_diag. reflexivity. }
      destruct Hd as [q Hq]. unfold M32 in Hq. lia.
    + rewrite <- (FrameHashSpec.in_range_agree p1 p2 _ (Hagree j Hjk)).
      rewrite <- (Hagree j Hjk).
      destruct (Nat.ltb_spec (j * stride) (String.length p1)) as [Hin|Hout].
      * destruct (charCodeAt_in_range p1 _ Hin) as [c ->].
        apply IH. destruct Hcase as [(H1 & -> & H2)|(H1 & H2)].
        -- left. split; [lia|]. split; [reflexivity | lia].
        -- right. split; [lia|]. rewrite !hash_step_mod.
           intros E. apply H2. exact (times31_mod _ _ _ E).
      * destruct Hcase as [(H1 & _ & _)|(_ & H)]; [|exact H].
        exfalso. unfold stride in *. nia.
Qed.

(** X8. A change at exactly one sampled position is always detected: when
    the payloads of two frames hold different characters at one multiple
    of 1000 and agree at every other one, the fingerprints differ and the
    second frame is classified [change_detected] after the first. *)
Theorem single_sample_change_is_detected (f1 f2 : string) (k : nat) (c1 c2 : Z) :
  (forall j, j <> k ->
     charCodeAt (payload f1) (j * stride) = charCodeAt (payload f2) (j * stride)) ->
  charCodeAt (payload f1) (k * stride) = Some c1 ->
  charCodeAt (payload f2) (k * stride) = Some c2 ->
  c1 <> c2 ->
  simpleFrameHash f1 <> simpleFrameHash f2
  /\ visualChange (Some (simpleFrameHash f1)) (simpleFrameHash f2) = change_detected.
Proof.
  intros Hagree Hc1 Hc2 Hne.
  assert (Hint : frame_hash_int f1 <> frame_hash_int f2).
  { unfold frame_hash_int.
    set (p1 := payload f1) in *. set (p2 := payload f2) in *.
    rewrite (FrameHashSpec.hash_loop_enough_fuel _
               (S (String.length p1 + String.length p2)) p1) by lia.
    rewrite (FrameHashSpec.hash_loop_enough_fuel (S (String.length p2))
               (S (String.length p1 + String.length p2)) p2) by lia.
    intros E.
    apply (hash_loop_diverges p1 p2 k c1 c2 Hagree Hc1 Hc2 Hne
             (S (String.length p1 + String.length p2)) 0 0 0).
    - left. split; [lia|]. split; [reflexivity|].
      destruct (Nat.lt_ge_cases (k * stride) (String.length p1)) as [H|H].
      + unfold stride in H. lia.
      + apply FrameHashSpec.charCodeAt_none_iff in H. congruence.
    - change (0 * stride)%nat with 0%nat. rewrite E. reflexivity. }
  assert (Hstr : simpleFrameHash f1 <> simpleFrameHash f2).
  { unfold simpleFrameHash. intros E. apply Hint, toString16_inj, E. }
  split; [exact Hstr|].
  unfold visualChange.
  destruct (String.eqb_spec (simpleFrameHash f1) (simpleFrameHash f2));
    [contradiction | reflexivity].
Qed.

Lemma single_sample_change_is_detected_witness :
  visualChange (Some (simpleFrameHash "data:image/png;base64,iVBORw0KGgo"))
    (simpleFrameHash "data:image/png;base64,jVBORw0KGgo")
  = change_detected.
Proof.
  apply (single_sample_change_is_detected
           "data:image/png;base64,iVBORw0KGgo" "data:image/png;base64,jVBORw0KGgo"
           0 105 106).
  - intros [|j] H; [contradiction H; reflexivity | reflexivity].
  - reflexivity.
  - reflexivity.
  - discriminate.
Defined.

End FrameHashMoreSpec.

(* ===================================================================== *)
(** * Further properties of the decision step *)
(* ===================================================================== *)

Module StepsStoreSpec.
Import JsString Redis MemStash Steps StepsStore.
Local Open Scope Q_scope.

(** ** Ties *)

(** The reduction keeps the accumulator, or ends on the first entry that
    attains the highest value. *)
Lemma fold_choose_first (entries : Scores) (acc : Best) :
  let r := fold_left choose entries acc in
  (r = acc /\ forall b v, In (b, v) entries -> v <= score acc)
  \/ (exists pre post,
        entries = (pre ++ (best_button r, score r) :: post)%list
        /\ score acc < score r
        /\ (forall b v, In (b, v) pre -> v < score r)
        /\ (forall b v, In (b, v) post -> v <= score r)).
Proof.
  revert acc. induction entries as [|[k x] es IH]; intros acc; cbv zeta.
  - left. split; [reflexivity | intros b v []].
  - change (fold_left choose ((k, x) :: es) acc)
      with (fold_left choose es (choose acc (k, x))).
    assert (Hch : choose acc (k, x)
                  = if Qgtb x (score acc) then {| best_button := k; score := x |}
                    else acc) by reflexivity.
    rewrite Hch. clear Hch.
    destruct (Qgtb x (score acc)) eqn:Hgt.
    + apply StepsSpec.Qgtb_true in Hgt.
      destruct (IH {| best_button := k; score := x |}) as [(Hr & Hall)|Hlater];
        cbv zeta in *.
      * right. exists [], es. rewrite Hr. cbn [best_button score app].
        split; [reflexivity|]. split; [exact Hgt|].
        split; [intros b v [] | exact Hall].
      * destruct Hlater as (pre & post & Hes & Hlt & Hpre & Hpost).
        cbn [score] in Hlt.
        right. exists ((k, x) :: pre), post. rewrite Hes at 1.
        split; [reflexivity|]. split; [eapply Qlt_trans; eassumption|].
        split; [|exact Hpost].
        intros b v [[= <- <-]|Hin]; [exact Hlt | eapply Hpre, Hin].
    + apply StepsSpec.Qgtb_false in Hgt.
      destruct (IH acc) as [(Hr & Hall)|Hlater]; cbv zeta in *.
      * left. split; [exact Hr|].
        intros b v [[= <- <-]|Hin]; [exact Hgt | eapply Hall, Hin].
      * destruct Hlater as (pre & post & Hes & Hlt & Hpre & Hpost).
        right. exists ((k, x) :: pre), post. rewrite Hes at 1.
        split; [reflexivity|]. split; [exact Hlt|].
        split; [|exact Hpost].
        intros b v [[= <- <-]|Hin];
          [eapply Qle_lt_trans; eassumption | eapply Hpre, Hin].
Qed.

Lemma pick_best_first (t : Scores) :
  valid_table t ->
  exists pre post,
    t = (pre ++ (best_button (pick_best t), score (pick_best t)) :: post)%list
    /\ (forall b v, In (b, v) pre -> v < score (pick_best t))
    /\ (forall b v, In (b, v) post -> v <= score (pick_best t)).
Proof.
  intros [Hkeys Hrange]. unfold pick_best.
  destruct (fold_choose_first t {| best_button := Btn.A; score := -1 |})
    as [(_ & Hall)|(pre & post & Ht & _ & Hpre & Hpost)]; cbv zeta in *.
  - exfalso. destruct t as [|[b v] t]; [discriminate Hkeys|].
    specialize (Hall b v (or_introl eq_refl)).
    destruct (Hrange b v (or_introl eq_refl)) as [H0 _].
    cbn [score] in Hall. pose proof (Qle_trans _ _ _ H0 Hall) as H.
    unfold Qle in H. simpl in H. lia.
  - exists pre, post. auto.
Qed.

(** X9. Ties go to the first button: for a reply that the schema accepts,
    the button of the decision is the first entry of step 1, in the order
    A, B, START, SELECT, UP, DOWN, LEFT, RIGHT, L, R, WAIT, that attains the
    highest confidence; every entry before it is strictly lower. *)
Theorem ties_go_to_the_first_button
  (agentId : string) (raw : RawReply) (parsed : ParsedReply) (w : World) :
  schema raw = Some parsed ->
  exists out w' step1 rest pre post,
    analyzeFrameAndDecide agentId (Reply raw) w = (Ok out, w')
    /\ m_buttonSequence (object_decision parsed) = step1 :: rest
    /\ map fst step1 = Btn.all
    /\ step1 = (pre ++ (button (decision out), confidence (decision out)) :: post)%list
    /\ (forall b v, In (b, v) pre -> v < confidence (decision out))
    /\ (forall b v, In (b, v) post -> v <= confidence (decision out)).
Proof.
  intros Hschema.
  destruct (StepsSpec.schema_spec raw parsed Hschema)
    as (step1 & rest & raw1 & rawrest & Hseq & _ & Hvalid & _).
  destruct (StepsSpec.derive_first step1 rest Hvalid) as (n & _ & Hderive & _).
  rewrite <- Hseq in Hderive.
  destruct (StepsSpec.analyze_built agentId raw parsed w _ _ Hschema Hderive)
    as (out & w' & Hrun & Hb & Hc & _).
  inversion Hvalid as [|? ? Hv1 _]; subst.
  destruct (pick_best_first step1 Hv1) as (pre & post & Ht & Hpre & Hpost).
  exists out, w', step1, rest, pre, post.
  rewrite Hb, Hc.
  split; [exact Hrun|]. split; [exact Hseq|]. split; [exact (proj1 Hv1)|].
  split; [exact Ht|]. split; assumption.
Qed.

Lemma ties_go_to_the_first_button_witness :
  exists out w',
    analyzeFrameAndDecide "agent-1" (Reply tie_reply) empty_world = (Ok out, w')
    /\ button (decision out) = Btn.A.
Proof.
  destruct (ties_go_to_the_first_button "agent-1" tie_reply _ empty_world eq_refl)
    as (out & w' & step1 & rest & pre & post & Hrun & _).
  exists out, w'. split; [exact Hrun|].
  vm_compute in Hrun. injection Hrun as <- _. reflexivity.
Defined.

(** ** What an accepted reply leaves in the store *)

Lemma analyze_steps agentId raw parsed w p l :
  schema raw = Some parsed ->
  derive (m_buttonSequence (object_decision parsed)) [] = p :: l ->
  let d := object_decision parsed in
  let w1 :=
    snd (match m_notes d with
         | Val notes => appendMemStash agentId (inr notes)
         | _ => ret tt
         end w) in
  let w2 :=
    snd (appendDecisionLog agentId (Btn.name (best_button p)) (m_reasoning d) w1) in
  exists out,
    analyzeFrameAndDecide agentId (Reply raw) w = (Ok out, w2)
    /\ button (decision out) = best_button p
    /\ reasoning (decision out) = m_reasoning d
    /\ timestamp (decision out) = clock w2
    /\ isFallback (decision out) = false
    /\ currentArea (gameState out) = p_currentArea (object_gameState parsed)
    /\ badges (gameState out) = p_badges (object_gameState parsed).
Proof.
  intros Hschema Hderive. cbv zeta.
  unfold analyzeFrameAndDecide, try_catch.
  unfold bind at 1. simpl generateObject. rewrite Hschema.
  unfold ret at 1.
  destruct (m_buttonSequence (object_decision parsed)) as [|s1 rest] eqn:Hseq.
  { simpl in Hderive. discriminate. }
  simpl (List.length _ =? 0)%nat. cbv iota. rewrite Hderive.
  unfold bind.
  destruct (StepsSpec.notes_step_never_throws agentId
              (m_notes (object_decision parsed)) w) as ([] & w1 & E1).
  rewrite E1. cbn [snd].
  destruct (MemStashSpec.appendDecisionLog_never_throws agentId
              (Btn.name (best_button p))
              (m_reasoning (object_decision parsed)) w1) as (st & w2 & E2).
  rewrite E2. cbn [snd].
  unfold now, ret.
  eexists. split; [reflexivity|]. simpl. repeat split; reflexivity.
Qed.

Lemma notes_step_healthy agentId (notes : field StructuredNotes) w :
  let w1 :=
    snd (match notes with
         | Val n => appendMemStash agentId (inr n)
         | _ => ret tt
         end (healthy w)) in
  let n := match notes with Val n => n | _ => emptyNotes end in
  faults w1 = [] /\ decisionlog w1 = decisionlog w /\ clock w1 = clock w
  /\ stored_notes w1 agentId
     = if (key_count n =? 0)%nat then stored_notes w agentId
       else merge (stored_notes w agentId) n.
Proof.
  cbv zeta.
  assert (Hsame : stored_notes (healthy w) agentId = stored_notes w agentId)
    by (rewrite !MemStashSpec.stored_notes_read; reflexivity).
  destruct notes as [| |n]; try (simpl; auto).
  change (appendMemStash agentId (inr n)) with (mergeStructuredNotes agentId n).
  rewrite MemStashSpec.stored_notes_after_merge.
  destruct (Nat.eqb_spec (key_count n) 0) as [E|E].
  - unfold mergeStructuredNotes. rewrite E. simpl. auto.
  - rewrite MemStashSpec.mergeStructuredNotes_healthy by exact E. simpl. auto.
Qed.

(** X10. With a backend that answers, a reply that the schema accepts
    leaves its trace in the store of the agent: the decision is appended to
    the decision log under the name of its button, with the reasoning of
    the reply, the clock and the next step number, the log being cut to its
    last 500 entries; and the notes of the reply are merged into the stored
    notes. *)
Theorem accepted_decision_is_recorded
  (agentId : string) (raw : RawReply) (parsed : ParsedReply) (w : World) :
  schema raw = Some parsed ->
  exists out w',
    analyzeFrameAndDecide agentId (Reply raw) (healthy w) = (Ok out, w')
    /\ stored_log w' agentId
       = lastN 500
           (stored_log w agentId
            ++ [ {| step := S (List.length (stored_log w agentId));
                    Redis.button := Btn.name (button (decision out));
                    Redis.reasoning := reasoning (decision out);
                    Redis.timestamp := clock w |} ])
    /\ reasoning (decision out) = m_reasoning (reply_decision raw)
    /\ timestamp (decision out) = clock w
    /\ stored_notes w' agentId
       = if (key_count (reply_notes parsed) =? 0)%nat then stored_notes w agentId
         else merge (stored_notes w agentId) (reply_notes parsed).
Proof.
  intros Hschema.
  destruct (StepsSpec.schema_spec raw parsed Hschema)
    as (step1 & rest & raw1 & rawrest & Hseq & _ & Hvalid & _).
  destruct (StepsSpec.derive_first step1 rest Hvalid) as (n & _ & Hderive & _).
  rewrite <- Hseq in Hderive.
  destruct (analyze_steps agentId raw parsed (healthy w) _ _ Hschema Hderive)
    as (out & Hrun & Hb & Hr & Ht & _).
  destruct (notes_step_healthy agentId (m_notes (object_decision parsed)) w)
    as (Hf & Hlog & Hclock & Hnotes).
  set (w1 := snd (match m_notes (object_decision parsed) with
                  | Val notes => appendMemStash agentId (inr notes)
                  | _ => ret tt
                  end (healthy w))) in *.
  rewrite (MemStashSpec.appendDecisionLog_healthy _ _ _ w1 Hf) in Hrun, Ht.
  cbn [snd] in Hrun, Ht.
  assert (Hstored : stored_log w1 agentId = stored_log w agentId)
    by (unfold stored_log; rewrite Hlog; reflexivity).
  rewrite Hstored, Hclock in Hrun.
  eexists out, _. split; [exact Hrun|].
  split; [|split; [|split]].
  - unfold stored_log at 1. simpl. rewrite lookup_insert_eq. simpl.
    rewrite Hb, Hr. reflexivity.
  - rewrite Hr. unfold schema in Hschema.
    destruct (gameStateSchema (reply_gameState raw)); [|discriminate].
    destruct (decisionSchema (reply_decision raw)) as [d'|] eqn:Hd; [|discriminate].
    injection Hschema as <-. simpl.
    apply (StepsSpec.decisionSchema_spec _ _ Hd).
  - rewrite Ht. simpl. exact Hclock.
  - rewrite MemStashSpec.stored_notes_read. simpl.
    rewrite <- (MemStashSpec.stored_notes_read w1). exact Hnotes.
Qed.

Lemma accepted_decision_is_recorded_witness :
  exists out w',
    analyzeFrameAndDecide "agent-1" (Reply tie_reply) (healthy empty_world)
    = (Ok out, w')
    /\ map (fun e => (step e, Redis.button e)) (stored_log w' "agent-1")
       = [(1%nat, "A"%string)]
    /\ currentObjective (stored_notes w' "agent-1") = Val "Find the exit"%string.
Proof.
  destruct (accepted_decision_is_recorded "agent-1" tie_reply _ empty_world eq_refl)
    as (out & w' & Hrun & Hlog & _ & _ & Hnotes).
  exists out, w'. split; [exact Hrun|].
  rewrite Hlog, Hnotes.
  vm_compute in Hrun. injection Hrun as <- _. split; reflexivity.
Defined.

(** ** Agents do not touch each other's keys *)

Lemma others_untouched_refl agentId w : others_untouched agentId w w.
Proof. intros other _. split; reflexivity. Qed.

Lemma others_untouched_trans agentId w1 w2 w3 :
  others_untouched agentId w1 w2 -> others_untouched agentId w2 w3 ->
  others_untouched agentId w1 w3.
Proof.
  intros H12 H23 other Hne.
  destruct (H12 other Hne) as [<- <-]. exact (H23 other Hne).
Qed.

Lemma touches_only_ret {A} agentId (a : A) : touches_only agentId (ret a).
Proof. intros w. apply others_untouched_refl. Qed.

Lemma touches_only_throw {A} agentId : touches_only agentId (@throw A).
Proof. intros w. apply others_untouched_refl. Qed.

Lemma touches_only_now agentId : touches_only agentId now.
Proof. intros w. apply others_untouched_refl. Qed.

Lemma touches_only_bind {A B} agentId (m : M A) (k : A -> M B) :
  touches_only agentId m -> (forall a, touches_only agentId (k a)) ->
  touches_only agentId (bind m k).
Proof.
  intros Hm Hk w. unfold bind. specialize (Hm w).
  destruct (m w) as [[a|] w1]; cbn [snd] in *; [|exact Hm].
  eapply others_untouched_trans; [exact Hm | apply Hk].
Qed.

Lemma touches_only_try_catch {A} agentId (body handler : M A) :
  touches_only agentId body -> touches_only agentId handler ->
  touches_only agentId (try_catch body handler).
Proof.
  intros Hb Hh w. unfold try_catch. specialize (Hb w).
  destruct (body w) as [[a|] w1]; cbn [snd] in *; [exact Hb|].
  eapply others_untouched_trans; [exact Hb | apply Hh].
Qed.

Lemma touches_only_call {A} agentId (op : World -> A * World) :
  (forall w, others_untouched agentId w (snd (op w))) ->
  touches_only agentId (call op).
Proof.
  intros Hop w. unfold call.
  destruct (faults w) as [|[] fs].
  - specialize (Hop w). destruct (op w). exact Hop.
  - intros other _. split; reflexivity.
  - specialize (Hop (with_faults fs w)). destruct (op (with_faults fs w)).
    intros other Hne. exact (Hop other Hne).
Qed.

Lemma touches_only_memstash_ops agentId v :
  touches_only agentId (get_memstash agentId)
  /\ touches_only agentId (set_memstash agentId v)
  /\ touches_only agentId (del_memstash agentId).
Proof.
  split; [|split]; apply touches_only_call; intros w other Hne; simpl;
    split; try reflexivity.
  - apply lookup_insert_ne. congruence.
  - apply lookup_delete_ne. congruence.
Qed.

Lemma touches_only_decisionlog_ops agentId v :
  touches_only agentId (get_decisionlog agentId)
  /\ touches_only agentId (set_decisionlog agentId v)
  /\ touches_only agentId (del_decisionlog agentId).
Proof.
  split; [|split]; apply touches_only_call; intros w other Hne; simpl;
    split; try reflexivity.
  - apply lookup_insert_ne. congruence.
  - apply lookup_delete_ne. congruence.
Qed.

Lemma touches_only_getStructuredNotes agentId :
  touches_only agentId (getStructuredNotes agentId).
Proof.
  apply touches_only_try_catch; [|apply touches_only_ret].
  apply touches_only_bind;
    [apply (touches_only_memstash_ops agentId (StashText ""))|].
  intros [[n|s]|]; try apply touches_only_ret.
  destruct (truthy s); apply touches_only_ret.
Qed.

Lemma touches_only_getMemStash agentId : touches_only agentId (getMemStash agentId).
Proof.
  apply touches_only_try_catch; [|apply touches_only_ret].
  apply touches_only_bind;
    [apply (touches_only_memstash_ops agentId (StashText ""))|].
  intros [[n|s]|]; apply touches_only_ret.
Qed.

Lemma touches_only_mergeStructuredNotes agentId newNotes :
  touches_only agentId (mergeStructuredNotes agentId newNotes).
Proof.
  unfold mergeStructuredNotes.
  destruct (key_count newNotes =? 0)%nat; [apply touches_only_ret|].
  apply touches_only_try_catch; [|apply touches_only_ret].
  apply touches_only_bind; [apply touches_only_getStructuredNotes|].
  intros existing. apply touches_only_memstash_ops.
Qed.

Lemma touches_only_appendMemStash agentId content :
  touches_only agentId (appendMemStash agentId content).
Proof.
  destruct content as [text|notes]; [|apply touches_only_mergeStructuredNotes].
  unfold appendMemStash.
  destruct (negb (truthy text) || negb (truthy (trim text)));
    [apply touches_only_ret|].
  apply touches_only_try_catch; [|apply touches_only_ret].
  apply touches_only_bind; [apply touches_only_getStructuredNotes|].
  intros existing. apply touches_only_bind; [apply touches_only_now|].
  intros ms. apply touches_only_memstash_ops.
Qed.

Lemma touches_only_getDecisionLog agentId :
  touches_only agentId (getDecisionLog agentId).
Proof.
  apply touches_only_try_catch; [|apply touches_only_ret].
  apply touches_only_bind; [apply (touches_only_decisionlog_ops agentId [])|].
  intros [l|]; apply touches_only_ret.
Qed.

Lemma touches_only_appendDecisionLog agentId button reasoning :
  touches_only agentId (appendDecisionLog agentId button reasoning).
Proof.
  apply touches_only_try_catch; [|apply touches_only_ret].
  apply touches_only_bind; [apply touches_only_getDecisionLog|].
  intros log. apply touches_only_bind; [apply touches_only_now|].
  intros ms. apply touches_only_bind; [apply touches_only_decisionlog_ops|].
  intros _. apply touches_only_ret.
Qed.

Lemma touches_only_createFallbackDecision agentId n :
  touches_only agentId (createFallbackDecision n).
Proof.
  apply touches_only_bind; [apply touches_only_now|].
  intros ms. apply touches_only_ret.
Qed.

Lemma touches_only_analyzeFrameAndDecide agentId outcome :
  touches_only agentId (analyzeFrameAndDecide agentId outcome).
Proof.
  apply touches_only_try_catch; [|apply touches_only_createFallbackDecision].
  apply touches_only_bind.
  { destruct outcome as [| | |r]; try apply touches_only_throw.
    simpl. destruct (schema r); [apply touches_only_ret | apply touches_only_throw]. }
  intros result. cbv zeta.
  destruct (List.length (m_buttonSequence (object_decision result)) =? 0)%nat;
    [apply touches_only_createFallbackDecision|].
  destruct (derive (m_buttonSequence (object_decision result)) []) as [|p l];
    [apply touches_only_createFallbackDecision|].
  apply touches_only_bind.
  { destruct (m_notes (object_decision result));
      try apply touches_only_ret. apply touches_only_appendMemStash. }
  intros _. apply touches_only_bind; [apply touches_only_appendDecisionLog|].
  intros _. apply touches_only_bind; [apply touches_only_now|].
  intros ms. apply touches_only_ret.
Qed.

(** X11. The memory of an agent is its own: whatever the backend does, no
    function of the memory store called for one agent, nor the decision
    step run for it, nor the route of its notes, changes the notes or the
    decision log of another agent. *)
Theorem agents_do_not_touch_each_other (agentId : string) :
  touches_only agentId (getStructuredNotes agentId)
  /\ touches_only agentId (getMemStash agentId)
  /\ touches_only agentId (getMemStashForPrompt agentId)
  /\ (forall content, touches_only agentId (appendMemStash agentId content))
  /\ (forall notes, touches_only agentId (mergeStructuredNotes agentId notes))
  /\ touches_only agentId (clearMemStash agentId)
  /\ touches_only agentId (getDecisionLog agentId)
  /\ (forall button reasoning,
        touches_only agentId (appendDecisionLog agentId button reasoning))
  /\ touches_only agentId (clearDecisionLog agentId)
  /\ (forall outcome, touches_only agentId (analyzeFrameAndDecide agentId outcome))
  /\ touches_only agentId (MemStashRoute.GET agentId)
  /\ touches_only agentId (MemStashRoute.DELETE agentId).
Proof.
  assert (Hclear : touches_only agentId (clearMemStash agentId)).
  { apply touches_only_try_catch; [|apply touches_only_ret].
    apply (touches_only_memstash_ops agentId (StashText "")). }
  assert (Hclearlog : touches_only agentId (clearDecisionLog agentId)).
  { apply touches_only_try_catch; [|apply touches_only_ret].
    apply (touches_only_decisionlog_ops agentId []). }
  split; [apply touches_only_getStructuredNotes|].
  split; [apply touches_only_getMemStash|].
  split.
  { apply touches_only_bind; [apply touches_only_getMemStash|].
    intros c. apply touches_only_ret. }
  split; [apply touches_only_appendMemStash|].
  split; [apply touches_only_mergeStructuredNotes|].
  split; [exact Hclear|].
  split; [apply touches_only_getDecisionLog|].
  split; [apply touches_only_appendDecisionLog|].
  split; [exact Hclearlog|].
  split; [apply touches_only_analyzeFrameAndDecide|].
  split.
  - apply touches_only_try_catch; [|apply touches_only_ret].
    apply touches_only_bind; [apply touches_only_getMemStash|].
    intros c. apply touches_only_ret.
  - apply touches_only_try_catch; [|apply touches_only_ret].
    apply touches_only_bind; [exact Hclear|].
    intros _. apply touches_only_bind; [exact Hclearlog|].
    intros _. apply touches_only_ret.
Qed.

End StepsStoreSpec.

(* ===================================================================== *)
(** * Further properties of the coordinator *)
(* ===================================================================== *)

Module AgentCardRunSpec.
Import FrameHash AgentCard AgentCardRun.

(** ** The counters of consecutive presses *)

Lemma processFrame_dropped (st : State) (it : string * option Steps.AIDecision) :
  went_through it = None -> processFrame st (fst it) (snd it) = st.
Proof.
  unfold went_through, processFrame.
  destruct (isValidFrame (fst it)); simpl; [intros ->|]; reflexivity.
Qed.

Lemma processFrame_counters (st : State) (it : string * option Steps.AIDecision)
  (d : Steps.AIDecision) :
  went_through it = Some d ->
  let st' := processFrame st (fst it) (snd it) in
  let next (p : GBAButton -> bool) (n : nat) :=
    if p (Steps.button d) then S n else 0 in
  consecutiveStartSelectCount st'
  = next is_start_select (consecutiveStartSelectCount st)
  /\ consecutiveWaitCount st' = next is_wait (consecutiveWaitCount st)
  /\ consecutiveBCount st' = next is_b (consecutiveBCount st).
Proof.
  unfold went_through, processFrame.
  destruct (isValidFrame (fst it)); simpl negb; cbv iota; [|discriminate].
  intros ->. cbv zeta.
  destruct (track_no_change _ st _) as [[s c] a].
  destruct (fold_left press _ _) as [pc bn].
  destruct (Steps.button d); simpl; repeat split; reflexivity.
Qed.

Lemma decided_snoc its it :
  decided (its ++ [it])
  = (decided its
     ++ match went_through it with Some d => [Steps.button d] | None => [] end)%list.
Proof.
  unfold decided. rewrite omap_app. f_equal. simpl.
  destruct (went_through it); reflexivity.
Qed.

Lemma trailing_snoc (p : GBAButton -> bool) (l : list GBAButton) (b : GBAButton) :
  trailing p (l ++ [b]) = if p b then S (trailing p l) else 0.
Proof. unfold trailing. rewrite rev_app_distr. reflexivity. Qed.

Lemma counters_are_trailing (its : list (string * option Steps.AIDecision)) :
  consecutiveStartSelectCount (run initial its)
  = trailing is_start_select (decided its)
  /\ consecutiveWaitCount (run initial its) = trailing is_wait (decided its)
  /\ consecutiveBCount (run initial its) = trailing is_b (decided its).
Proof.
  induction its as [|it its IH] using rev_ind; [repeat split; reflexivity|].
  rewrite AgentCardSpec.run_app, decided_snoc. simpl run.
  change (fold_left _ [it] ?s) with (processFrame s (fst it) (snd it)).
  destruct (went_through it) as [d|] eqn:Hit.
  - destruct (processFrame_counters (run initial its) it d Hit) as (-> & -> & ->).
    rewrite !trailing_snoc.
    destruct IH as (-> & -> & ->). repeat split; reflexivity.
  - rewrite processFrame_dropped by exact Hit. rewrite app_nil_r. exact IH.
Qed.

(** A trailing run of at least [n]: the list ends with [n] elements that
    satisfy [p]. *)
Lemma leading_ge (p : GBAButton -> bool) (n : nat) (l : list GBAButton) :
  (n <= leading p l)%nat
  <-> exists run rest, l = (run ++ rest)%list /\ List.length run = n
                       /\ Forall (fun b => p b = true) run.
Proof.
  revert l. induction n as [|n IH]; intros l.
  - split; [|lia]. intros _. exists [], l. repeat split. constructor.
  - destruct l as [|b l]; simpl.
    + split; [lia|]. intros ([|x r] & rest & E & Hlen & _); discriminate.
    + destruct (p b) eqn:Hb.
      * rewrite <- Nat.succ_le_mono, IH. split.
        -- intros (r & rest & -> & <- & Hall).
           exists (b :: r), rest. repeat split. constructor; assumption.
        -- intros ([|x r] & rest & E & Hlen & Hall); [discriminate|].
           injection E as <- ->. injection Hlen as Hlen.
           inversion Hall; subst. exists r, rest. auto.
      * split; [lia|].
        intros ([|x r] & rest & E & Hlen & Hall); [discriminate|].
        injection E as <- ->. inversion Hall; subst. congruence.
Qed.

Lemma trailing_ge (p : GBAButton -> bool) (n : nat) (l : list GBAButton) :
  (n <= trailing p l)%nat
  <-> exists before run, l = (before ++ run)%list /\ List.length run = n
                         /\ Forall (fun b => p b = true) run.
Proof.
  unfold trailing. rewrite leading_ge. split.
  - intros (r & rest & E & Hlen & Hall).
    exists (rev rest), (rev r).
    split; [rewrite <- rev_app_distr, <- E, rev_involutive; reflexivity|].
    split; [rewrite length_rev; exact Hlen|].
    apply List.Forall_rev. exact Hall.
  - intros (before & r & -> & Hlen & Hall).
    exists (rev r), (rev before).
    split; [apply rev_app_distr|].
    split; [rewrite length_rev; exact Hlen|].
    apply List.Forall_rev. exact Hall.
Qed.

Lemma leading_exclusive (p q : GBAButton -> bool) (l : list GBAButton) :
  (forall b, p b = true -> q b = true -> False) ->
  leading p l = 0%nat \/ leading q l = 0%nat.
Proof.
  intros Hex. destruct l as [|b l]; [left; reflexivity|]. simpl.
  destruct (p b) eqn:Hp; [|left; reflexivity].
  destruct (q b) eqn:Hq; [|right; reflexivity].
  exfalso. exact (Hex b Hp Hq).
Qed.

(** X12. The three counters of consecutive presses are the lengths of the
    runs of START/SELECT, of WAIT and of B at the end of the decisions that
    went through (an iteration with an invalid frame or a failed request
    neither extends nor breaks a run).  Hence the next prompt is told to
    avoid WAIT exactly when the last three decisions were WAIT, to avoid B
    exactly when the last five were B, to avoid START and SELECT exactly
    when the last three were START or SELECT; and never two of these at
    once. *)
Theorem consecutive_counters_are_trailing_runs
  (its : list (string * option Steps.AIDecision)) :
  let st := run initial its in
  let ends_with (n : nat) (p : GBAButton -> bool) :=
    exists before last,
      decided its = (before ++ last)%list /\ List.length last = n
      /\ Forall (fun b => p b = true) last in
  (consecutiveStartSelectCount st = trailing is_start_select (decided its)
   /\ consecutiveWaitCount st = trailing is_wait (decided its)
   /\ consecutiveBCount st = trailing is_b (decided its))
  /\ (avoidStartSelect (request st) = true <-> ends_with 3%nat is_start_select)
  /\ (avoidWait (request st) = true <-> ends_with 3%nat is_wait)
  /\ (avoidB (request st) = true <-> ends_with 5%nat is_b)
  /\ (avoidStartSelect (request st) && avoidWait (request st) = false
      /\ avoidStartSelect (request st) && avoidB (request st) = false
      /\ avoidWait (request st) && avoidB (request st) = false).
Proof.
  cbv zeta.
  destruct (counters_are_trailing its) as (Hs & Hw & Hb).
  split; [auto|].
  unfold request. cbn [avoidStartSelect avoidWait avoidB].
  rewrite Hs, Hw, Hb.
  split; [rewrite Nat.ltb_lt; apply (trailing_ge is_start_select 3)|].
  split; [rewrite Nat.leb_le; apply trailing_ge|].
  split; [rewrite Nat.leb_le; apply trailing_ge|].
  unfold trailing.
  split; [|split].
  - destruct (leading_exclusive is_start_select is_wait (rev (decided its)))
      as [->| ->]; [intros []; discriminate | reflexivity |].
    apply andb_false_r.
  - destruct (leading_exclusive is_start_select is_b (rev (decided its)))
      as [->| ->]; [intros []; discriminate | reflexivity |].
    apply andb_false_r.
  - destruct (leading_exclusive is_wait is_b (rev (decided its)))
      as [->| ->]; [intros []; discriminate | reflexivity |].
    apply andb_false_r.
Qed.

(** ** The press counters and the bans *)

Lemma banned_keys_In (banned : gmap GBAButton nat) (b : GBAButton) :
  In b (banned_keys banned) <-> exists n, banned !! b = Some n /\ (0 < n)%nat.
Proof.
  unfold banned_keys. rewrite in_map_iff. split.
  - intros ([k n] & <- & Hin). apply filter_In in Hin. destruct Hin as [Hin Hpos].
    apply list_elem_of_In, elem_of_map_to_list in Hin.
    exists n. split; [exact Hin | apply Nat.ltb_lt, Hpos].
  - intros (n & Hb & Hpos). exists (b, n). split; [reflexivity|].
    apply filter_In. split; [|apply Nat.ltb_lt, Hpos].
    apply list_elem_of_In, elem_of_map_to_list. exact Hb.
Qed.

Lemma press_spec (pc bn : gmap GBAButton nat) (s : Steps.ButtonSequenceStep)
  (b : GBAButton) :
  (count_of pc b < 10)%nat ->
  let o := if Btn.eqb (Steps.step_button s) b then 1%nat else 0%nat in
  count_of (fst (press (pc, bn) s)) b = ((count_of pc b + o) mod 10)%nat
  /\ snd (press (pc, bn) s) !! b
     = if (10 <=? count_of pc b + o)%nat then Some 2%nat else bn !! b.
Proof.
  intros Hc. cbv zeta. unfold press.
  destruct (Btn.eqb (Steps.step_button s) b) eqn:E.
  - apply AgentCardSpec.eqb_eq in E. rewrite E.
    destruct (Nat.leb_spec 10 (count_of pc b + 1)) as [H|H]; cbn [fst snd].
    + rewrite AgentCardSpec.count_of_insert, lookup_insert_eq.
      destruct (decide (b = b)); [|congruence].
      replace (count_of pc b + 1)%nat with 10%nat by lia. split; reflexivity.
    + rewrite AgentCardSpec.count_of_insert.
      destruct (decide (b = b)); [|congruence].
      rewrite Nat.mod_small by lia. split; reflexivity.
  - apply AgentCardSpec.eqb_neq in E.
    rewrite Nat.add_0_r, Nat.mod_small by exact Hc.
    destruct (Nat.leb_spec 10 (count_of pc b)) as [H|_]; [lia|].
    destruct (10 <=? count_of pc (Steps.step_button s) + 1)%nat; cbn [fst snd].
    + rewrite AgentCardSpec.count_of_insert, lookup_insert_ne by exact E.
      destruct (decide (Steps.step_button s = b)); [contradiction|].
      split; reflexivity.
    + rewrite AgentCardSpec.count_of_insert.
      destruct (decide (Steps.step_button s = b)); [contradiction|].
      split; reflexivity.
Qed.

Lemma fold_press_spec (steps : list Steps.ButtonSequenceStep) (b : GBAButton) :
  forall pc bn,
    (count_of pc b < 10)%nat ->
    let o := List.length
               (List.filter (fun s => Btn.eqb (Steps.step_button s) b) steps) in
    count_of (fst (fold_left press steps (pc, bn))) b
    = ((count_of pc b + o) mod 10)%nat
    /\ snd (fold_left press steps (pc, bn)) !! b
       = if (10 <=? count_of pc b + o)%nat then Some 2%nat else bn !! b.
Proof.
  induction steps as [|s steps IH]; intros pc bn Hc; cbv zeta.
  - cbn [fold_left List.filter List.length fst snd].
    rewrite Nat.add_0_r, Nat.mod_small by exact Hc.
    destruct (Nat.leb_spec 10 (count_of pc b)); [lia|]. split; reflexivity.
  - cbn [fold_left List.filter].
    destruct (press_spec pc bn s b Hc) as [Hcount Hban].
    destruct (press (pc, bn) s) as [pc1 bn1] eqn:Hpress. cbn [fst snd] in *.
    assert (Hc1 : (count_of pc1 b < 10)%nat).
    { rewrite Hcount. apply Nat.mod_upper_bound. lia. }
    destruct (IH pc1 bn1 Hc1) as [IHcount IHban]. cbv zeta in *.
    rewrite IHcount, IHban, Hcount, Hban.
    set (o := List.length
                (List.filter (fun s => Btn.eqb (Steps.step_button s) b) steps)).
    destruct (Btn.eqb (Steps.step_button s) b); cbn [List.length].
    + split.
      * rewrite Nat.Div0.add_mod_idemp_l. f_equal. lia.
      * destruct (Nat.leb_spec 10 (count_of pc b + 1)) as [H|H].
        -- assert (E2 : (10 <=? count_of pc b + S o)%nat = true)
             by (apply Nat.leb_le; lia).
           unfold o in E2. rewrite E2.
           destruct (10 <=? (count_of pc b + 1) mod 10 + o)%nat; reflexivity.
        -- rewrite Nat.mod_small by lia.
           replace (count_of pc b + 1 + o)%nat with (count_of pc b + S o)%nat by lia.
           reflexivity.
    + rewrite !Nat.add_0_r, (Nat.mod_small (count_of pc b) 10 Hc).
      destruct (Nat.leb_spec 10 (count_of pc b)); [lia|]. split; reflexivity.
Qed.

Lemma press_count_run (b : GBAButton) (its : list (string * option Steps.AIDecision)) :
  count_of (buttonPressCount (run initial its)) b = (total_presses b its mod 10)%nat.
Proof.
  induction its as [|it its IH] using rev_ind; [reflexivity|].
  rewrite AgentCardSpec.run_app. simpl run.
  change (fold_left _ [it] ?s) with (processFrame s (fst it) (snd it)).
  unfold total_presses in *. rewrite map_app, list_sum_app. simpl.
  destruct (went_through it) as [d|] eqn:Hit.
  - assert (Hvalid : isValidFrame (fst it) = true /\ snd it = Some d).
    { unfold went_through in Hit. destruct (isValidFrame (fst it));
        [split; [reflexivity | exact Hit] | discriminate]. }
    destruct Hvalid as [Hvalid ->].
    destruct (AgentCardSpec.processFrame_cells (run initial its) (fst it) d Hvalid)
      as (_ & _ & _ & _ & _ & -> & _).
    assert (Hc : (count_of (buttonPressCount (run initial its)) b < 10)%nat).
    { rewrite IH. apply Nat.mod_upper_bound. lia. }
    destruct (fold_press_spec (Steps.buttonSequence d) b _
                (bannedButtons (run initial its)) Hc) as [-> _].
    rewrite IH, Nat.Div0.add_mod_idemp_l, Nat.add_0_r. reflexivity.
  - rewrite processFrame_dropped by exact Hit.
    rewrite IH, !Nat.add_0_r. reflexivity.
Qed.

(** X13. The press counter of a button is the number of its presses in the
    run modulo ten, and the list of banned buttons sent with a prompt holds
    exactly the buttons whose counter reached ten during the iteration that
    went through just before: a ban set earlier is not listed any more. *)
Theorem ban_follows_the_tenth_press
  (its : list (string * option Steps.AIDecision))
  (it : string * option Steps.AIDecision) (d : Steps.AIDecision) (b : GBAButton) :
  went_through it = Some d ->
  let st := run initial its in
  let st' := run initial (its ++ [it]) in
  count_of (buttonPressCount st) b = (total_presses b its mod 10)%nat
  /\ count_of (buttonPressCount st') b
     = ((count_of (buttonPressCount st) b + presses b d) mod 10)%nat
  /\ (In b (req_bannedButtons (request st'))
      <-> (10 <= count_of (buttonPressCount st) b + presses b d)%nat).
Proof.
  intros Hit. cbv zeta.
  split; [apply press_count_run|].
  assert (Hc : (count_of (buttonPressCount (run initial its)) b < 10)%nat).
  { rewrite press_count_run. apply Nat.mod_upper_bound. lia. }
  rewrite AgentCardSpec.run_app. simpl run.
  change (fold_left _ [it] ?s) with (processFrame s (fst it) (snd it)).
  assert (Hvalid : isValidFrame (fst it) = true /\ snd it = Some d).
  { unfold went_through in Hit. destruct (isValidFrame (fst it));
      [split; [reflexivity | exact Hit] | discriminate]. }
  destruct Hvalid as [Hvalid ->].
  destruct (AgentCardSpec.processFrame_cells (run initial its) (fst it) d Hvalid)
    as (_ & _ & _ & _ & _ & Hpc & Hbn).
  destruct (fold_press_spec (Steps.buttonSequence d) b _
              (bannedButtons (run initial its)) Hc) as [Hcount Hban].
  cbv zeta in *. fold (presses b d) in Hcount, Hban.
  split; [rewrite Hpc; exact Hcount|].
  unfold request. cbn [req_bannedButtons]. rewrite banned_keys_In, Hbn.
  unfold decrement_bans. setoid_rewrite lookup_omap. rewrite Hban.
  destruct (Nat.leb_spec 10
              (count_of (buttonPressCount (run initial its)) b + presses b d))
    as [Hten|Hless].
  - split; [intros _; exact Hten|]. intros _. exists 1%nat. split; [reflexivity | lia].
  - split; [|lia]. intros (n & Hn & Hpos). exfalso.
    destruct (bannedButtons (run initial its) !! b) as [m|] eqn:Hm;
      [|discriminate].
    pose proof (AgentCardSpec.ban_counts_run its b m Hm) as Hle.
    simpl in Hn. destruct (Nat.ltb_spec 1 m); [lia | discriminate].
Qed.

Lemma ban_follows_the_tenth_press_witness :
  In Btn.A
    (req_bannedButtons
       (request (run initial
                   ([(frame_of "A", Some (press_times Btn.A 7))]
                    ++ [(frame_of "B", Some (press_times Btn.A 4))])))).
Proof.
  apply (ban_follows_the_tenth_press
           [(frame_of "A", Some (press_times Btn.A 7))]
           (frame_of "B", Some (press_times Btn.A 4))
           (press_times Btn.A 4) Btn.A).
  - reflexivity.
  - apply Nat.leb_le. vm_compute. reflexivity.
Defined.

End AgentCardRunSpec.

(* ===================================================================== *)
(** * Properties of the game loop on the server *)
(* ===================================================================== *)

Module DecideRouteSpec.
Import JsString Redis MemStash AgentTypes Workflow DecideRoute DecideRun.
Local Open Scope js_scope.

(** ** What reaches the prompt *)

(** X14. Of the hints that a request carries, only the one on START and
    SELECT reaches the prompt of the decision step: whatever the body says
    about WAIT, about B, about the buttons without effect and about the
    banned buttons, and whatever notes the route has read, the input that
    the iteration hands to the decision step yields no notes prefix and
    none of these four warnings. *)
Theorem only_the_start_select_hint_reaches_the_prompt
  (agentId modelId frame : string) (body : DecideBody) (notes : string)
  (currentState : option AgentState) (screen : ScreenOutcome) :
  let input :=
    loopInput (workflowInput agentId modelId frame body notes) currentState
      (analyzeScreenType screen) in
  Prompt.hints input
  = [""%string; Prompt.avoidStartSelectWarning input; ""%string; ""%string;
     ""%string; ""%string]
  /\ (Prompt.avoidStartSelectWarning input <> ""%string
      <-> b_avoidStartSelect body = Some true).
Proof.
  cbv zeta. split; [reflexivity|].
  unfold Prompt.avoidStartSelectWarning, loopInput, workflowInput. simpl.
  destruct (b_avoidStartSelect body) as [[]|]; simpl; split;
    try discriminate; try reflexivity; intros H; try discriminate;
    contradiction H; reflexivity.
Qed.

(** ** Serving one request *)

Lemma analyzeFrameAndDecide_returns agentId outcome w :
  exists r w', Steps.analyzeFrameAndDecide agentId outcome w = (Ok r, w').
Proof.
  destruct (StepsSpec.analyze_cases agentId outcome w)
    as [E|(raw & parsed & p & l & -> & Hschema & Hderive)].
  - rewrite E. eexists _, _. reflexivity.
  - destruct (StepsSpec.analyze_built agentId raw parsed w p l Hschema Hderive)
      as (out & w' & Hrun & _).
    eauto.
Qed.

Lemma truthy_nonempty (s : string) : s <> ""%string -> truthy s = true.
Proof. destruct s; [intros H; contradiction H; reflexivity | reflexivity]. Qed.

(** A request that passes the checks: the notes are read, the decision
    step runs, and the state built from its result is stored. *)
Lemma POST_valid (body : DecideBody) (a m f : string) screen outcome
  (agentStates : gmap string AgentState) (w : World) :
  valid_body body a m f ->
  exists notes w1 r w2,
    getMemStashForPrompt a w = (Ok notes, w1)
    /\ Steps.analyzeFrameAndDecide a outcome w1 = (Ok r, w2)
    /\ let cs :=
         with_status thinking
           (default (with_startedAt (clock w1) (initializeAgentState a m))
              (agentStates !! a)) in
       let result :=
         iterate (workflowInput a m f body notes) (Some cs)
           (analyzeScreenType screen) r (clock w2) in
       let updated := updatedState cs result in
       POST (Some body) screen outcome agentStates w
       = (Ok (Decided (decision result) (out_gameState result)
                (totalDecisions updated) (totalTokensIn updated)
                (totalTokensOut updated),
              <[a := updated]> agentStates), w2).
Proof.
  intros (Ha & Hm & Hf & Hane & Hmne & Hfne).
  destruct (MemStashSpec.getMemStashForPrompt_never_throws a w) as (notes & w1 & Hnotes).
  destruct (analyzeFrameAndDecide_returns a outcome w1) as (r & w2 & Hr).
  exists notes, w1, r, w2. split; [exact Hnotes|]. split; [exact Hr|].
  cbv zeta. unfold POST, try_catch.
  unfold bind at 1. rewrite Ha. unfold template. simpl default.
  rewrite Hnotes, Hm, Hf.
  rewrite (truthy_nonempty a Hane), (truthy_nonempty m Hmne),
    (truthy_nonempty f Hfne).
  cbn [andb]. unfold bind at 1.
  assert (Hcs : (match agentStates !! a with
                 | Some s => ret s
                 | None =>
                     let* started := now in
                     ret (with_startedAt started (initializeAgentState a m))
                 end)%js w1
                = (Ok (default (with_startedAt (clock w1) (initializeAgentState a m))
                         (agentStates !! a)), w1)).
  { destruct (agentStates !! a); reflexivity. }
  rewrite Hcs.
  unfold bind at 1. unfold gameLoopIteration.
  unfold bind at 1. cbn [agentId loopInput workflowInput w_agentId].
  rewrite Hr. unfold bind at 1. unfold now, ret.
  rewrite insert_insert_eq. reflexivity.
Qed.

Lemma analyze_failed agentId outcome w :
  Steps.failed outcome ->
  Steps.analyzeFrameAndDecide agentId outcome w = Steps.createFallbackDecision 1500 w.
Proof.
  intros Hfailed. unfold Steps.analyzeFrameAndDecide, try_catch.
  unfold bind at 1. rewrite (StepsSpec.generateObject_failed outcome w Hfailed).
  reflexivity.
Qed.



(** ** What the decision step reports *)

Lemma schema_gameState (raw : Steps.RawReply) (parsed : Steps.ParsedReply) :
  Steps.schema raw = Some parsed ->
  Steps.p_currentArea (Steps.object_gameState parsed)
  = Steps.orElse (Steps.raw_currentArea (Steps.reply_gameState raw)) "Unknown"%string
  /\ Steps.p_badges (Steps.object_gameState parsed)
     = Steps.orElse (Steps.raw_badges (Steps.reply_gameState raw)) 0%Q.
Proof.
  unfold Steps.schema, Steps.gameStateSchema.
  destruct (Steps.in_range 0 100 _); [|discriminate].
  destruct (Steps.decisionSchema (Steps.reply_decision raw)); [|discriminate].
  intros [= <-]. split; reflexivity.
Qed.

(** The state that the decision step reports is the initial one, with the
    fallback decision, or the one read off an accepted reply. *)
Lemma reported_state agentId outcome w r w' :
  Steps.analyzeFrameAndDecide agentId outcome w = (Ok r, w') ->
  (Steps.gameState r = Steps.createInitialGameState
   /\ Steps.isFallback (Steps.decision r) = true)
  \/ exists raw,
       outcome = Steps.Reply raw
       /\ Steps.isFallback (Steps.decision r) = false
       /\ Steps.currentArea (Steps.gameState r)
          = Steps.orElse (Steps.raw_currentArea (Steps.reply_gameState raw))
              "Unknown"%string
       /\ Steps.badges (Steps.gameState r)
          = Steps.orElse (Steps.raw_badges (Steps.reply_gameState raw)) 0%Q.
Proof.
  intros Hr.
  destruct (StepsSpec.analyze_cases agentId outcome w)
    as [E|(raw & parsed & p & l & -> & Hschema & Hderive)].
  - left. rewrite E in Hr. injection Hr as <- _. split; reflexivity.
  - right. exists raw. split; [reflexivity|].
    destruct (StepsStoreSpec.analyze_steps agentId raw parsed w p l Hschema Hderive)
      as (out & Hrun & _ & _ & _ & Hf & Harea & Hbadges).
    rewrite Hrun in Hr. injection Hr as <- _.
    destruct (schema_gameState raw parsed Hschema) as [<- <-]. auto.
Qed.

(** ** The area *)

Lemma newArea_known (reported : string) (cs : AgentState) :
  area_known cs -> reported <> ""%string ->
  newArea reported (Some cs) <> ""%string
  /\ newArea reported (Some cs) <> "Unknown"%string
  /\ (reported = "Unknown"%string ->
      newArea reported (Some cs) = Steps.currentArea (observed (gameState cs))).
Proof.
  intros [Hne Hknown] Hrep. unfold newArea.
  rewrite (truthy_nonempty _ Hne).
  destruct (String.eqb_spec reported "Unknown") as [->|Hr];
    destruct (String.eqb_spec (Steps.currentArea (observed (gameState cs))) "Unknown");
    simpl; try contradiction; repeat split; auto; congruence.
Qed.

(** A request leaves the map of states as it was, or is a valid request. *)
Lemma POST_cases (request : option DecideBody) screen outcome
  (agentStates : gmap string AgentState) (w : World) :
  (exists response w',
      POST request screen outcome agentStates w = (Ok (response, agentStates), w'))
  \/ exists body a m f, request = Some body /\ valid_body body a m f.
Proof.
  destruct request as [body|]; [|left; eexists _, _; reflexivity].
  destruct (MemStashSpec.getMemStashForPrompt_never_throws
              (template (b_agentId body)) w) as (n & w1 & E).
  unfold POST.
  destruct (b_agentId body) as [a|] eqn:Ha;
    [destruct (b_modelId body) as [m|] eqn:Hm;
     [destruct (b_frame body) as [f|] eqn:Hf|]|];
    try (left; unfold try_catch, bind; rewrite E; eexists _, _; reflexivity).
  destruct a as [|c a];
    [left; unfold try_catch, bind; rewrite E; eexists _, _; reflexivity|].
  destruct m as [|c' m];
    [left; unfold try_catch, bind; rewrite E; eexists _, _; reflexivity|].
  destruct f as [|c'' f];
    [left; unfold try_catch, bind; rewrite E; eexists _, _; reflexivity|].
  right. exists body, (String c a), (String c' m), (String c'' f).
  split; [reflexivity|]. repeat split; try assumption; discriminate.
Qed.

(** One request of a run: the map of states is as it was, or the state of
    the agent of a valid request is replaced by the one built from the
    result of the decision step. *)
Lemma serve_step (r : Request) (rest : list Request)
  (agentStates : gmap string AgentState) (w : World) :
  exists agentStates' w',
    serve (r :: rest) agentStates w = serve rest agentStates' w'
    /\ (agentStates' = agentStates
        \/ exists b a m f notes out w1,
             body r = Some b /\ valid_body b a m f
             /\ Steps.analyzeFrameAndDecide a (outcome r) w1 = (Ok out, w')
             /\ let cs :=
                  with_status thinking
                    (default (with_startedAt (clock w1) (initializeAgentState a m))
                       (agentStates !! a)) in
                agentStates'
                = <[a := updatedState cs
                           (iterate (workflowInput a m f b notes) (Some cs)
                              (analyzeScreenType (screen r)) out (clock w'))]>
                    agentStates).
Proof.
  destruct (POST_cases (body r) (screen r) (outcome r) agentStates w)
    as [(response & w' & E)|(b & a & m & f & Hb & Hvalid)].
  - exists agentStates, w'. split; [|left; reflexivity].
    cbn [serve]. rewrite E. reflexivity.
  - destruct (POST_valid b a m f (screen r) (outcome r) agentStates w Hvalid)
      as (notes & w1 & out & w2 & _ & Hout & Hpost).
    cbv zeta in Hpost.
    eexists _, w2. split.
    + cbn [serve]. rewrite Hb, Hpost. reflexivity.
    + right. exists b, a, m, f, notes, out, w1. auto.
Qed.

Lemma reported_area_nonempty a (r : Request) w1 out w' :
  reports_no_empty_area r ->
  Steps.analyzeFrameAndDecide a (outcome r) w1 = (Ok out, w') ->
  Steps.currentArea (Steps.gameState out) <> ""%string.
Proof.
  intros Hrep Hout.
  destruct (reported_state a (outcome r) w1 out w' Hout)
    as [[-> _]|(raw & Hraw & _ & -> & _)]; [discriminate|].
  unfold reports_no_empty_area in Hrep. rewrite Hraw in Hrep.
  destruct (Steps.raw_currentArea (Steps.reply_gameState raw)) as [s|];
    simpl; [congruence | discriminate].
Qed.

(** X16. A known area is kept: once the stored area of an agent is the
    name of a place, it stays one along every run of requests in which no
    reply names the area by the empty string; and a request whose decision
    call fails leaves the stored area as it is. *)
Theorem known_area_is_kept
  (requests : list Request) (agentStates : gmap string AgentState) (w : World)
  (a : string) (st : AgentState) :
  agentStates !! a = Some st ->
  area_known st ->
  (Forall reports_no_empty_area requests ->
   exists st', (serve requests agentStates w).1 !! a = Some st' /\ area_known st')
  /\ (forall b m f s o,
        valid_body b a m f -> Steps.failed o ->
        exists st',
          (serve [ {| body := Some b; screen := s; outcome := o |} ] agentStates w).1
            !! a = Some st'
          /\ Steps.currentArea (observed (gameState st'))
             = Steps.currentArea (observed (gameState st))).
Proof.
  intros Hst Hknown. split.
  - intros Hall. revert agentStates w st Hst Hknown.
    induction Hall as [|r rest Hr _ IH]; intros agentStates w st Hst Hknown.
    + exists st. split; assumption.
    + destruct (serve_step r rest agentStates w)
        as (agentStates' & w' & -> & [->|Hvalid]).
      * exact (IH agentStates w' st Hst Hknown).
      * destruct Hvalid as (b & a' & m & f & notes & out & w1 & _ & _ & Hout & ->).
        cbv zeta.
        destruct (decide (a' = a)) as [->|Hne].
        -- rewrite Hst. simpl default.
           eapply IH; [apply lookup_insert_eq|].
           pose proof (reported_area_nonempty a r w1 out w' Hr Hout) as Hrep.
           destruct (newArea_known (Steps.currentArea (Steps.gameState out))
                       (with_status thinking st) Hknown Hrep) as (H1 & H2 & _).
           split; assumption.
        -- eapply IH; [|exact Hknown].
           rewrite lookup_insert_ne by exact Hne. exact Hst.
  - intros b m f s o Hvalid Hfailed.
    destruct (POST_valid b a m f s o agentStates w Hvalid)
      as (notes & w1 & out & w2 & _ & Hout & Hpost).
    cbv zeta in Hpost. cbn [serve body screen outcome]. rewrite Hpost.
    rewrite (analyze_failed a o w1 Hfailed) in Hout. injection Hout as <- _.
    eexists. split; [apply lookup_insert_eq|].
    rewrite Hst. simpl.
    destruct Hknown as [Hne Hunknown].
    rewrite (truthy_nonempty _ Hne).
    destruct (String.eqb_spec (Steps.currentArea (observed (gameState st)))
                "Unknown"); [contradiction | reflexivity].
Qed.

Lemma known_area_is_kept_witness :
  exists st',
    (serve [failing_request] example_states empty_world).1 !! "agent-1"%string
    = Some st'
    /\ area_known st'.
Proof.
  apply (known_area_is_kept [failing_request] example_states empty_world
           "agent-1" example_state).
  - reflexivity.
  - split; discriminate.
  - constructor; [exact I | constructor].
Defined.

(** ** The badges *)

(** X17. A failed decision call forgets the badges: the request stores a
    badge count of 0 for the agent, so that the next accepted reply that
    reports [k > 0] badges counts as a badge earned and adds a badge
    timestamp, whatever the count was before the failure. *)
Theorem failed_call_forgets_the_badges
  (b : DecideBody) (a m f : string) (s1 s2 : ScreenOutcome)
  (o : Steps.ModelOutcome) (raw : Steps.RawReply) (parsed : Steps.ParsedReply)
  (k : Q) (agentStates : gmap string AgentState) (w : World) (st : AgentState) :
  valid_body b a m f ->
  agentStates !! a = Some st ->
  Steps.failed o ->
  Steps.schema raw = Some parsed ->
  Steps.raw_badges (Steps.reply_gameState raw) = Some k ->
  (0 < k)%Q ->
  let r1 := {| body := Some b; screen := s1; outcome := o |} in
  let r2 := {| body := Some b; screen := s2; outcome := Steps.Reply raw |} in
  exists st1 st2 date,
    (serve [r1] agentStates w).1 !! a = Some st1
    /\ badges st1 = 0%Q
    /\ ((0 <= badges st)%Q -> badgeTimestamps st1 = badgeTimestamps st)
    /\ (serve [r1; r2] agentStates w).1 !! a = Some st2
    /\ badges st2 = k
    /\ badgeTimestamps st2 = (badgeTimestamps st1 ++ [date])%list.
Proof.
  intros Hvalid Hst Hfailed Hschema Hk Hpos. cbv zeta.
  destruct (POST_valid b a m f s1 o agentStates w Hvalid)
    as (notes & w1 & out & w2 & _ & Hout & Hpost).
  cbv zeta in Hpost.
  rewrite (analyze_failed a o w1 Hfailed) in Hout. injection Hout as <- <-.
  rewrite Hst in Hpost. simpl default in Hpost.
  set (cs := with_status thinking st) in *.
  set (st1 := updatedState cs _) in Hpost.
  destruct (POST_valid b a m f s2 (Steps.Reply raw) (<[a := st1]> agentStates) w1
              Hvalid) as (notes' & w3 & out' & w4 & _ & Hout' & Hpost').
  cbv zeta in Hpost'. rewrite lookup_insert_eq in Hpost'. simpl default in Hpost'.
  assert (Hbadges : Steps.badges (Steps.gameState out') = k).
  { destruct (StepsSpec.schema_spec raw parsed Hschema)
      as (step1 & rest & raw1 & rawrest & Hseq & _ & Hv & _).
    destruct (StepsSpec.derive_first step1 rest Hv) as (n & _ & Hderive & _).
    rewrite <- Hseq in Hderive.
    destruct (StepsStoreSpec.analyze_steps a raw parsed w3 _ _ Hschema Hderive)
      as (out2 & Hrun & _ & _ & _ & _ & _ & Hb2).
    rewrite Hrun in Hout'. injection Hout' as <- _.
    rewrite Hb2. destruct (schema_gameState raw parsed Hschema) as [_ ->].
    rewrite Hk. reflexivity. }
  exists st1, (updatedState (with_status thinking st1)
                 (iterate (workflowInput a m f b notes') (Some (with_status thinking st1))
                    (analyzeScreenType s2) out' (clock w4))), (clock w4).
  split; [cbn [serve body screen outcome]; rewrite Hpost; apply lookup_insert_eq|].
  split; [reflexivity|].
  split.
  { intros Hnonneg. unfold st1. simpl.
    apply StepsSpec.Qgtb_false in Hnonneg. rewrite Hnonneg. reflexivity. }
  split.
  { cbn [serve body screen outcome]. rewrite Hpost, Hpost'.
    cbn [serve fst]. apply lookup_insert_eq. }
  split; [exact Hbadges|].
  simpl. rewrite Hbadges.
  assert (Hgt : Steps.Qgtb k 0 = true) by (apply StepsSpec.Qgtb_true; exact Hpos).
  rewrite Hgt. reflexivity.
Qed.

Lemma failed_call_forgets_the_badges_witness :
  exists st2,
    (serve [failing_request;
            {| body := Some example_body; screen := ScreenFailed;
               outcome := Steps.Reply (badge_reply 1) |}]
       example_states empty_world).1 !! "agent-1"%string = Some st2
    /\ badges st2 = 1%Q
    /\ List.length (badgeTimestamps st2) = 2%nat.
Proof.
  destruct (failed_call_forgets_the_badges example_body "agent-1" "openai/gpt-4o"
              "data:image/png;base64,iVBORw0KGgo" ScreenFailed ScreenFailed
              Steps.Timeout (badge_reply 1) _ 1%Q example_states empty_world
              example_state
              ltac:(repeat split; try reflexivity; discriminate)
              eq_refl I eq_refl eq_refl eq_refl)
    as (st1 & st2 & date & _ & _ & Hsame & Hst2 & Hbadges & Hstamps).
  exists st2. split; [exact Hst2|]. split; [exact Hbadges|].
  rewrite Hstamps, Hsame; [reflexivity|]. discriminate.
Defined.

(** ** The progress metrics *)

Lemma newMetrics_tracked (reported : string) (cs : AgentState) :
  only_places_tracked cs ->
  forall st',
    progressMetrics (gameState st') = newMetrics reported (Some cs) ->
    Steps.currentArea (observed (gameState st')) = reported ->
    only_places_tracked st'.
Proof.
  intros (Hsize & Hunknown & Harea & Hh & Hl & Ht & Hc & He) st' Hm Ha.
  unfold only_places_tracked. cbv zeta. rewrite Hm, Ha. unfold newMetrics.
  destruct (String.eqb_spec reported "Unknown") as [->|Hrep]; simpl negb; cbv iota.
  { repeat split; auto. intros H. contradiction H. reflexivity. }
  unfold GameKnowledge.calculateNavigationReward.
  destruct (bool_decide_reflect
              (reported ∈ locationsThisEpisode (progressMetrics (gameState cs))))
    as [Hin|Hnotin]; cbn [GameKnowledge.isNew]; cbv iota.
  - repeat split; auto.
  - cbn. repeat split; auto.
    + intros Hu. apply elem_of_union in Hu. destruct Hu as [Hu|Hu].
      * apply elem_of_singleton in Hu. congruence.
      * contradiction.
    + intros _. apply elem_of_union. left. apply elem_of_singleton. reflexivity.
Qed.

Lemma initial_tracked a m d :
  only_places_tracked (with_status thinking (with_startedAt d (initializeAgentState a m))).
Proof.
  unfold only_places_tracked. cbv zeta.
  split; [reflexivity|].
  split; [apply not_elem_of_empty|].
  split; [intros H; contradiction H; reflexivity|].
  repeat split; reflexivity.
Qed.

Lemma serve_tracked (requests : list Request) :
  forall (agentStates : gmap string AgentState) (w : World),
    (forall a st, agentStates !! a = Some st -> only_places_tracked st) ->
    forall a st, (serve requests agentStates w).1 !! a = Some st ->
                 only_places_tracked st.
Proof.
  induction requests as [|r rest IH]; intros agentStates w Hinv; [exact Hinv|].
  destruct (serve_step r rest agentStates w)
    as (agentStates' & w' & -> & [->|Hvalid]); [apply IH, Hinv|].
  destruct Hvalid as (b & a' & m & f & notes & out & w1 & _ & _ & _ & ->).
  cbv zeta. apply IH. intros a st.
  destruct (decide (a' = a)) as [->|Hne].
  - rewrite lookup_insert_eq. intros [= <-].
    eapply newMetrics_tracked; [|reflexivity..].
    destruct (agentStates !! a) as [old|] eqn:Hold; simpl default.
    + exact (Hinv a old Hold).
    + apply initial_tracked.
  - rewrite lookup_insert_ne by exact Hne. apply Hinv.
Qed.

(** X18. Of the progress metrics the server only ever tracks places:
    in every state that a run of requests leaves for an agent, the number
    of places visited is the size of the set of places, which holds the
    stored area and never the name Unknown; the healing events, the party
    levels, the threshold, the count of presses without change and the
    last effective action are still those of the defaults.  That count
    staying at 0, the stuck detection that an iteration computes from it
    never reports the agent as stuck. *)
Theorem progress_metrics_only_track_places
  (requests : list Request) (w : World) (a : string) :
  match (serve requests ∅ w).1 !! a with
  | Some st =>
      only_places_tracked st
      /\ forall area,
           GameKnowledge.isStuck
             (stuckInfo (newMetrics area (Some st)) (Some st)) = false
  | None => True
  end.
Proof.
  destruct ((serve requests ∅ w).1 !! a) as [st|] eqn:Hst; [|exact I].
  assert (Htracked : only_places_tracked st).
  { apply (serve_tracked requests ∅ w) with (a := a); [|exact Hst].
    intros a' st'. rewrite lookup_empty. discriminate. }
  split; [exact Htracked|].
  intros area. unfold stuckInfo.
  assert (Hcount : consecutiveNoChangeCount (newMetrics area (Some st)) = 0%nat).
  { destruct Htracked as (_ & _ & _ & _ & _ & _ & Hc & _).
    unfold newMetrics.
    destruct (negb (String.eqb area "Unknown")); [|exact Hc].
    destruct (GameKnowledge.isNew _); exact Hc. }
  rewrite Hcount. reflexivity.
Qed.

End DecideRouteSpec.

(* ===================================================================== *)
(** * Properties of the in-memory store *)
(* ===================================================================== *)

Module MemoryStoreSpec.
Import MemoryStore.
Local Open Scope Z_scope.

Section Store.
Context {V : Type}.
Implicit Types (memoryStore : gmap string (Entry V)) (entry : Entry V).

Lemma cleanExpired_lookup now memoryStore key :
  cleanExpired now memoryStore !! key
  = match memoryStore !! key with
    | Some entry => if lapsed now entry then None else Some entry
    | None => None
    end.
Proof.
  unfold cleanExpired.
  destruct (memoryStore !! key) as [entry|] eqn:E.
  - destruct (lapsed now entry) eqn:L.
    + apply map_lookup_filter_None_2. right. intros e' He'. simpl.
      rewrite E in He'. injection He' as <-. rewrite L. discriminate.
    + apply map_lookup_filter_Some_2; [exact E | exact L].
  - apply map_lookup_filter_None_2. left. exact E.
Qed.

(** What [get] returns: the value of an entry that has lapsed at neither
    reading of the clock. *)
Lemma get_value now1 now2 key memoryStore :
  (get now1 now2 key memoryStore).1
  = match memoryStore !! key with
    | Some entry =>
        if lapsed now1 entry || lapsed now2 entry then None
        else Some (value entry)
    | None => None
    end.
Proof.
  unfold get. rewrite cleanExpired_lookup.
  destruct (memoryStore !! key) as [entry|]; [|reflexivity].
  destruct (lapsed now1 entry); [reflexivity|].
  destruct (lapsed now2 entry); reflexivity.
Qed.

Lemma get_removes now1 now2 key memoryStore :
  (get now1 now2 key memoryStore).1 = None ->
  (get now1 now2 key memoryStore).2 !! key = None.
Proof.
  unfold get. rewrite cleanExpired_lookup.
  destruct (memoryStore !! key) as [entry|] eqn:E.
  - destruct (lapsed now1 entry) eqn:L1; simpl.
    + intros _. rewrite cleanExpired_lookup, E, L1. reflexivity.
    + destruct (lapsed now2 entry); simpl; [|discriminate].
      intros _. apply lookup_delete_eq.
  - simpl. intros _. rewrite cleanExpired_lookup, E. reflexivity.
Qed.

(** X19. A value is read back until it lapses.  After [set] without a time
    to live, or with the time to live 0, [get] returns the value at any
    time.  After [set] at time [now] with a time to live of [ex > 0]
    seconds, a [get] returns the value up to and including the instant
    [now + 1000 ex], and after that instant it returns nothing and the key
    is gone from the map.  Setting a key does not change what [get]
    returns for another key. *)
Theorem value_is_read_back_until_it_lapses
  (memoryStore : gmap string (Entry V)) (key : string) (v : V) (now : Z) :
  (forall ex now1 now2,
      ex = None \/ ex = Some 0 ->
      (get now1 now2 key (set now key v ex memoryStore)).1 = Some v)
  /\ (forall ex now1 now2,
        0 <= now -> 0 < ex -> now1 <= now2 ->
        let memoryStore' := set now key v (Some ex) memoryStore in
        (now2 <= now + ex * 1000 ->
         (get now1 now2 key memoryStore').1 = Some v)
        /\ (now + ex * 1000 < now2 ->
            (get now1 now2 key memoryStore').1 = None
            /\ (get now1 now2 key memoryStore').2 !! key = None))
  /\ (forall ex other now1 now2,
        other <> key ->
        (get now1 now2 other (set now key v ex memoryStore)).1
        = (get now1 now2 other memoryStore).1).
Proof.
  split; [|split].
  - intros ex now1 now2 Hex. rewrite get_value. unfold set.
    rewrite lookup_insert_eq. destruct Hex as [->| ->]; reflexivity.
  - intros ex now1 now2 Hnow Hex Hle. cbv zeta.
    assert (Hget : (get now1 now2 key (set now key v (Some ex) memoryStore)).1
                   = if (now + ex * 1000 <? now2) then None else Some v).
    { rewrite get_value. unfold set. rewrite lookup_insert_eq.
      destruct (Z.eqb_spec ex 0) as [?|_]; [lia|].
      unfold lapsed. cbn [expires value].
      destruct (Z.eqb_spec (now + ex * 1000) 0) as [?|_]; [lia|]. cbn [negb andb].
      destruct (Z.ltb_spec (now + ex * 1000) now1);
        destruct (Z.ltb_spec (now + ex * 1000) now2); try reflexivity; lia. }
    split.
    + intros Hin. rewrite Hget.
      destruct (Z.ltb_spec (now + ex * 1000) now2); [lia | reflexivity].
    + intros Hout.
      assert (Hnone : (get now1 now2 key (set now key v (Some ex) memoryStore)).1
                      = None).
      { rewrite Hget. destruct (Z.ltb_spec (now + ex * 1000) now2); [reflexivity | lia]. }
      split; [exact Hnone | apply get_removes, Hnone].
  - intros ex other now1 now2 Hne. rewrite !get_value. unfold set.
    rewrite lookup_insert_ne by congruence. reflexivity.
Qed.

(** X20. [expire] does not look at the clock of the entry: an entry that
    has lapsed and has not been removed yet reads as absent, but is still
    counted by [del], and [expire] on it answers 1 and brings its value
    back for the new time to live. *)
Theorem expire_revives_a_lapsed_entry
  (memoryStore : gmap string (Entry V)) (key : string) (entry : Entry V)
  (t now seconds : Z) :
  memoryStore !! key = Some entry ->
  expires entry = Some t -> t <> 0 -> t < now ->
  0 <= now -> 0 < seconds ->
  (get now now key memoryStore).1 = None
  /\ (del [key] memoryStore).1 = 1%nat
  /\ (expire now key seconds memoryStore).1 = 1%nat
  /\ forall now1 now2,
       now1 <= now2 -> now2 <= now + seconds * 1000 ->
       (get now1 now2 key (expire now key seconds memoryStore).2).1
       = Some (value entry).
Proof.
  intros Hentry Hexp Ht Hlapsed Hnow Hsec.
  assert (L : lapsed now entry = true).
  { unfold lapsed. rewrite Hexp.
    destruct (Z.eqb_spec t 0); [contradiction|].
    destruct (Z.ltb_spec t now); [reflexivity | lia]. }
  split; [rewrite get_value, Hentry, L; reflexivity|].
  split.
  { cbn [del]. rewrite bool_decide_eq_true_2 by (rewrite Hentry; eauto).
    reflexivity. }
  unfold expire. rewrite Hentry. cbn [fst snd].
  split; [reflexivity|].
  intros now1 now2 H12 H2. rewrite get_value, lookup_insert_eq.
  unfold lapsed. cbn [expires value].
  destruct (Z.eqb_spec (now + seconds * 1000) 0) as [?|_]; [lia|]. cbn [negb andb].
  destruct (Z.ltb_spec (now + seconds * 1000) now1); [lia|].
  destruct (Z.ltb_spec (now + seconds * 1000) now2); [lia | reflexivity].
Qed.

End Store.

Lemma value_is_read_back_until_it_lapses_witness :
  (get 1500 1600 "agent:agent-1:heartbeat"
     (set 1000 "agent:agent-1:heartbeat" 1000 (Some 60) ∅)).1 = Some 1000
  /\ (get 61001 61002 "agent:agent-1:heartbeat"
        (set 1000 "agent:agent-1:heartbeat" 1000 (Some 60) ∅)).1 = None.
Proof.
  destruct (value_is_read_back_until_it_lapses (V := Z) ∅
              "agent:agent-1:heartbeat" 1000 1000) as (_ & H & _).
  split.
  - apply (H 60 1500 1600); lia.
  - apply (H 60 61001 61002); lia.
Defined.

Lemma expire_revives_a_lapsed_entry_witness :
  (get 5000 5000 "k" (set 1000 "k" 7 (Some 1) ∅)).1 = None
  /\ (get 5000 5000 "k"
        (expire 5000 "k" 10 (set 1000 "k" 7 (Some 1) ∅)).2).1 = Some 7.
Proof.
  destruct (expire_revives_a_lapsed_entry (V := Z)
              (set 1000 "k" 7 (Some 1) ∅) "k"
              {| value := 7; expires := Some 2000 |} 2000 5000 10)
    as (Hgone & _ & _ & Hback); try reflexivity; try lia.
  split; [exact Hgone|]. apply (Hback 5000 5000); lia.
Defined.

End MemoryStoreSpec.

(* ===================================================================== *)
(** * Properties of the summary of the command history *)
(* ===================================================================== *)

Module CommandHistorySpec.
Import JsString CommandHistory.

Lemma expand_snoc (runs : list (string * nat)) (b : string) (n : nat) :
  expand (runs ++ [(b, n)]) = (expand runs ++ repeat b n)%list.
Proof.
  unfold expand. rewrite flat_map_app. simpl. rewrite app_nil_r. reflexivity.
Qed.

Lemma repeat_snoc (b : string) (n : nat) :
  repeat b (S n) = (repeat b n ++ [b])%list.
Proof. induction n as [|n IH]; [reflexivity|]. simpl in *. rewrite <- IH. reflexivity. Qed.

Lemma alternating_recount (runs : list (string * nat)) (b : string) (n n' : nat) :
  alternating (runs ++ [(b, n)]) -> alternating (runs ++ [(b, n')]).
Proof.
  induction runs as [|g [|g' runs] IH]; simpl; auto.
  intros [H1 H2]. split; [exact H1 | apply IH, H2].
Qed.

Lemma alternating_snoc (runs : list (string * nat)) (b b' : string) (n n' : nat) :
  alternating (runs ++ [(b, n)]) -> b <> b' ->
  alternating ((runs ++ [(b, n)]) ++ [(b', n')]).
Proof.
  intros H Hne. induction runs as [|g [|g' runs] IH]; simpl in *.
  - split; [exact Hne | exact I].
  - destruct H as [H1 _]. split; [exact H1|]. split; [exact Hne | exact I].
  - destruct H as [H1 H2]. split; [exact H1 | apply IH, H2].
Qed.

(** The state of the loop stands for the runs of the presses read so far:
    the runs closed, and the one being counted. *)
Lemma fold_group (buttons : list string) :
  Forall (fun b => b <> ""%string) buttons ->
  forall (runs : list (string * nat)) (current : string) (count : nat),
    current <> ""%string -> (1 <= count)%nat ->
    Forall (fun g => (1 <= snd g)%nat) runs ->
    alternating (runs ++ [(current, count)]) ->
    exists runs' current' count',
      fold_left group buttons
        (map (fun g => render (fst g) (snd g)) runs, current, count)
      = (map (fun g => render (fst g) (snd g)) runs', current', count')
      /\ current' <> ""%string /\ (1 <= count')%nat
      /\ Forall (fun g => (1 <= snd g)%nat) runs'
      /\ alternating (runs' ++ [(current', count')])
      /\ expand (runs' ++ [(current', count')])
         = (expand (runs ++ [(current, count)]) ++ buttons)%list.
Proof.
  induction 1 as [|b buttons Hb _ IH]; intros runs current count Hcur Hcount Hruns Halt.
  - exists runs, current, count. rewrite app_nil_r.
    split; [reflexivity|]. repeat (split; [assumption|]). reflexivity.
  - cbn [fold_left group].
    destruct (String.eqb_spec b current) as [->|Hne].
    + destruct (IH runs current (S count) Hcur ltac:(lia) Hruns
                  (alternating_recount _ _ _ _ Halt))
        as (runs' & current' & count' & E & H1 & H2 & H3 & H4 & H5).
      exists runs', current', count'. rewrite E.
      split; [reflexivity|]. split; [exact H1|]. split; [exact H2|].
      split; [exact H3|]. split; [exact H4|].
      rewrite H5, !expand_snoc, repeat_snoc, <- !app_assoc. reflexivity.
    + rewrite (DecideRouteSpec.truthy_nonempty current Hcur).
      replace (map (fun g => render (fst g) (snd g)) runs ++ [render current count])%list
        with (map (fun g => render (fst g) (snd g)) (runs ++ [(current, count)]))
        by (rewrite map_app; reflexivity).
      destruct (IH (runs ++ [(current, count)])%list b 1%nat Hb ltac:(lia))
        as (runs' & current' & count' & E & H1 & H2 & H3 & H4 & H5).
      * apply Forall_app. split; [exact Hruns|]. constructor; [exact Hcount | constructor].
      * apply alternating_snoc; [exact Halt | congruence].
      * exists runs', current', count'. rewrite E.
        split; [reflexivity|]. split; [exact H1|]. split; [exact H2|].
        split; [exact H3|]. split; [exact H4|].
        rewrite H5, expand_snoc. simpl. rewrite <- !app_assoc. reflexivity.
Qed.

(** X21. The summary of the command history is a run-length encoding of
    the last [maxCount] buttons (of all of them when [maxCount] is 0):
    when no button is the empty string, the summary joins with [ -> ] the
    rendering of a list of runs [(button, count)], each of at least one
    press and consecutive ones of different buttons, which stands for
    exactly those buttons in order.  Without decisions the summary is
    [No previous commands]. *)
Theorem command_summary_is_run_length_encoding
  (decisions : list string) (maxCount : nat) :
  Forall (fun b => b <> ""%string) decisions ->
  formatCommandHistory [] maxCount = "No previous commands"%string
  /\ (decisions <> [] ->
      exists runs,
        formatCommandHistory decisions maxCount
        = join " -> " (map (fun g => render (fst g) (snd g)) runs)
        /\ expand runs = slice_last maxCount decisions
        /\ Forall (fun g => (1 <= snd g)%nat) runs
        /\ alternating runs).
Proof.
  intros Hall. split.
  { unfold formatCommandHistory, slice_last. destruct (maxCount =? 0)%nat; reflexivity. }
  intros Hne. unfold formatCommandHistory.
  assert (Hrecent : Forall (fun b => b <> ""%string) (slice_last maxCount decisions)).
  { unfold slice_last, lastN. destruct (maxCount =? 0)%nat; [exact Hall|].
    apply Forall_drop. exact Hall. }
  assert (Hlen : slice_last maxCount decisions <> []).
  { unfold slice_last, lastN. destruct (Nat.eqb_spec maxCount 0); [exact Hne|].
    intros E. apply (f_equal (@List.length string)) in E.
    rewrite List.length_skipn in E. simpl in E.
    destruct decisions; [congruence | simpl in E; lia]. }
  destruct (slice_last maxCount decisions) as [|b recent] eqn:Hr; [congruence|].
  cbn [List.length Nat.eqb fold_left group].
  inversion Hrecent as [|? ? Hb Hrest]; subst.
  destruct (String.eqb_spec b "") as [?|_]; [contradiction|].
  cbn [truthy].
  destruct (fold_group recent Hrest [] b 1%nat Hb ltac:(lia) ltac:(constructor) I)
    as (runs' & current' & count' & E & H1 & H2 & H3 & H4 & H5).
  cbn [map] in E. rewrite E.
  rewrite (DecideRouteSpec.truthy_nonempty current' H1).
  exists (runs' ++ [(current', count')])%list.
  split; [rewrite map_app; reflexivity|].
  split; [rewrite H5; simpl; reflexivity|].
  split; [|exact H4].
  apply Forall_app. split; [exact H3|]. constructor; [exact H2 | constructor].
Qed.

Lemma command_summary_is_run_length_encoding_witness :
  formatCommandHistory ["A"; "A"; "A"; "UP"; "A"]%string 25
  = "Ax3 -> UP -> A"%string.
Proof.
  destruct (command_summary_is_run_length_encoding
              ["A"; "A"; "A"; "UP"; "A"]%string 25) as [_ H].
  - repeat constructor; discriminate.
  - destruct H as (runs & E & _); [discriminate|]. reflexivity.
Defined.

End CommandHistorySpec.

(* ===================================================================== *)
(** * Properties of the stuck detection *)
(* ===================================================================== *)

Module GameKnowledgeSpec.
Import GameKnowledge.

Lemma filter_disjoint_length {A} (p q : A -> bool) (l : list A) :
  (forall x, p x = true -> q x = true -> False) ->
  (List.length (List.filter p l) + List.length (List.filter q l)
   <= List.length l)%nat.
Proof.
  intros Hdis. induction l as [|x l IH]; simpl; [lia|].
  destruct (p x) eqn:Hp; destruct (q x) eqn:Hq; simpl; try lia.
  exfalso. exact (Hdis x Hp Hq).
Qed.

Lemma forallb_same (d0 : string) (l : list string) :
  forallb (fun d => String.eqb d (hd d0 l)) l = true
  <-> exists d, Forall (eq d) l.
Proof.
  rewrite forallb_forall. split.
  - intros H. exists (hd d0 l). apply List.Forall_forall. intros x Hx.
    specialize (H x Hx). apply String.eqb_eq in H. congruence.
  - intros (d & Hd) x Hx. apply String.eqb_eq.
    rewrite List.Forall_forall in Hd.
    destruct l as [|y l]; [destruct Hx|]. simpl.
    rewrite <- (Hd y (or_introl eq_refl)), <- (Hd x Hx). reflexivity.
Qed.

(** X22. The diagnosis of [detectStuckState]: the agent is reported stuck
    exactly from three presses without change on; the type is
    [wall_collision] exactly when, then, there are at least three presses
    of a direction among the actions and they are all the same direction;
    and for at most five actions, which is what the game loop passes, the
    type is [dialogue_loop] exactly when at least three of them are A: the
    two diagnoses cannot compete. *)
Theorem stuck_diagnosis (consecutiveNoChange : nat) (lastActions : list string) :
  let info := detectStuckState consecutiveNoChange lastActions in
  let recentDirections :=
    List.filter (fun a => existsb (String.eqb a) directions) lastActions in
  let recentA := List.filter (fun a => String.eqb a "A") lastActions in
  (isStuck info = true <-> (3 <= consecutiveNoChange)%nat)
  /\ (stuckType info = None <-> (consecutiveNoChange < 3)%nat)
  /\ (stuckType info = Some "wall_collision"%string
      <-> (3 <= consecutiveNoChange)%nat
          /\ (3 <= List.length recentDirections)%nat
          /\ exists d, Forall (eq d) recentDirections)
  /\ ((List.length lastActions <= 5)%nat ->
      (stuckType info = Some "dialogue_loop"%string
       <-> (3 <= consecutiveNoChange)%nat /\ (3 <= List.length recentA)%nat)).
Proof.
  cbv zeta. unfold detectStuckState.
  set (dirs := List.filter (fun a => existsb (String.eqb a) directions) lastActions).
  set (as_ := List.filter (fun a => String.eqb a "A") lastActions).
  pose proof (forallb_same ""%string dirs) as Hsame.
  assert (Hdis : (List.length dirs + List.length as_ <= List.length lastActions)%nat).
  { apply filter_disjoint_length. intros x Hd Ha.
    apply String.eqb_eq in Ha. subst x. discriminate Hd. }
  destruct (Nat.leb_spec 3 consecutiveNoChange) as [Hn|Hn].
  2: { cbn [isStuck stuckType].
       repeat split; try discriminate; try lia; auto; intros; lia. }
  destruct (Nat.leb_spec 3 (List.length dirs)) as [Hd|Hd]; cbn [andb].
  - destruct (forallb _ dirs) eqn:Hall.
    + cbn [isStuck stuckType].
      split; [split; auto|]. split; [split; [discriminate | lia]|].
      split; [split; [intros _; split; [exact Hn|]; split; [exact Hd|];
                      apply Hsame; reflexivity | reflexivity]|].
      intros Hlen. split; [discriminate|]. intros [_ Ha]. lia.
    + assert (Hnot : ~ exists d, Forall (eq d) dirs).
      { intros H. apply Hsame in H. congruence. }
      destruct (Nat.leb_spec 3 (List.length as_)) as [Ha|Ha];
        cbn [isStuck stuckType];
        (split; [split; auto|]); (split; [split; [discriminate | lia]|]);
        (split; [split; [discriminate | intros (_ & _ & H); contradiction]|]);
        intros Hlen; split; try discriminate; auto; intros [_ H]; lia.
  - destruct (Nat.leb_spec 3 (List.length as_)) as [Ha|Ha];
      cbn [isStuck stuckType];
      (split; [split; auto|]); (split; [split; [discriminate | lia]|]);
      (split; [split; [discriminate | intros (_ & H & _); lia]|]);
      intros Hlen; split; try discriminate; auto; intros [_ H]; lia.
Qed.

End GameKnowledgeSpec.

(* ===================================================================== *)
(** * Properties of the histories of the coordinator *)
(* ===================================================================== *)

Module AgentCardHistorySpec.
Import JsString FrameHash AgentCard AgentCardHistory.

Lemma lastN_snoc {A} (n : nat) (l : list A) (x : A) :
  lastN (S n) (l ++ [x]) = (lastN n l ++ [x])%list.
Proof.
  unfold lastN. rewrite List.length_app. simpl List.length.
  replace (List.length l + 1 - S n)%nat with (List.length l - n)%nat by lia.
  rewrite List.skipn_app.
  replace (List.length l - n - List.length l)%nat with 0%nat by lia.
  reflexivity.
Qed.

Lemma lastN_lastN {A} (n m : nat) (l : list A) :
  (n <= m)%nat -> lastN n (lastN m l) = lastN n l.
Proof.
  intros H. unfold lastN. rewrite List.length_skipn, List.skipn_skipn.
  f_equal. lia.
Qed.

Lemma run_with_history_snoc st h its it :
  run_with_history st h (its ++ [it])
  = let (st', h') := run_with_history st h its in
    (processFrame st' (fst it) (snd it), remember st' h' (fst it) (snd it)).
Proof.
  revert st h. induction its as [|i its IH]; intros st h; simpl; [reflexivity|].
  apply IH.
Qed.

Lemma run_with_history_state st h its :
  (run_with_history st h its).1 = run st its.
Proof.
  revert st h. induction its as [|i its IH]; intros st h; simpl; [reflexivity|].
  apply IH.
Qed.

Lemma all_entries_snoc st its it :
  all_entries st (its ++ [it])
  = (all_entries st its ++ all_entries (run st its) [it])%list.
Proof.
  revert st. induction its as [|i its IH]; intros st; simpl.
  - reflexivity.
  - rewrite IH, app_assoc. reflexivity.
Qed.

(** X23. The histories of the coordinator are windows on the run: the
    frame history holds the last 25 entries, one for each iteration that
    went through, each with at most 200 characters of reasoning; the list
    of decisions holds the last 25 decisions; the dialog history holds the
    last 10 comments that are not blank; and the recent frames are the last
    2 valid frames, whether or not a decision came back for them. *)
Theorem histories_are_windows (its : list (string * option Steps.AIDecision)) :
  let h := (run_with_history initial empty its).2 in
  frameHistory h = lastN 25 (all_entries initial its)
  /\ decisions h = lastN 25 (all_decisions its)
  /\ dialogHistory h = lastN 10 (all_comments its)
  /\ recentFrames h = lastN 2 (all_frames its)
  /\ Forall (fun e => (String.length (fh_reasoning e) <= 200)%nat) (frameHistory h)
  /\ (List.length (frameHistory h) <= 25)%nat
  /\ (List.length (dialogHistory h) <= 10)%nat
  /\ (List.length (recentFrames h) <= 2)%nat.
Proof.
  cbv zeta.
  assert (Hwin :
    frameHistory (run_with_history initial empty its).2
    = lastN 25 (all_entries initial its)
    /\ decisions (run_with_history initial empty its).2
       = lastN 25 (all_decisions its)
    /\ dialogHistory (run_with_history initial empty its).2
       = lastN 10 (all_comments its)
    /\ recentFrames (run_with_history initial empty its).2
       = lastN 2 (all_frames its)).
  { induction its as [|[frame response] its IH] using rev_ind;
      [repeat split; reflexivity|].
    rewrite run_with_history_snoc.
    pose proof (run_with_history_state initial empty its) as Hst.
    destruct (run_with_history initial empty its) as [st h]. cbn [fst snd] in *.
    subst st. destruct IH as (IHf & IHd & IHc & IHr).
    rewrite all_entries_snoc.
    assert (Hdec : all_decisions (its ++ [(frame, response)])
                   = (all_decisions its
                      ++ (if isValidFrame frame
                          then match response with Some d => [d] | None => [] end
                          else []))%list).
    { unfold all_decisions. rewrite omap_app. f_equal.
      unfold AgentCardRun.went_through. simpl.
      destruct (isValidFrame frame); [destruct response|]; reflexivity. }
    assert (Hfr : all_frames (its ++ [(frame, response)])
                  = (all_frames its
                     ++ (if isValidFrame frame then [frame] else []))%list).
    { unfold all_frames. rewrite map_app, List.filter_app. reflexivity. }
    unfold all_comments in *. rewrite Hdec, Hfr, map_app, List.filter_app.
    unfold remember. cbn [all_entries fst snd].
    destruct (isValidFrame frame) eqn:Hvalid; simpl negb; cbv iota.
    - destruct response as [d|]; cbn [frameHistory decisions dialogHistory
                                        recentFrames map List.filter].
      + rewrite !app_nil_r.
        split; [rewrite IHf, lastN_lastN, lastN_snoc by lia; reflexivity|].
        split; [rewrite IHd, MemStashRouteSpec.lastN_window; reflexivity|].
        split.
        * destruct (worth_keeping (comment_of d)).
          -- rewrite IHc, lastN_lastN, lastN_snoc by lia. reflexivity.
          -- rewrite app_nil_r. exact IHc.
        * rewrite IHr, lastN_lastN, lastN_snoc by lia. reflexivity.
      + rewrite !app_nil_r.
        split; [exact IHf|]. split; [exact IHd|]. split; [exact IHc|].
        rewrite IHr, lastN_lastN, lastN_snoc by lia. reflexivity.
    - cbn [map List.filter]. rewrite !app_nil_r. auto. }
  destruct Hwin as (Hf & Hd & Hc & Hr).
  split; [exact Hf|]. split; [exact Hd|]. split; [exact Hc|]. split; [exact Hr|].
  split.
  { rewrite Hf. clear. unfold lastN. apply Forall_drop.
    generalize initial. induction its as [|it its IH]; intros st; simpl;
      [constructor|].
    apply Forall_app. split; [|apply IH].
    destruct (isValidFrame (fst it)); [|constructor].
    destruct (snd it) as [d|]; [|constructor].
    constructor; [|constructor]. simpl.
    apply (proj1 (MemStashSpec.length_slice0 200 (Steps.reasoning d))). }
  rewrite Hf, Hc, Hr, !MemStashSpec.length_lastN. lia.
Qed.

End AgentCardHistorySpec.
